(** * The document chunking engine of [src/chunker.py]

    A shallow embedding of the Python module [chunker.py] and the
    properties its specification states about it.

    Conventions of the embedding.
    - A Python [str] is a [string]; each [ascii] stands for the code point
      of the same number, so the strings covered are those whose code
      points are below 256.  Whitespace and word characters are the ones
      [str.isspace] and the [re] module recognise in that range.
    - A Python [int] is a [Z].
    - The injected tokenizer is a function [string -> Z]; where the
      state a callable may keep matters, in [Module Stateful], it is a
      function [string -> T -> Z * T] on the states [T] of the callable.
    - The module-level constants are read when a method runs; they are
      the fields of a record [Globals], and [module_globals] holds the
      values the module assigns.
    - The functions embed the bodies of the methods as their [def]
      statements give them.  The last statement of the class body, which
      rebinds one of them, is the subject of [Module Loading]. *)

From Equations Require Import Equations.
From Stdlib Require Import ZArith List String Ascii Bool Lia DecimalString.
Import ListNotations.

Open Scope string_scope.
Open Scope Z_scope.

(** ** Python strings *)

Module PyStr.

Definition code (c : ascii) : Z := Z.of_N (N_of_ascii c).

(** [len(x)] of a list and of a string, as a Python int. *)
Definition len {A : Type} (l : list A) : Z := Z.of_nat (List.length l).
Definition slen (s : string) : Z := Z.of_nat (String.length s).

(** [str.isspace] on one character, which is also the class [\s] of the
    [re] module: TAB..CR, FS..US, space, NEL and NBSP. *)
Definition isspace (c : ascii) : bool :=
  let n := code c in
  ((9 <=? n) && (n <=? 13)) || ((28 <=? n) && (n <=? 32))
  || (n =? 133) || (n =? 160).

(** The class [\w] of the [re] module on [str] patterns. *)
Definition isword (c : ascii) : bool :=
  let n := code c in
  ((48 <=? n) && (n <=? 57)) || ((65 <=? n) && (n <=? 90)) || (n =? 95)
  || ((97 <=? n) && (n <=? 122))
  || (n =? 170) || (n =? 178) || (n =? 179) || (n =? 181) || (n =? 185)
  || (n =? 186) || ((188 <=? n) && (n <=? 190))
  || ((192 <=? n) && (n <=? 214)) || ((216 <=? n) && (n <=? 246))
  || ((248 <=? n) && (n <=? 255)).

Definition isupper_az (c : ascii) : bool :=
  let n := code c in (65 <=? n) && (n <=? 90).

Definition islower_az (c : ascii) : bool :=
  let n := code c in (97 <=? n) && (n <=? 122).

Definition newline : ascii := "010"%char.

(** [s.lstrip()], [s.rstrip()] and [s.strip()]. *)
Fixpoint lstrip (s : string) : string :=
  match s with
  | EmptyString => EmptyString
  | String c s' => if isspace c then lstrip s' else s
  end.

Fixpoint rstrip (s : string) : string :=
  match s with
  | EmptyString => EmptyString
  | String c s' =>
      match rstrip s' with
      | EmptyString => if isspace c then EmptyString else String c EmptyString
      | r => String c r
      end
  end.

Definition strip (s : string) : string := rstrip (lstrip s).

(** Truth value of a string: the empty string is false. *)
Definition truthy (s : string) : bool :=
  match s with EmptyString => false | _ => true end.

(** [s.split(sep)] for a one-character separator: the pieces between the
    occurrences of [sep]; never the empty list. *)
Fixpoint split_char (sep : ascii) (s : string) : list string :=
  match s with
  | EmptyString => [EmptyString]
  | String c s' =>
      if Ascii.eqb c sep then EmptyString :: split_char sep s'
      else
        match split_char sep s' with
        | [] => [String c EmptyString]
        | p :: ps => String c p :: ps
        end
  end.

(** [len(s.split())]: the number of maximal runs of characters that are
    not whitespace.  [inword] tells whether the previous character
    belongs to a run. *)
Fixpoint count_words (inword : bool) (s : string) : Z :=
  match s with
  | EmptyString => 0
  | String c s' =>
      if isspace c then count_words false s'
      else (if inword then 0 else 1) + count_words true s'
  end.

(** [sep.join(l)]. *)
Definition join (sep : string) (l : list string) : string :=
  String.concat sep l.

(** [str(n)] for an int. *)
Definition str_of_int (n : Z) : string :=
  NilZero.string_of_int (Z.to_int n).

(** [s.encode('utf-8')] on code points below 256: one byte below 128, two
    bytes from 128 on. *)
Fixpoint encode_utf8 (s : string) : list Z :=
  match s with
  | EmptyString => []
  | String c s' =>
      let n := code c in
      if n <? 128 then n :: encode_utf8 s'
      else Z.lor 192 (Z.shiftr n 6) :: Z.lor 128 (Z.land n 63)
             :: encode_utf8 s'
  end.

End PyStr.

(** ** [hashlib.md5]

    The digest is the standard library's, not the repository's; it is
    written here after RFC 1321 so that identifiers can be computed.  A
    byte is a [Z] in [0, 256), a word a [Z] in [0, 2^32). *)

Module MD5.

Definition mask32 (x : Z) : Z := Z.land x 4294967295.

Definition rotl32 (x c : Z) : Z :=
  mask32 (Z.lor (Z.shiftl x c) (Z.shiftr x (32 - c))).

Definition not32 (x : Z) : Z := Z.lxor x 4294967295.

Definition shifts : list Z :=
  [7; 12; 17; 22; 7; 12; 17; 22; 7; 12; 17; 22; 7; 12; 17; 22;
   5; 9; 14; 20; 5; 9; 14; 20; 5; 9; 14; 20; 5; 9; 14; 20;
   4; 11; 16; 23; 4; 11; 16; 23; 4; 11; 16; 23; 4; 11; 16; 23;
   6; 10; 15; 21; 6; 10; 15; 21; 6; 10; 15; 21; 6; 10; 15; 21].

(** [floor (2^32 * abs (sin (i + 1)))] for [i] from 0 to 63. *)
Definition sines : list Z :=
  [3614090360; 3905402710; 606105819; 3250441966; 4118548399; 1200080426;
   2821735955; 4249261313; 1770035416; 2336552879; 4294925233; 2304563134;
   1804603682; 4254626195; 2792965006; 1236535329; 4129170786; 3225465664;
   643717713; 3921069994; 3593408605; 38016083; 3634488961; 3889429448;
   568446438; 3275163606; 4107603335; 1163531501; 2850285829; 4243563512;
   1735328473; 2368359562; 4294588738; 2272392833; 1839030562; 4259657740;
   2763975236; 1272893353; 4139469664; 3200236656; 681279174; 3936430074;
   3572445317; 76029189; 3654602809; 3873151461; 530742520; 3299628645;
   4096336452; 1126891415; 2878612391; 4237533241; 1700485571; 2399980690;
   4293915773; 2240044497; 1873313359; 4264355552; 2734768916; 1309151649;
   4149444226; 3174756917; 718787259; 3951481745].

Definition nthZ (l : list Z) (i : Z) : Z := nth (Z.to_nat i) l 0.

(** The message followed by the bit 1, zero bits up to 56 modulo 64, and
    the length in bits as eight little-endian bytes. *)
Definition le_bytes (count : nat) (x : Z) : list Z :=
  map (fun k => Z.land (Z.shiftr x (8 * Z.of_nat k)) 255) (seq 0 count).

Definition pad (msg : list Z) : list Z :=
  let n := Z.of_nat (List.length msg) in
  let zeros := (55 - n) mod 64 in
  msg ++ [128] ++ repeat 0 (Z.to_nat zeros) ++ le_bytes 8 (8 * n).

Definition word_of_bytes (b : list Z) : Z :=
  nthZ b 0 + Z.shiftl (nthZ b 1) 8 + Z.shiftl (nthZ b 2) 16
  + Z.shiftl (nthZ b 3) 24.

Fixpoint words_of (count : nat) (b : list Z) : list Z :=
  match count with
  | O => []
  | S k => word_of_bytes (firstn 4 b) :: words_of k (skipn 4 b)
  end.

Record regs := { rA : Z; rB : Z; rC : Z; rD : Z }.

Definition init_regs : regs :=
  {| rA := 1732584193; rB := 4023233417; rC := 2562383102; rD := 271733878 |}.

Definition round (m : list Z) (r : regs) (i : Z) : regs :=
  let '(f, g) :=
    if i <? 16 then
      (Z.lor (Z.land (rB r) (rC r)) (Z.land (not32 (rB r)) (rD r)), i)
    else if i <? 32 then
      (Z.lor (Z.land (rD r) (rB r)) (Z.land (not32 (rD r)) (rC r)),
       (5 * i + 1) mod 16)
    else if i <? 48 then
      (Z.lxor (rB r) (Z.lxor (rC r) (rD r)), (3 * i + 5) mod 16)
    else
      (Z.lxor (rC r) (Z.lor (rB r) (not32 (rD r))), (7 * i) mod 16) in
  let f' := mask32 (f + rA r + nthZ sines i + nthZ m g) in
  {| rA := rD r; rB := mask32 (rB r + rotl32 f' (nthZ shifts i));
     rC := rB r; rD := rC r |}.

Definition block (r : regs) (bytes : list Z) : regs :=
  let m := words_of 16 bytes in
  let r' := fold_left (round m) (map Z.of_nat (seq 0 64)) r in
  {| rA := mask32 (rA r + rA r'); rB := mask32 (rB r + rB r');
     rC := mask32 (rC r + rC r'); rD := mask32 (rD r + rD r') |}.

Fixpoint blocks (count : nat) (r : regs) (bytes : list Z) : regs :=
  match count with
  | O => r
  | S k => blocks k (block r (firstn 64 bytes)) (skipn 64 bytes)
  end.

Definition digest (msg : list Z) : list Z :=
  let p := pad msg in
  let r := blocks (List.length p / 64)%nat init_regs p in
  le_bytes 4 (rA r) ++ le_bytes 4 (rB r) ++ le_bytes 4 (rC r)
  ++ le_bytes 4 (rD r).

Definition hex_digit (n : Z) : ascii :=
  if n <? 10 then ascii_of_N (Z.to_N (48 + n))
  else ascii_of_N (Z.to_N (87 + n)).

Fixpoint hex (bytes : list Z) : string :=
  match bytes with
  | [] => EmptyString
  | b :: bs => String (hex_digit (b / 16)) (String (hex_digit (b mod 16)) (hex bs))
  end.

(** [hashlib.md5(data).hexdigest()]. *)
Definition hexdigest (msg : list Z) : string := hex (digest msg).

End MD5.

(** ** Data model *)

(** The dataclass [Section]: a tree, each node owning its children.  Its
    induction principle is [SectionT_ind'] below. *)
#[local] Unset Elimination Schemes.
Inductive SectionT : Type :=
  mkSection {
    title : string;
    level : Z;
    path : list string;
    content : list string;
    subsections : list SectionT
  }.
#[local] Set Elimination Schemes.

(** The dataclass [Chunk].  [chunk_type] is a [str] in the source, one of
    ["paragraph"], ["merged"] and ["split"]. *)
Record Chunk : Type :=
  mkChunk {
    chunk_id : string;
    article_id : string;
    text : string;
    token_count : Z;
    chunk_type : string;
    section_path : list string;
    paragraph_index : Z;
    subchunk_index : option Z
  }.

(** The module-level names the methods read. *)
Record Globals : Type :=
  mkGlobals {
    MIN_TOKENS : Z;
    TARGET_TOKENS : Z;
    MAX_TOKENS : Z;
    SENTENCE_OVERLAP : Z
  }.

(** The values [chunker.py] binds them to. *)
Definition module_globals : Globals :=
  {| MIN_TOKENS := 80; TARGET_TOKENS := 220; MAX_TOKENS := 300;
     SENTENCE_OVERLAP := 1 |}.

(** An instance of [UniversalChunker]: its only attribute. *)
Record UniversalChunker : Type :=
  mkChunker { tokenizer : string -> Z }.

(** What a call does: it returns a value or raises. *)
Inductive outcome (A : Type) : Type :=
| Returned (a : A)
| Raised (exception : string) (detail : string).
Arguments Returned {A} a.
Arguments Raised {A} exception detail.

(** [_simple_tokenize]: [len(text.split())]. *)
Definition _simple_tokenize (text : string) : Z :=
  PyStr.count_words false text.

(** A value passed as [tokenizer_func] that is not [None]: a callable,
    with the truth value Python gives the object.  That is [True] for a
    function or a lambda; an instance of a class that defines [__bool__]
    or [__len__] can be false. *)
Record Callable : Type :=
  mkCallable { truth : bool; call : string -> Z }.

(** [__init__]: [tokenizer_func if tokenizer_func else
    self._simple_tokenize].  The conditional expression tests the truth
    value of the argument, so [None] and a callable that is false both
    select the whitespace tokenizer. *)
Definition __init__ (tokenizer_func : option Callable) : UniversalChunker :=
  {| tokenizer := match tokenizer_func with
                  | Some f => if truth f then call f else _simple_tokenize
                  | None => _simple_tokenize
                  end |}.

(** ** [_split_sentences]

    [re.split] with the pattern
    [(?<!\w\.\w.)(?<![A-Z][a-z]\.)(?<=\.|\?|\!)\s]: the text is cut at
    every whitespace character that follows a full stop, a question mark
    or an exclamation mark, unless one of the two negative lookbehinds
    matches.  [before] holds the characters to the left of the position,
    the nearest first. *)

Definition lookbehind_initials (before : list ascii) : bool :=
  match before with
  | c1 :: c2 :: c3 :: c4 :: _ =>
      negb (Ascii.eqb c1 PyStr.newline) && PyStr.isword c2
      && Ascii.eqb c3 "." && PyStr.isword c4
  | _ => false
  end.

Definition lookbehind_title (before : list ascii) : bool :=
  match before with
  | c1 :: c2 :: c3 :: _ =>
      Ascii.eqb c1 "." && PyStr.islower_az c2 && PyStr.isupper_az c3
  | _ => false
  end.

Definition lookbehind_final (before : list ascii) : bool :=
  match before with
  | c1 :: _ => Ascii.eqb c1 "." || Ascii.eqb c1 "?" || Ascii.eqb c1 "!"
  | _ => false
  end.

Definition sentence_break (before : list ascii) (c : ascii) : bool :=
  negb (lookbehind_initials before) && negb (lookbehind_title before)
  && lookbehind_final before && PyStr.isspace c.

Fixpoint re_split (before : list ascii) (s : string) : list string :=
  match s with
  | EmptyString => [EmptyString]
  | String c s' =>
      if sentence_break before c then EmptyString :: re_split (c :: before) s'
      else
        match re_split (c :: before) s' with
        | [] => [String c EmptyString]
        | p :: ps => String c p :: ps
        end
  end.

Definition _split_sentences (text : string) : list string :=
  let sentences := re_split [] text in
  map PyStr.strip (filter (fun s => PyStr.truthy (PyStr.strip s)) sentences).

(** ** The methods of [UniversalChunker]

    [g] holds the module constants at the time of the call and [self] is
    the instance. *)

Section Methods.

Variable g : Globals.
Variable self : UniversalChunker.

(** [_emit_chunk]: appends one chunk to [chunks_list].  The list is
    returned instead of being changed in place. *)
Definition _emit_chunk (chunks_list : list Chunk) (article_id : string)
    (section_path : list string) (text : string) (tokens : Z)
    (c_type : string) (p_idx : Z) (sub_idx : option Z) : list Chunk :=
  let sub_str := match sub_idx with
                 | Some n => PyStr.str_of_int n
                 | None => EmptyString
                 end in
  let path_str := PyStr.join "/" section_path in
  let raw_id := article_id ++ "|" ++ path_str ++ "|"
                ++ PyStr.str_of_int p_idx ++ "|" ++ sub_str in
  let chunk_id :=
    substring 0 16 (MD5.hexdigest (PyStr.encode_utf8 raw_id)) in
  (chunks_list ++
  [ {| chunk_id := chunk_id;
       article_id := article_id;
       text := text;
       token_count := tokens;
       chunk_type := c_type;
       section_path := section_path;
       paragraph_index := p_idx;
       subchunk_index := sub_idx |} ])%list.

(** *** [_split_long_paragraph] *)

(** The inner [while]: one window.  [rest] is [sentences[i:]]; the
    result is the window, its token sum and the cursor after it. *)
Fixpoint build_window (rest : list string) (window : list string)
    (token_sum : Z) (i : nat) : list string * Z * nat :=
  match rest with
  | [] => (window, token_sum, i)
  | s_text :: rest' =>
      let s_len := tokenizer self s_text in
      let window := (window ++ [s_text])%list in
      let token_sum := token_sum + s_len in
      let i := S i in
      if token_sum >=? TARGET_TOKENS g then (window, token_sum, i)
      else build_window rest' window token_sum i
  end.

(** [overlap_count] after the safety test. *)
Definition overlap_of (window : list string) : Z :=
  let overlap_count := SENTENCE_OVERLAP g in
  if overlap_count >=? PyStr.len window
  then Z.max 0 (PyStr.len window - 1)
  else overlap_count.

(** The cursor for the next window: [i] is the cursor after the window.
    The cursor is a natural number: [i - overlap_count] is never below
    zero, see [next_cursor_spec]. *)
Definition backtrack (sentences window : list string) (i : nat) : nat :=
  if Z.of_nat i <? PyStr.len sentences
  then Z.to_nat (Z.of_nat i - overlap_of window)
  else i.

(** One turn of the outer [while], from the cursor [i]. *)
Definition window_at (sentences : list string) (i : nat)
  : list string * Z * nat :=
  build_window (skipn i sentences) [] 0 i.

Definition next_cursor (sentences : list string) (i : nat) : nat :=
  let '(window, _, i') := window_at sentences i in
  backtrack sentences window i'.

(** The outer [while]. *)
Equations? split_loop (chunks_list : list Chunk) (article_id : string)
    (section : SectionT) (paragraph_index : Z) (sentences : list string)
    (i : nat) (sub_idx : Z) : list Chunk
  by wf (List.length sentences - i)%nat lt :=
  split_loop chunks_list article_id section paragraph_index sentences i sub_idx
    with lt_dec i (List.length sentences) => {
    | right _ => chunks_list
    | left _ =>
        let w := window_at sentences i in
        let chunk_text := PyStr.join " " (fst (fst w)) in
        let chunks_list :=
          _emit_chunk chunks_list article_id (path section) chunk_text
            (snd (fst w)) "split" paragraph_index (Some sub_idx) in
        split_loop chunks_list article_id section paragraph_index sentences
          (next_cursor sentences i) (sub_idx + 1) }.
Proof.
  assert (grow : forall rest window s j,
             let r := build_window rest window s j in
             snd r = (j + (List.length (fst (fst r)) - List.length window))%nat
             /\ (List.length window <= List.length (fst (fst r)))%nat
             /\ (rest <> [] ->
                 (List.length window < List.length (fst (fst r)))%nat)).
  { induction rest as [|x rest IH]; intros window s j; cbn.
    - repeat split; [lia | lia | congruence].
    - destruct (s + tokenizer self x >=? TARGET_TOKENS g); cbn.
      + rewrite length_app. cbn. repeat split; lia.
      + specialize (IH (window ++ [x])%list (s + tokenizer self x) (S j)).
        cbn in IH. rewrite length_app in IH. cbn in IH.
        destruct IH as (IH1 & IH2 & _). repeat split; lia. }
  unfold next_cursor, window_at.
  specialize (grow (skipn i sentences) [] 0 i). cbn in grow.
  destruct (build_window (skipn i sentences) [] 0 i) as [[window s] i'].
  cbn in grow. destruct grow as (E & _ & P).
  assert (Hne : skipn i sentences <> []).
  { intro N. apply (f_equal (@List.length _)) in N.
    rewrite length_skipn in N. cbn in N. lia. }
  specialize (P Hne). unfold backtrack, overlap_of, PyStr.len.
  destruct (Z.of_nat i' <? _); [|lia].
  destruct (SENTENCE_OVERLAP g >=? _) eqn:C; lia.
Qed.

Definition _split_long_paragraph (chunks_list : list Chunk)
    (article_id : string) (section : SectionT) (text : string)
    (paragraph_index : Z) : list Chunk :=
  let sentences := _split_sentences text in
  match sentences with
  | [] => chunks_list
  | _ => split_loop chunks_list article_id section paragraph_index sentences
           0%nat 0
  end.

(** *** [_process_section_content] *)

(** [enumerate]. *)
Fixpoint enumerate_from {A : Type} (start : Z) (l : list A) : list (Z * A) :=
  match l with
  | [] => []
  | x :: l' => (start, x) :: enumerate_from (start + 1) l'
  end.

Definition blank_line : string :=
  String PyStr.newline (String PyStr.newline EmptyString).

(** The loop variables: [chunks], [buffer_text] ([None] when the buffer is
    empty) and [buffer_idx]. *)
Record loop_state : Type :=
  mkLoop {
    chunks : list Chunk;
    buffer_text : option string;
    buffer_idx : Z
  }.

(** The body of the [for] loop, for the paragraph [paragraph_text] at
    index [i]. *)
Definition process_paragraph (article_id : string) (section : SectionT)
    (st : loop_state) (ip : Z * string) : loop_state :=
  let '(i, paragraph_text) := ip in
  let tokens := tokenizer self paragraph_text in
  if tokens <? MIN_TOKENS g then
    match buffer_text st with
    | None =>
        {| chunks := chunks st; buffer_text := Some paragraph_text;
           buffer_idx := i |}
    | Some buffered =>
        let merged_candidate := buffered ++ blank_line ++ paragraph_text in
        let merged_tokens := tokenizer self merged_candidate in
        if merged_tokens <=? MAX_TOKENS g then
          {| chunks := chunks st; buffer_text := Some merged_candidate;
             buffer_idx := buffer_idx st |}
        else
          {| chunks := _emit_chunk (chunks st) article_id (path section)
                         buffered (tokenizer self buffered) "merged"
                         (buffer_idx st) None;
             buffer_text := Some paragraph_text;
             buffer_idx := i |}
    end
  else
    let st :=
      match buffer_text st with
      | Some buffered =>
          {| chunks := _emit_chunk (chunks st) article_id (path section)
                         buffered (tokenizer self buffered) "merged"
                         (buffer_idx st) None;
             buffer_text := None;
             buffer_idx := -1 |}
      | None => st
      end in
    if tokens <=? MAX_TOKENS g then
      {| chunks := _emit_chunk (chunks st) article_id (path section)
                     paragraph_text tokens "paragraph" i None;
         buffer_text := buffer_text st;
         buffer_idx := buffer_idx st |}
    else
      {| chunks := _split_long_paragraph (chunks st) article_id section
                     paragraph_text i;
         buffer_text := buffer_text st;
         buffer_idx := buffer_idx st |}.

(** The final flush. *)
Definition final_flush (article_id : string) (section : SectionT)
    (st : loop_state) : list Chunk :=
  match buffer_text st with
  | Some buffered =>
      _emit_chunk (chunks st) article_id (path section) buffered
        (tokenizer self buffered) "merged" (buffer_idx st) None
  | None => chunks st
  end.

Definition initial_state : loop_state :=
  {| chunks := []; buffer_text := None; buffer_idx := -1 |}.

Definition _process_section_content (article_id : string)
    (section : SectionT) : list Chunk :=
  final_flush article_id section
    (fold_left (process_paragraph article_id section)
       (enumerate_from 0 (content section)) initial_state).

(** *** [_recursive_chunk_process] *)

Fixpoint _recursive_chunk_process (article_id : string) (section : SectionT)
  : list Chunk :=
  match section with
  | mkSection _ _ _ _ subs =>
      fold_left
        (fun chunks subsection =>
           (chunks ++ _recursive_chunk_process article_id subsection)%list)
        subs (_process_section_content article_id section)
  end.

End Methods.

(** ** [_parse_markdown_structure]

    The method builds the tree by mutation: a new section is appended to
    its parent's [subsections] at once and filled in later, through
    [current_section] and [section_stack], which alias it.  The model
    keeps the section objects in a store, [heap], and refers to them by
    their position in it; the root is object 0. *)

Record SectionObj : Type :=
  mkObj {
    o_title : string;
    o_level : Z;
    o_path : list string;
    o_content : list string;
    o_subsections : list nat
  }.

(** [l[i] = f(l[i])]; an [i] out of range does not occur, every reference
    being a position of the store. *)
Fixpoint modify {A : Type} (i : nat) (f : A -> A) (l : list A) : list A :=
  match l, i with
  | [], _ => []
  | x :: l', O => f x :: l'
  | x :: l', S i' => x :: modify i' f l'
  end.

Definition append_content (p_text : string) (o : SectionObj) : SectionObj :=
  {| o_title := o_title o; o_level := o_level o; o_path := o_path o;
     o_content := (o_content o ++ [p_text])%list;
     o_subsections := o_subsections o |}.

Definition append_subsection (child : nat) (o : SectionObj) : SectionObj :=
  {| o_title := o_title o; o_level := o_level o; o_path := o_path o;
     o_content := o_content o;
     o_subsections := (o_subsections o ++ [child])%list |}.

Definition level_of (heap : list SectionObj) (ref : nat) : Z :=
  match nth_error heap ref with Some o => o_level o | None => 0 end.

Definition path_of (heap : list SectionObj) (ref : nat) : list string :=
  match nth_error heap ref with Some o => o_path o | None => [] end.

(** The variables of the method.  The top of [section_stack], which is
    [section_stack[-1]], is the head of the list. *)
Record parse_state : Type :=
  mkParse {
    heap : list SectionObj;
    section_stack : list nat;
    current_section : nat;
    current_paragraph_lines : list string
  }.

(** The nested function [flush_paragraph]. *)
Definition flush_paragraph (st : parse_state) : parse_state :=
  match current_paragraph_lines st with
  | [] => st
  | lines =>
      let p_text := PyStr.strip (PyStr.join " " lines) in
      {| heap := if PyStr.truthy p_text
                 then modify (current_section st) (append_content p_text)
                        (heap st)
                 else heap st;
         section_stack := section_stack st;
         current_section := current_section st;
         current_paragraph_lines := [] |}
  end.

(** [re.match] with the header pattern: at the start of the line a group
    of one or more [#], then one or more whitespace characters, then a
    group of any characters but a newline.  The result is the length of
    group 1 and group 2. *)
Fixpoint leading_hashes (s : string) : nat * string :=
  match s with
  | String c s' =>
      if Ascii.eqb c "#"
      then let '(n, rest) := leading_hashes s' in (S n, rest)
      else (O, s)
  | EmptyString => (O, s)
  end.

Fixpoint until_newline (s : string) : string :=
  match s with
  | EmptyString => EmptyString
  | String c s' =>
      if Ascii.eqb c PyStr.newline then EmptyString
      else String c (until_newline s')
  end.

Definition header_match (line : string) : option (Z * string) :=
  match leading_hashes line with
  | (O, _) => None
  | (S n, rest) =>
      match rest with
      | String c _ =>
          if PyStr.isspace c
          then Some (Z.of_nat (S n), until_newline (PyStr.lstrip rest))
          else None
      | EmptyString => None
      end
  end.

(** [while len(section_stack) > 1 and section_stack[-1].level >= level:
    section_stack.pop()]. *)
Fixpoint pop_to_parent (heap : list SectionObj) (level : Z)
    (section_stack : list nat) : list nat :=
  match section_stack with
  | top :: below =>
      match below with
      | [] => section_stack
      | _ :: _ =>
          if level_of heap top >=? level
          then pop_to_parent heap level below
          else section_stack
      end
  | [] => section_stack
  end.

(** The body of the loop over the lines. *)
Definition parse_line (st : parse_state) (line : string) : parse_state :=
  let line_stripped := PyStr.strip line in
  if negb (PyStr.truthy line_stripped) then flush_paragraph st
  else
    match header_match line_stripped with
    | Some (level, group2) =>
        let st := flush_paragraph st in
        let title := PyStr.strip group2 in
        let section_stack := pop_to_parent (heap st) level (section_stack st) in
        let parent := hd O section_stack in
        let base_path := path_of (heap st) parent in
        let base_path :=
          match base_path with
          | [p] => if String.eqb p "Root" then [] else base_path
          | _ => base_path
          end in
        let path := (base_path ++ [title])%list in
        let new_section := List.length (heap st) in
        {| heap := (modify parent (append_subsection new_section) (heap st)
                    ++ [ {| o_title := title; o_level := level;
                            o_path := path; o_content := [];
                            o_subsections := [] |} ])%list;
           section_stack := new_section :: section_stack;
           current_section := new_section;
           current_paragraph_lines := current_paragraph_lines st |}
    | None =>
        {| heap := heap st;
           section_stack := section_stack st;
           current_section := current_section st;
           current_paragraph_lines :=
             (current_paragraph_lines st ++ [line_stripped])%list |}
    end.

(** The tree a reference of the store stands for.  A child is created
    after its parent, so the depth of the tree is below the size of the
    store, which is the [fuel] given. *)
Fixpoint reify (fuel : nat) (heap : list SectionObj) (ref : nat) : SectionT :=
  match nth_error heap ref with
  | Some o =>
      {| title := o_title o; level := o_level o; path := o_path o;
         content := o_content o;
         subsections :=
           match fuel with
           | O => []
           | S fuel' => map (reify fuel' heap) (o_subsections o)
           end |}
  | None =>
      {| title := EmptyString; level := 0; path := []; content := [];
         subsections := [] |}
  end.

Definition root_obj : SectionObj :=
  {| o_title := "Root"; o_level := 0; o_path := ["Root"]; o_content := [];
     o_subsections := [] |}.

Definition parse_start : parse_state :=
  {| heap := [root_obj]; section_stack := [O]; current_section := O;
     current_paragraph_lines := [] |}.

Definition _parse_markdown_structure (text : string) : SectionT :=
  let lines := PyStr.split_char PyStr.newline text in
  let st := flush_paragraph (fold_left parse_line lines parse_start) in
  reify (List.length (heap st)) (heap st) O.

(** ** [chunk_article] *)

Definition chunk_article (g : Globals) (self : UniversalChunker)
    (article_id : string) (markdown_content : string) : list Chunk :=
  let root_section := _parse_markdown_structure markdown_content in
  _recursive_chunk_process g self article_id root_section.

(** ** The tokenizer as a callable with a state of its own

    [self.tokenizer] is any callable, a closure or an object: it may
    keep a state of its own (a cache, a counter) that a call changes.
    In this second reading of the methods that call it, a call of the
    tokenizer takes the state [s] of the callable and returns the count
    with the state after the call, and the methods pass the state along
    in the order in which the source makes the calls.  Nothing else is
    passed along: the methods assign no attribute of [self] and no module
    name, and every list they append to is created by the call. *)

Module Stateful.

Section Methods.

Variable T : Type.
Variable g : Globals.
Variable tokenizer : string -> T -> Z * T.

(** The inner [while] of [_split_long_paragraph]. *)
Fixpoint build_window (rest : list string) (window : list string)
    (token_sum : Z) (i : nat) (s : T) : list string * Z * nat * T :=
  match rest with
  | [] => (window, token_sum, i, s)
  | s_text :: rest' =>
      let '(s_len, s) := tokenizer s_text s in
      let window := (window ++ [s_text])%list in
      let token_sum := token_sum + s_len in
      let i := S i in
      if token_sum >=? TARGET_TOKENS g then (window, token_sum, i, s)
      else build_window rest' window token_sum i s
  end.

Definition window_at (sentences : list string) (i : nat) (s : T)
  : list string * Z * nat * T :=
  build_window (skipn i sentences) [] 0 i s.

(** The cursor for the next window, from the cursor after this one. *)
Definition next_cursor (sentences : list string) (i : nat) (s : T) : nat :=
  let '(window, _, i', _) := window_at sentences i s in
  backtrack g sentences window i'.

(** The outer [while]. *)
Equations? split_loop (chunks_list : list Chunk) (article_id : string)
    (section : SectionT) (paragraph_index : Z) (sentences : list string)
    (i : nat) (sub_idx : Z) (s : T) : list Chunk * T
  by wf (List.length sentences - i)%nat lt :=
  split_loop chunks_list article_id section paragraph_index sentences i sub_idx
    s with lt_dec i (List.length sentences) => {
    | right _ => (chunks_list, s)
    | left _ =>
        let w := window_at sentences i s in
        let chunk_text := PyStr.join " " (fst (fst (fst w))) in
        let chunks_list :=
          _emit_chunk chunks_list article_id (path section) chunk_text
            (snd (fst (fst w))) "split" paragraph_index (Some sub_idx) in
        split_loop chunks_list article_id section paragraph_index sentences
          (next_cursor sentences i s) (sub_idx + 1) (snd w) }.
Proof.
  assert (grow : forall rest start sum j s0,
             let r := build_window rest start sum j s0 in
             snd (fst r)
             = (j + (List.length (fst (fst (fst r))) - List.length start))%nat
             /\ (List.length start <= List.length (fst (fst (fst r))))%nat
             /\ (rest <> [] ->
                 (List.length start < List.length (fst (fst (fst r))))%nat)).
  { induction rest as [|x rest IH]; intros start sum j s0; cbn.
    - repeat split; [lia | lia | congruence].
    - destruct (tokenizer x s0) as [s_len s1].
      destruct (sum + s_len >=? TARGET_TOKENS g); cbn.
      + rewrite length_app. cbn. repeat split; lia.
      + specialize (IH (start ++ [x])%list (sum + s_len) (S j) s1).
        cbn in IH. rewrite length_app in IH. cbn in IH.
        destruct IH as (IH1 & IH2 & _). repeat split; lia. }
  unfold next_cursor, window_at.
  specialize (grow (skipn i sentences) [] 0 i s). cbn in grow.
  destruct (build_window (skipn i sentences) [] 0 i s)
    as [[[built sum] i'] s'].
  cbn in grow. destruct grow as (E & _ & P).
  assert (Hne : skipn i sentences <> []).
  { intro N. apply (f_equal (@List.length _)) in N.
    rewrite length_skipn in N. cbn in N. lia. }
  specialize (P Hne). unfold backtrack, overlap_of, PyStr.len.
  destruct (Z.of_nat i' <? _); [|lia].
  destruct (SENTENCE_OVERLAP g >=? _) eqn:C; lia.
Qed.

Definition _split_long_paragraph (chunks_list : list Chunk)
    (article_id : string) (section : SectionT) (text : string)
    (paragraph_index : Z) (s : T) : list Chunk * T :=
  let sentences := _split_sentences text in
  match sentences with
  | [] => (chunks_list, s)
  | _ => split_loop chunks_list article_id section paragraph_index sentences
           0%nat 0 s
  end.

(** The body of the [for] loop of [_process_section_content]. *)
Definition process_paragraph (article_id : string) (section : SectionT)
    (acc : loop_state * T) (ip : Z * string) : loop_state * T :=
  let '(st, s) := acc in
  let '(i, paragraph_text) := ip in
  let '(tokens, s) := tokenizer paragraph_text s in
  if tokens <? MIN_TOKENS g then
    match buffer_text st with
    | None =>
        ({| chunks := chunks st; buffer_text := Some paragraph_text;
            buffer_idx := i |}, s)
    | Some buffered =>
        let merged_candidate := buffered ++ blank_line ++ paragraph_text in
        let '(merged_tokens, s) := tokenizer merged_candidate s in
        if merged_tokens <=? MAX_TOKENS g then
          ({| chunks := chunks st; buffer_text := Some merged_candidate;
              buffer_idx := buffer_idx st |}, s)
        else
          let '(buffer_tokens, s) := tokenizer buffered s in
          ({| chunks := _emit_chunk (chunks st) article_id (path section)
                          buffered buffer_tokens "merged" (buffer_idx st)
                          None;
              buffer_text := Some paragraph_text;
              buffer_idx := i |}, s)
    end
  else
    let '(st, s) :=
      match buffer_text st with
      | Some buffered =>
          let '(buffer_tokens, s) := tokenizer buffered s in
          ({| chunks := _emit_chunk (chunks st) article_id (path section)
                          buffered buffer_tokens "merged" (buffer_idx st)
                          None;
              buffer_text := None;
              buffer_idx := -1 |}, s)
      | None => (st, s)
      end in
    if tokens <=? MAX_TOKENS g then
      ({| chunks := _emit_chunk (chunks st) article_id (path section)
                      paragraph_text tokens "paragraph" i None;
          buffer_text := buffer_text st;
          buffer_idx := buffer_idx st |}, s)
    else
      let '(chunks_list, s) :=
        _split_long_paragraph (chunks st) article_id section paragraph_text
          i s in
      ({| chunks := chunks_list;
          buffer_text := buffer_text st;
          buffer_idx := buffer_idx st |}, s).

(** The final flush. *)
Definition final_flush (article_id : string) (section : SectionT)
    (acc : loop_state * T) : list Chunk * T :=
  let '(st, s) := acc in
  match buffer_text st with
  | Some buffered =>
      let '(buffer_tokens, s) := tokenizer buffered s in
      (_emit_chunk (chunks st) article_id (path section) buffered
         buffer_tokens "merged" (buffer_idx st) None, s)
  | None => (chunks st, s)
  end.

Definition _process_section_content (article_id : string)
    (section : SectionT) (s : T) : list Chunk * T :=
  final_flush article_id section
    (fold_left (process_paragraph article_id section)
       (enumerate_from 0 (content section)) (initial_state, s)).

Fixpoint _recursive_chunk_process (article_id : string) (section : SectionT)
    (s : T) : list Chunk * T :=
  match section with
  | mkSection _ _ _ _ subs =>
      fold_left
        (fun acc subsection =>
           let '(chunks_list, s) := acc in
           let '(more, s) :=
             _recursive_chunk_process article_id subsection s in
           ((chunks_list ++ more)%list, s))
        subs (_process_section_content article_id section s)
  end.

Definition chunk_article (article_id : string) (markdown_content : string)
    (s : T) : list Chunk * T :=
  let root_section := _parse_markdown_structure markdown_content in
  _recursive_chunk_process article_id root_section s.

End Methods.

End Stateful.

(** ** Loading the module

    What executing [chunker.py] binds.  A statement is reduced to the
    names it reads when it is executed and the name it binds.  A [def]
    reads the names of its decorators, default values and annotations,
    not those of its body; a class statement executes its body in a
    namespace of its own, and a name read there is looked up in that
    namespace, then among the module's globals, then among the builtins.
    The modules imported are the standard library's and are taken to
    load. *)

Module Loading.

Inductive stmt : Type :=
| Import (names : list string)
| Assign (target : string) (reads : list string)
| Annotation (reads : list string)
| Def (name : string) (reads : list string).

Inductive top_stmt : Type :=
| Simple (s : stmt)
| Class (decorators : list string) (name : string) (body : list stmt).

(** The names of the [builtins] module. *)
Definition builtins : list string :=
  ["ArithmeticError"; "AssertionError"; "AttributeError"; "BaseException";
   "BaseExceptionGroup"; "BlockingIOError"; "BrokenPipeError";
   "BufferError"; "BytesWarning"; "ChildProcessError";
   "ConnectionAbortedError"; "ConnectionError"; "ConnectionRefusedError";
   "ConnectionResetError"; "DeprecationWarning"; "EOFError"; "Ellipsis";
   "EncodingWarning"; "EnvironmentError"; "Exception"; "ExceptionGroup";
   "False"; "FileExistsError"; "FileNotFoundError"; "FloatingPointError";
   "FutureWarning"; "GeneratorExit"; "IOError"; "ImportError";
   "ImportWarning"; "IndentationError"; "IndexError"; "InterruptedError";
   "IsADirectoryError"; "KeyError"; "KeyboardInterrupt"; "LookupError";
   "MemoryError"; "ModuleNotFoundError"; "NameError"; "None";
   "NotADirectoryError"; "NotImplemented"; "NotImplementedError";
   "OSError"; "OverflowError"; "PendingDeprecationWarning";
   "PermissionError"; "ProcessLookupError"; "RecursionError";
   "ReferenceError"; "ResourceWarning"; "RuntimeError"; "RuntimeWarning";
   "StopAsyncIteration"; "StopIteration"; "SyntaxError"; "SyntaxWarning";
   "SystemError"; "SystemExit"; "TabError"; "TimeoutError"; "True";
   "TypeError"; "UnboundLocalError"; "UnicodeDecodeError";
   "UnicodeEncodeError"; "UnicodeError"; "UnicodeTranslateError";
   "UnicodeWarning"; "UserWarning"; "ValueError"; "Warning";
   "ZeroDivisionError"; "__build_class__"; "__debug__"; "__doc__";
   "__import__"; "__loader__"; "__name__"; "__package__"; "__spec__";
   "abs"; "aiter"; "all"; "anext"; "any"; "ascii"; "bin"; "bool";
   "breakpoint"; "bytearray"; "bytes"; "callable"; "chr"; "classmethod";
   "compile"; "complex"; "copyright"; "credits"; "delattr"; "dict"; "dir";
   "divmod"; "enumerate"; "eval"; "exec"; "exit"; "filter"; "float";
   "format"; "frozenset"; "getattr"; "globals"; "hasattr"; "hash"; "help";
   "hex"; "id"; "input"; "int"; "isinstance"; "issubclass"; "iter"; "len";
   "license"; "list"; "locals"; "map"; "max"; "memoryview"; "min"; "next";
   "object"; "oct"; "open"; "ord"; "pow"; "print"; "property"; "quit";
   "range"; "repr"; "reversed"; "round"; "set"; "setattr"; "slice";
   "sorted"; "staticmethod"; "str"; "sum"; "super"; "tuple"; "type";
   "vars"; "zip"].

Definition reads_of (s : stmt) : list string :=
  match s with
  | Import _ => []
  | Assign _ reads => reads
  | Annotation reads => reads
  | Def _ reads => reads
  end.

Definition binds_of (s : stmt) : list string :=
  match s with
  | Import names => names
  | Assign target _ => [target]
  | Annotation _ => []
  | Def name _ => [name]
  end.

Definition bound (scopes : list (list string)) (name : string) : bool :=
  existsb (existsb (String.eqb name)) scopes.

(** The first name of [reads] that no scope binds. *)
Fixpoint first_unbound (scopes : list (list string)) (reads : list string)
  : option string :=
  match reads with
  | [] => None
  | name :: reads' =>
      if bound scopes name then first_unbound scopes reads' else Some name
  end.

(** One statement, in the namespace [locals] enclosed by [outer]: the
    namespace after it, or the [NameError] of the name it could not
    read. *)
Definition exec_stmt (outer : list (list string)) (locals : list string)
    (s : stmt) : outcome (list string) :=
  match first_unbound (locals :: outer) (reads_of s) with
  | Some name => Raised "NameError" name
  | None => Returned (binds_of s ++ locals)%list
  end.

Fixpoint exec_body (outer : list (list string)) (locals : list string)
    (body : list stmt) : outcome (list string) :=
  match body with
  | [] => Returned locals
  | s :: body' =>
      match exec_stmt outer locals s with
      | Returned locals' => exec_body outer locals' body'
      | Raised e d => Raised e d
      end
  end.

Definition exec_top (globals : list string) (t : top_stmt)
  : outcome (list string) :=
  match t with
  | Simple s => exec_stmt [builtins] globals s
  | Class decorators name body =>
      match first_unbound [globals; builtins] decorators with
      | Some missing => Raised "NameError" missing
      | None =>
          match exec_body [globals; builtins] [] body with
          | Returned _ => Returned (name :: globals)
          | Raised e d => Raised e d
          end
      end
  end.

Fixpoint exec_module (globals : list string) (m : list top_stmt)
  : outcome (list string) :=
  match m with
  | [] => Returned globals
  | t :: m' =>
      match exec_top globals t with
      | Returned globals' => exec_module globals' m'
      | Raised e d => Raised e d
      end
  end.

(** The statements of [chunker.py], in order. *)
Definition class_Section : top_stmt :=
  Class ["dataclass"] "Section"
    [ Annotation ["str"];
      Annotation ["int"];
      Annotation ["List"; "str"];
      Assign "content" ["List"; "str"; "field"; "list"];
      Assign "subsections" ["List"; "field"; "list"] ].

Definition class_Chunk : top_stmt :=
  Class ["dataclass"] "Chunk"
    [ Annotation ["str"]; Annotation ["str"]; Annotation ["str"];
      Annotation ["int"]; Annotation ["str"]; Annotation ["List"; "str"];
      Annotation ["int"]; Annotation ["Optional"; "int"] ].

Definition UniversalChunker_body : list stmt :=
    [ Def "__init__" [];
      Def "_simple_tokenize" [];
      Def "_split_sentences" [];
      Def "chunk_article" ["str"; "str"; "List"; "Chunk"];
      Def "_recursive_chunk_process" ["str"; "Section"; "List"; "Chunk"];
      Def "_parse_markdown_structure" ["str"; "Section"];
      Def "_process_section_content" ["str"; "Section"; "List"; "Chunk"];
      Def "_split_long_paragraph" [];
      Def "_emit_chunk" [];
      Assign "_process_section_content" ["_process_section_content_fixed"] ].

Definition class_UniversalChunker : top_stmt :=
  Class [] "UniversalChunker" UniversalChunker_body.

Definition chunker_py : list top_stmt :=
  [ Simple (Import ["hashlib"]);
    Simple (Import ["re"]);
    Simple (Import ["dataclass"; "field"]);
    Simple (Import ["List"; "Optional"; "Dict"]);
    Simple (Assign "MIN_TOKENS" []);
    Simple (Assign "TARGET_TOKENS" []);
    Simple (Assign "MAX_TOKENS" []);
    Simple (Assign "SENTENCE_OVERLAP" []);
    class_Section;
    class_Chunk;
    class_UniversalChunker ].

(** [import chunker], from the globals a fresh module starts with. *)
Definition module_start : list string :=
  ["__name__"; "__doc__"; "__package__"; "__loader__"; "__spec__";
   "__file__"; "__builtins__"].

Definition import_chunker : outcome (list string) :=
  exec_module module_start chunker_py.

(** A client's [UniversalChunker(tokenizer_func).chunk_article(...)] after
    [from chunker import UniversalChunker]. *)
Definition client_chunk_article (tokenizer_func : option Callable)
    (article_id markdown_content : string) : outcome (list Chunk) :=
  match import_chunker with
  | Raised e d => Raised e d
  | Returned globals =>
      if bound [globals] "UniversalChunker" then
        let self := __init__ tokenizer_func in
        Returned (chunk_article module_globals self article_id
                    markdown_content)
      else Raised "ImportError" "UniversalChunker"
  end.

(** The same for the other operations: parsing and splitting. *)
Definition client_parse (markdown_content : string) : outcome SectionT :=
  match import_chunker with
  | Raised e d => Raised e d
  | Returned globals =>
      if bound [globals] "UniversalChunker"
      then Returned (_parse_markdown_structure markdown_content)
      else Raised "ImportError" "UniversalChunker"
  end.

Definition client_split_sentences (text : string) : outcome (list string) :=
  match import_chunker with
  | Raised e d => Raised e d
  | Returned globals =>
      if bound [globals] "UniversalChunker"
      then Returned (_split_sentences text)
      else Raised "ImportError" "UniversalChunker"
  end.

End Loading.

(** ** The statements of the specification

    The definitions of this part follow the words of the specification;
    the theorems compare them with the methods above. *)

Module Spec.

(** ChunkIdentity: the canonical delimited string of the four inputs,
    the sub-chunk index being an empty marker when absent. *)
Definition canonical_string (document_id : string)
    (section_path : list string) (paragraph_index : Z)
    (subchunk_index : option Z) : string :=
  document_id ++ "|" ++ PyStr.join "/" section_path ++ "|"
  ++ PyStr.str_of_int paragraph_index ++ "|"
  ++ match subchunk_index with
     | Some k => PyStr.str_of_int k
     | None => EmptyString
     end.

(** The first 16 hex characters of the digest of the canonical string. *)
Definition derive_id (document_id : string) (section_path : list string)
    (paragraph_index : Z) (subchunk_index : option Z) : string :=
  substring 0 16
    (MD5.hexdigest
       (PyStr.encode_utf8
          (canonical_string document_id section_path paragraph_index
             subchunk_index))).

Definition is_hex_char (c : ascii) : bool :=
  let n := PyStr.code c in
  ((48 <=? n) && (n <=? 57)) || ((97 <=? n) && (n <=? 102)).

Fixpoint all_chars (p : ascii -> bool) (s : string) : bool :=
  match s with
  | EmptyString => true
  | String c s' => p c && all_chars p s'
  end.

(** The thresholds and the overlap a configuration must have. *)
Definition config_valid (g : Globals) : Prop :=
  MIN_TOKENS g < TARGET_TOKENS g /\ TARGET_TOKENS g <= MAX_TOKENS g
  /\ 0 <= SENTENCE_OVERLAP g.

(** A header line, and a document that has none. *)
Definition is_header_line (line : string) : bool :=
  match header_match (PyStr.strip line) with
  | Some _ => true
  | None => false
  end.

Definition no_header_lines (raw_text : string) : Prop :=
  forall line, In line (PyStr.split_char PyStr.newline raw_text) ->
               is_header_line line = false.

(** The paragraphs of a document without headers: blank lines delimit
    them, and the lines of one paragraph are trimmed and joined with
    single spaces. *)
Definition is_blank (line : string) : bool :=
  negb (PyStr.truthy (PyStr.strip line)).

Fixpoint paragraph_groups (pending : list string) (lines : list string)
  : list (list string) :=
  match lines with
  | [] => match pending with [] => [] | _ => [pending] end
  | line :: lines' =>
      if is_blank line then
        match pending with
        | [] => paragraph_groups [] lines'
        | _ => pending :: paragraph_groups [] lines'
        end
      else paragraph_groups (pending ++ [PyStr.strip line])%list lines'
  end.

Definition document_paragraphs (raw_text : string) : list string :=
  map (fun group => PyStr.strip (PyStr.join " " group))
    (paragraph_groups [] (PyStr.split_char PyStr.newline raw_text)).

(** The sum of the token counts of the sentences of a window. *)
Definition token_sum_of (count_tokens : string -> Z) (window : list string)
  : Z :=
  fold_left (fun sum s => sum + count_tokens s) window 0.

(** A sequence of integers that never decreases. *)
Fixpoint nondecreasing (l : list Z) : Prop :=
  match l with
  | [] => True
  | x :: l' =>
      match l' with
      | [] => True
      | y :: _ => x <= y /\ nondecreasing l'
      end
  end.

End Spec.

(** The chunk [_emit_chunk] builds from its arguments. *)
Definition emitted (article_id : string) (section_path : list string)
    (text : string) (tokens : Z) (c_type : string) (p_idx : Z)
    (sub_idx : option Z) : Chunk :=
  {| chunk_id := Spec.derive_id article_id section_path p_idx sub_idx;
     article_id := article_id;
     text := text;
     token_count := tokens;
     chunk_type := c_type;
     section_path := section_path;
     paragraph_index := p_idx;
     subchunk_index := sub_idx |}.

(** ** Invariants of the loops *)

(** The merge buffer: [P] holds of the chunks emitted so far and [B] of
    the buffered text. *)
Definition rule_inv (P : Chunk -> Prop) (B : string -> Prop)
    (st : loop_state) : Prop :=
  Forall P (chunks st)
  /\ (forall b, buffer_text st = Some b -> B b).

(** Before the paragraph of index [n]: the indices emitted so far never
    decrease and are below [n]; a buffer carries an index below [n] that
    no emitted index exceeds. *)
Definition order_inv (n : Z) (st : loop_state) : Prop :=
  Spec.nondecreasing (map paragraph_index (chunks st))
  /\ Forall (fun y => y < n) (map paragraph_index (chunks st))
  /\ (forall b, buffer_text st = Some b ->
                buffer_idx st < n
                /\ Forall (fun y => y <= buffer_idx st)
                     (map paragraph_index (chunks st))).

(** The store of the parser is well formed: the children of an object
    come after it, the references of the stack and [current_section] are
    positions of the store, and the stack is not empty. *)
Definition store_ok (heap : list SectionObj) : Prop :=
  forall ref o,
    nth_error heap ref = Some o ->
    Forall (fun child => (ref < child < List.length heap)%nat)
      (o_subsections o).

Definition parse_ok (st : parse_state) : Prop :=
  store_ok (heap st)
  /\ Forall (fun ref => (ref < List.length (heap st))%nat) (section_stack st)
  /\ section_stack st <> []
  /\ (current_section st < List.length (heap st))%nat.

(** A line that starts with a character that is not whitespace. *)
Definition good_line (s : string) : Prop :=
  exists c r, s = String c r /\ PyStr.isspace c = false.

(** The store of a document without headers: the root alone. *)
Definition root_with (paragraphs : list string) : SectionObj :=
  {| o_title := "Root"; o_level := 0; o_path := ["Root"];
     o_content := paragraphs; o_subsections := [] |}.

Definition root_only (paragraphs pending : list string) : parse_state :=
  {| heap := [root_with paragraphs]; section_stack := [O];
     current_section := O; current_paragraph_lines := pending |}.

Definition paragraph_of (group : list string) : string :=
  PyStr.strip (PyStr.join " " group).

(** ** Test data *)

(** A text of [count] one-letter words, and the fields of a chunk that the
    scenarios compare. *)
Definition words (count : nat) : string :=
  String.concat " " (repeat "w" count).

Definition summary (c : Chunk) : string * Z * Z * option Z :=
  (chunk_type c, token_count c, paragraph_index c, subchunk_index c).

(** ** Auxiliary definitions for the further properties *)

From Stdlib Require Import DecimalZ DecimalPos.

(** The chunk of the window that starts at sentence [i] and has [k]
    sentences. *)
Definition window_chunk (self : UniversalChunker) (doc : string)
    (section : SectionT) (p_idx : Z) (sentences : list string) (i k : nat)
    (sub_idx : Z) : Chunk :=
  emitted doc (path section)
    (PyStr.join " " (firstn k (skipn i sentences)))
    (Spec.token_sum_of (tokenizer self) (firstn k (skipn i sentences)))
    "split" p_idx (Some sub_idx).

(** A text without its whitespace characters. *)
Fixpoint drop_spaces (s : string) : string :=
  match s with
  | EmptyString => EmptyString
  | String c s' =>
      if PyStr.isspace c then drop_spaces s' else String c (drop_spaces s')
  end.

(** The characters that may end a sentence. *)
Definition is_terminal (c : ascii) : bool :=
  Ascii.eqb c "." || Ascii.eqb c "?" || Ascii.eqb c "!".

(** The strings of a list one after the other. *)
Definition concat_all (l : list string) : string :=
  fold_right append EmptyString l.

(** The text of [k] consecutive paragraphs from position [j], joined by
    blank lines. *)
Definition merged_run (paragraphs : list string) (j k : nat) : string :=
  PyStr.join blank_line (firstn k (skipn j paragraphs)).

(** The three shapes of the chunks of a section: a paragraph within the
    bounds, verbatim; a run of consecutive undersized paragraphs joined by
    blank lines; a window of the sentences of an oversized paragraph. *)
Inductive section_chunk (g : Globals) (self : UniversalChunker)
    (doc : string) (section : SectionT) : Chunk -> Prop :=
| paragraph_shape (i : nat) (p : string) :
    nth_error (content section) i = Some p ->
    MIN_TOKENS g <= tokenizer self p <= MAX_TOKENS g ->
    section_chunk g self doc section
      (emitted doc (path section) p (tokenizer self p) "paragraph"
         (Z.of_nat i) None)
| merged_shape (j k : nat) :
    (1 <= k)%nat ->
    (j + k <= List.length (content section))%nat ->
    Forall (fun p => tokenizer self p < MIN_TOKENS g)
      (firstn k (skipn j (content section))) ->
    section_chunk g self doc section
      (emitted doc (path section) (merged_run (content section) j k)
         (tokenizer self (merged_run (content section) j k)) "merged"
         (Z.of_nat j) None)
| split_shape (i : nat) (p : string) (j k : nat) (sub_idx : Z) :
    nth_error (content section) i = Some p ->
    MIN_TOKENS g <= tokenizer self p ->
    MAX_TOKENS g < tokenizer self p ->
    (1 <= k)%nat ->
    (j + k <= List.length (_split_sentences p))%nat ->
    section_chunk g self doc section
      (window_chunk self doc section (Z.of_nat i) (_split_sentences p) j k
         sub_idx).

(** What becomes of the paragraph [p] at position [i] of a section, in a
    list of chunks: an undersized paragraph lies in the run of a merged
    chunk, a paragraph within the bounds is a chunk of its own, and every
    window of an oversized paragraph is there. *)
Definition covered (g : Globals) (self : UniversalChunker) (doc : string)
    (section : SectionT) (i : nat) (p : string) (out : list Chunk) : Prop :=
  (tokenizer self p < MIN_TOKENS g ->
   exists j k,
     (j <= i < j + k)%nat
     /\ In (emitted doc (path section) (merged_run (content section) j k)
              (tokenizer self (merged_run (content section) j k)) "merged"
              (Z.of_nat j) None) out)
  /\ (MIN_TOKENS g <= tokenizer self p <= MAX_TOKENS g ->
      In (emitted doc (path section) p (tokenizer self p) "paragraph"
            (Z.of_nat i) None) out)
  /\ (MAX_TOKENS g < tokenizer self p ->
      MIN_TOKENS g <= tokenizer self p ->
      forall c,
        In c (_split_long_paragraph g self [] doc section p (Z.of_nat i)) ->
        In c out).

Definition covered_upto (g : Globals) (self : UniversalChunker)
    (doc : string) (section : SectionT) (m : nat) (out : list Chunk) : Prop :=
  forall i p,
    (i < m)%nat -> nth_error (content section) i = Some p ->
    covered g self doc section i p out.

(** The invariant of the loop of [_process_section_content] before the
    paragraph at position [n]. *)
Definition trace_inv (g : Globals) (self : UniversalChunker) (doc : string)
    (section : SectionT) (n : nat) (st : loop_state) : Prop :=
  Forall (section_chunk g self doc section) (chunks st)
  /\ match buffer_text st with
     | None => covered_upto g self doc section n (chunks st)
     | Some b =>
         exists k,
           (1 <= k <= n)%nat
           /\ buffer_idx st = Z.of_nat (n - k)
           /\ b = merged_run (content section) (n - k) k
           /\ Forall (fun p => tokenizer self p < MIN_TOKENS g)
                (firstn k (skipn (n - k) (content section)))
           /\ covered_upto g self doc section (n - k) (chunks st)
     end.

(** What identifies a chunk inside its section, and the string
    [_emit_chunk] hashes into its identifier. *)
Definition identity_key (c : Chunk) : Z * option Z :=
  (paragraph_index c, subchunk_index c).

Definition raw_id (c : Chunk) : string :=
  Spec.canonical_string (article_id c) (section_path c) (paragraph_index c)
    (subchunk_index c).

(** Before the paragraph of index [n]: the keys emitted so far are all
    different and their indices are below [n]; a buffer carries an index
    below [n] that is above every emitted index. *)
Definition keys_inv (n : Z) (st : loop_state) : Prop :=
  NoDup (map identity_key (chunks st))
  /\ Forall (fun c => paragraph_index c < n) (chunks st)
  /\ (forall b, buffer_text st = Some b ->
                buffer_idx st < n
                /\ Forall (fun c => paragraph_index c < buffer_idx st)
                     (chunks st)).

Definition no_bar (c : ascii) : bool := negb (Ascii.eqb c "|").

(** The sections of a tree in pre-order: a section before its
    subsections, these in their order. *)
Fixpoint preorder (s : SectionT) : list SectionT :=
  match s with
  | mkSection _ _ _ _ subs => s :: flat_map preorder subs
  end.

(** A text without a newline character. *)
Definition no_newline (s : string) : bool :=
  Spec.all_chars (fun c => negb (Ascii.eqb c PyStr.newline)) s.

(** The start of the path of a child: the path of its parent, or the empty
    path when that is the one-element path of the title ["Root"]. *)
Definition child_base (parent_path : list string) : list string :=
  match parent_path with
  | [p] => if String.eqb p "Root" then [] else parent_path
  | _ => parent_path
  end.

(** Two objects of the store with the same title, level and path. *)
Definition same_header (o o' : SectionObj) : Prop :=
  o_title o = o_title o' /\ o_level o = o_level o' /\ o_path o = o_path o'.

(** The child [c] of the object [o] in a store: deeper than [o], at a
    level from 1 on, and with the path of [o] followed by its own title. *)
Definition obj_child_ok (heap : list SectionObj) (o : SectionObj) (c : nat)
  : Prop :=
  exists oc,
    nth_error heap c = Some oc
    /\ o_level o < o_level oc
    /\ 1 <= o_level oc
    /\ o_path oc = (child_base (o_path o) ++ [o_title oc])%list.

(** The invariant of the parser on levels and paths; the bottom of the
    stack is the root. *)
Definition nesting_ok (st : parse_state) : Prop :=
  (forall ref o,
      nth_error (heap st) ref = Some o ->
      Forall (obj_child_ok (heap st) o) (o_subsections o))
  /\ (exists root,
         nth_error (heap st) O = Some root /\ same_header root root_obj)
  /\ last (section_stack st) O = O.

(** The invariant of the parser on the text it stores: the paragraphs
    stored are not empty, trimmed and without newline; the pending lines
    have no newline. *)
Definition text_ok (st : parse_state) : Prop :=
  Forall (fun o =>
            Forall (fun p => p <> EmptyString /\ PyStr.strip p = p
                             /\ no_newline p = true)
              (o_content o))
    (heap st)
  /\ Forall (fun l => no_newline l = true) (current_paragraph_lines st).

(** ** [get_commons_url] of [media_server.py] *)

Module MediaServer.

(** [s.replace(old, new)] for one-character [old] and [new]. *)
Fixpoint replace_char (old new : ascii) (s : string) : string :=
  match s with
  | EmptyString => EmptyString
  | String c s' =>
      String (if Ascii.eqb c old then new else c) (replace_char old new s')
  end.

Definition commons_prefix : string :=
  "https://upload.wikimedia.org/wikipedia/commons/".

(** [md5_hash[0]] and [md5_hash[0:2]] are the first one and two
    characters of the digest, which has 32. *)
Definition get_commons_url (filename : string) : string :=
  let filename := replace_char " " "_" filename in
  let md5_hash := MD5.hexdigest (PyStr.encode_utf8 filename) in
  let path_a := substring 0 1 md5_hash in
  let path_ab := substring 0 2 md5_hash in
  commons_prefix ++ path_a ++ "/" ++ path_ab ++ "/" ++ filename.

End MediaServer.

(** ** [_extract_abstract] of [shredder.py] *)

Module Shredder.

(** [line.startswith('#')]. *)
Definition startswith_hash (line : string) : bool :=
  match line with
  | String c _ => Ascii.eqb c "#"
  | EmptyString => false
  end.

(** The loop: the lines before the first that starts with [#]. *)
Fixpoint lines_before_header (lines : list string) : list string :=
  match lines with
  | [] => []
  | line :: lines' =>
      if startswith_hash line then [] else line :: lines_before_header lines'
  end.

(** A slice [s[:n]] is [substring 0 n s]. *)
Definition _extract_abstract (markdown_text : string) : string :=
  let lines := PyStr.split_char PyStr.newline markdown_text in
  let abstract_lines := lines_before_header lines in
  let abstract :=
    PyStr.strip
      (PyStr.join (String PyStr.newline EmptyString) abstract_lines) in
  if negb (PyStr.truthy abstract) then substring 0 1000 markdown_text
  else substring 0 2000 abstract.

End Shredder.

(** ** The directory name of [save_article] in [file_storage.py]

    [save_article] writes four files into a directory named after the
    title.  The name is computed before any file is touched; [fresh] is
    the value of [uuid.uuid4().hex[:8]], which the method reads when the
    cleaned title is empty. *)

Module FileStorage.

(** [str.isalnum] on one character. *)
Definition isalnum (c : ascii) : bool :=
  let n := PyStr.code c in
  ((48 <=? n) && (n <=? 57)) || ((65 <=? n) && (n <=? 90))
  || ((97 <=? n) && (n <=? 122))
  || (n =? 170) || (n =? 178) || (n =? 179) || (n =? 181) || (n =? 185)
  || (n =? 186) || ((188 <=? n) && (n <=? 190))
  || ((192 <=? n) && (n <=? 214)) || ((216 <=? n) && (n <=? 246))
  || ((248 <=? n) && (n <=? 255)).

Definition kept (c : ascii) : bool :=
  isalnum c || Ascii.eqb c " " || Ascii.eqb c "-" || Ascii.eqb c "_".

(** ["".join([c for c in title if ...])]. *)
Fixpoint keep_chars (p : ascii -> bool) (s : string) : string :=
  match s with
  | EmptyString => EmptyString
  | String c s' => if p c then String c (keep_chars p s') else keep_chars p s'
  end.

Definition safe_title (fresh : string) (title' : string) : string :=
  let cleaned :=
    MediaServer.replace_char " " "_" (PyStr.strip (keep_chars kept title')) in
  if negb (PyStr.truthy cleaned) then "untitled_" ++ fresh else cleaned.

(** The characters of a directory name. *)
Definition name_char (c : ascii) : bool :=
  isalnum c || Ascii.eqb c "-" || Ascii.eqb c "_".

End FileStorage.

(** ** The order of the sections in the store *)

(** The children of an object of the store. *)
Definition subs_of (heap : list SectionObj) (ref : nat) : list nat :=
  match nth_error heap ref with
  | Some o => o_subsections o
  | None => []
  end.

(** The references [reify] visits from [ref], in pre-order. *)
Fixpoint walk (fuel : nat) (heap : list SectionObj) (ref : nat) : list nat :=
  ref :: match fuel with
         | O => []
         | S fuel' => flat_map (walk fuel' heap) (subs_of heap ref)
         end.

(** [e ref] is the first reference after the subtree of [ref]: the
    subtrees of the children [subs] follow one another from [start] to
    [stop]. *)
Fixpoint chain (e : nat -> nat) (start : nat) (subs : list nat) (stop : nat)
  : Prop :=
  match subs with
  | [] => start = stop
  | c :: subs' => c = start /\ chain e (e c) subs' stop
  end.

(** A stack whose references decrease from the top down. *)
Fixpoint decreasing (stack : list nat) : Prop :=
  match stack with
  | [] => True
  | top :: below => Forall (fun ref => (ref < top)%nat) below /\ decreasing below
  end.

(** Each reference of the stack is the last child of the one below it. *)
Fixpoint linked (heap : list SectionObj) (stack : list nat) : Prop :=
  match stack with
  | top :: below =>
      match below with
      | [] => True
      | parent :: _ =>
          (exists init, subs_of heap parent = (init ++ [top])%list)
          /\ linked heap below
      end
  | [] => True
  end.

(** The invariant of the parser on the order of the store: the subtree of
    an object is the objects from it up to [e], the subtrees of the stack
    reach the end of the store, and the stack is a path of last children
    from the root. *)
Definition order_ok (st : parse_state) (e : nat -> nat) : Prop :=
  (forall ref,
      (ref < List.length (heap st))%nat ->
      chain e (S ref) (subs_of (heap st) ref) (e ref))
  /\ decreasing (section_stack st)
  /\ Forall (fun ref => e ref = List.length (heap st)) (section_stack st)
  /\ linked (heap st) (section_stack st)
  /\ (forall ref c,
         In c (subs_of (heap st) ref) -> In c (section_stack st) ->
         In ref (section_stack st))
  /\ (forall ref c,
         In c (subs_of (heap st) ref) ->
         (ref < c < List.length (heap st))%nat).

(** The level, the title and the paragraphs of a section and of an object
    of the store. *)
Definition sec_triple (s : SectionT) : Z * string * list string :=
  (level s, title s, content s).

Definition obj_triple (o : SectionObj) : Z * string * list string :=
  (o_level o, o_title o, o_content o).

Definition obj_triple_at (heap : list SectionObj) (ref : nat)
  : Z * string * list string :=
  match nth_error heap ref with
  | Some o => obj_triple o
  | None => (0, EmptyString, [])
  end.


(** The document read as a flat sequence of blocks, one for the text
    before the first header line and one for each header line: the level
    and the title of the header (0 and ["Root"] for the first block) and
    the paragraphs up to the next header line.  [end_paragraph] closes the
    paragraph made of the [pending] lines, which it adds to the block
    unless it is empty. *)
Definition end_paragraph (block : Z * string * list string)
    (pending : list string) : Z * string * list string :=
  match pending with
  | [] => block
  | _ :: _ =>
      let p_text := PyStr.strip (PyStr.join " " pending) in
      if PyStr.truthy p_text
      then (fst (fst block), snd (fst block), (snd block ++ [p_text])%list)
      else block
  end.

Fixpoint blocks_from (lines : list string) (pending : list string)
    (block : Z * string * list string) : list (Z * string * list string) :=
  match lines with
  | [] => [end_paragraph block pending]
  | line :: lines' =>
      let line_stripped := PyStr.strip line in
      if negb (PyStr.truthy line_stripped)
      then blocks_from lines' [] (end_paragraph block pending)
      else
        match header_match line_stripped with
        | Some (lvl, group2) =>
            end_paragraph block pending
            :: blocks_from lines' [] (lvl, PyStr.strip group2, [])
        | None =>
            blocks_from lines' (pending ++ [line_stripped])%list block
        end
  end.

Definition header_blocks (markdown : string)
  : list (Z * string * list string) :=
  blocks_from (PyStr.split_char PyStr.newline markdown) []
    (0, "Root"%string, []).
(** * Theorems *)

(** ** The digest and the identifier *)

(** Known digests: the empty message, ["abc"], and a message of 70 bytes,
    which needs two blocks. *)
Example md5_empty :
  MD5.hexdigest (PyStr.encode_utf8 EmptyString) = "d41d8cd98f00b204e9800998ecf8427e".
Proof. vm_compute. reflexivity. Qed.

Example md5_abc :
  MD5.hexdigest (PyStr.encode_utf8 "abc") = "900150983cd24fb0d6963f7d28e17f72".
Proof. vm_compute. reflexivity. Qed.

Example md5_latin1 :
  MD5.hexdigest (PyStr.encode_utf8 ("caf" ++ String "233" EmptyString))
  = "07117fe4a1ebd544965dc19573183da2".
Proof. vm_compute. reflexivity. Qed.

Example md5_two_blocks :
  MD5.hexdigest (repeat 97 70) = "0f5c6c4e740bfcc08c3c26ccb2673d46".
Proof. vm_compute. reflexivity. Qed.

Lemma _emit_chunk_eq chunks_list article_id section_path text tokens c_type
    p_idx sub_idx :
  _emit_chunk chunks_list article_id section_path text tokens c_type p_idx
    sub_idx
  = (chunks_list
     ++ [emitted article_id section_path text tokens c_type p_idx sub_idx])%list.
Proof. destruct sub_idx; reflexivity. Qed.

(** Induction on a section tree, with the property of every child. *)
Lemma SectionT_ind' (P : SectionT -> Prop) :
  (forall t l p c subs, Forall P subs -> P (mkSection t l p c subs)) ->
  forall s, P s.
Proof.
  intros step. fix IH 1. intros [t l p c subs]. apply step.
  induction subs as [|s subs IHsubs]; constructor; [apply IH | exact IHsubs].
Qed.

Lemma append_cancel_l (a b c : string) : a ++ b = a ++ c -> b = c.
Proof.
  induction a as [|x a IH]; cbn; intros E; [exact E|].
  injection E as E. auto.
Qed.

Lemma str_of_int_nonempty (n : Z) : PyStr.str_of_int n <> EmptyString.
Proof.
  unfold PyStr.str_of_int.
  destruct (Z.to_int n) as [d|d]; destruct d; cbn; discriminate.
Qed.

Lemma length_le_bytes (count : nat) (x : Z) :
  List.length (MD5.le_bytes count x) = count.
Proof. unfold MD5.le_bytes. now rewrite length_map, length_seq. Qed.

Lemma le_bytes_range (count : nat) (x : Z) :
  Forall (fun b => 0 <= b < 256) (MD5.le_bytes count x).
Proof.
  unfold MD5.le_bytes. apply Forall_map, Forall_forall. intros k _.
  change 255 with (Z.ones 8). rewrite Z.land_ones by lia.
  apply Z.mod_pos_bound. reflexivity.
Qed.

Lemma length_digest (msg : list Z) : List.length (MD5.digest msg) = 16%nat.
Proof.
  unfold MD5.digest. cbv zeta.
  rewrite !length_app, !length_le_bytes. reflexivity.
Qed.

Lemma digest_range (msg : list Z) :
  Forall (fun b => 0 <= b < 256) (MD5.digest msg).
Proof.
  unfold MD5.digest. cbv zeta.
  repeat (apply Forall_app; split); apply le_bytes_range.
Qed.

Lemma length_hex (bytes : list Z) :
  String.length (MD5.hex bytes) = (2 * List.length bytes)%nat.
Proof. induction bytes as [|b bs IH]; cbn; [reflexivity | rewrite IH; lia]. Qed.

Lemma hex_digit_is_hex (n : Z) :
  0 <= n < 16 -> Spec.is_hex_char (MD5.hex_digit n) = true.
Proof.
  intros H.
  assert (A : forallb (fun k => Spec.is_hex_char (MD5.hex_digit (Z.of_nat k)))
                (seq 0 16) = true) by (vm_compute; reflexivity).
  rewrite forallb_forall in A. specialize (A (Z.to_nat n)).
  rewrite Z2Nat.id in A by lia. apply A, in_seq. lia.
Qed.

Lemma hex_all_hex (bytes : list Z) :
  Forall (fun b => 0 <= b < 256) bytes ->
  Spec.all_chars Spec.is_hex_char (MD5.hex bytes) = true.
Proof.
  induction 1 as [|b bs Hb _ IH]; cbn; [reflexivity|].
  rewrite IH, !hex_digit_is_hex; [reflexivity | |].
  - apply Z.mod_pos_bound. reflexivity.
  - split; [apply Z.div_pos; lia | apply Z.div_lt_upper_bound; lia].
Qed.

Lemma length_prefix (n : nat) (s : string) :
  (n <= String.length s)%nat -> String.length (substring 0 n s) = n.
Proof.
  revert s; induction n as [|n IH]; intros s H.
  - destruct s; reflexivity.
  - destruct s as [|c s]; cbn in *; [lia|]. rewrite IH; [reflexivity | lia].
Qed.

Lemma all_chars_prefix (p : ascii -> bool) (n : nat) (s : string) :
  Spec.all_chars p s = true -> Spec.all_chars p (substring 0 n s) = true.
Proof.
  revert s; induction n as [|n IH]; intros s H.
  - destruct s; reflexivity.
  - destruct s as [|c s]; cbn in *; [reflexivity|].
    apply andb_true_iff in H as [Hc Hs]. now rewrite Hc, IH.
Qed.

(** ** Loading the module *)

(** Without its last statement the class body executes, and the module
    binds [UniversalChunker]. *)
Example class_body_without_rebinding :
  exists globals,
    Loading.exec_module Loading.module_start
      (removelast Loading.chunker_py
       ++ [Loading.Class [] "UniversalChunker"
             (removelast Loading.UniversalChunker_body)])%list
    = Returned globals
    /\ Loading.bound [globals] "UniversalChunker" = true.
Proof. eexists. split; [vm_compute; reflexivity | reflexivity]. Qed.

(** C3: executing the class statement of [UniversalChunker] raises
    [NameError] for [_process_section_content_fixed], which neither the
    class body, nor the module, nor the builtins bind; so importing the
    module raises it, the module never binds [UniversalChunker], and a
    client's call of [chunk_article], of the parser or of the sentence
    splitter raises it on every input. *)
Theorem class_definition_raises_NameError :
  Loading.bound
    [map (fun s => hd EmptyString (Loading.binds_of s)) Loading.UniversalChunker_body;
     Loading.builtins]
    "_process_section_content_fixed" = false
  /\ (exists globals,
         Loading.exec_module Loading.module_start
           (removelast Loading.chunker_py) = Returned globals
         /\ Loading.bound [globals] "_process_section_content_fixed" = false
         /\ Loading.exec_top globals Loading.class_UniversalChunker
            = Raised "NameError" "_process_section_content_fixed")
  /\ Loading.import_chunker
     = Raised "NameError" "_process_section_content_fixed"
  /\ (forall tokenizer_func article_id markdown_content,
         Loading.client_chunk_article tokenizer_func article_id
           markdown_content
         = Raised "NameError" "_process_section_content_fixed")
  /\ (forall markdown_content,
         Loading.client_parse markdown_content
         = Raised "NameError" "_process_section_content_fixed")
  /\ (forall text,
         Loading.client_split_sentences text
         = Raised "NameError" "_process_section_content_fixed").
Proof.
  assert (I : Loading.import_chunker
              = Raised "NameError" "_process_section_content_fixed")
    by (vm_compute; reflexivity).
  split; [vm_compute; reflexivity|].
  split.
  { eexists. split; [vm_compute; reflexivity|].
    split; vm_compute; reflexivity. }
  split; [exact I|].
  unfold Loading.client_chunk_article, Loading.client_parse,
    Loading.client_split_sentences.
  rewrite I. repeat split.
Qed.

(** ** Construction *)

(** A section that holds one paragraph is chunked by comparing the token
    count of the paragraph with the two thresholds as [g] holds them,
    whatever they are. *)
Lemma single_paragraph_by_thresholds (g : Globals) (self : UniversalChunker)
    (doc : string) (section : SectionT) (p : string) :
  content section = [p] ->
  _process_section_content g self doc section
  = if tokenizer self p <? MIN_TOKENS g
    then [emitted doc (path section) p (tokenizer self p) "merged" 0 None]
    else if tokenizer self p <=? MAX_TOKENS g
         then [emitted doc (path section) p (tokenizer self p) "paragraph" 0
                 None]
         else _split_long_paragraph g self [] doc section p 0.
Proof.
  intros E. unfold _process_section_content. rewrite E.
  cbn [enumerate_from fold_left]. unfold process_paragraph, initial_state.
  cbn [buffer_text chunks buffer_idx].
  destruct (tokenizer self p <? MIN_TOKENS g).
  - unfold final_flush. cbn [buffer_text chunks buffer_idx].
    now rewrite _emit_chunk_eq.
  - destruct (tokenizer self p <=? MAX_TOKENS g);
      unfold final_flush; cbn [buffer_text chunks buffer_idx].
    + now rewrite _emit_chunk_eq.
    + reflexivity.
Qed.

(** C8, as the code has it: nothing validates the thresholds, at
    construction or later.  The body of [__init__] takes the tokenizer
    argument only and keeps it when it is true, the whitespace tokenizer
    otherwise; it reads no threshold.  The thresholds are the constants
    of the module, which satisfy the constraint; the methods read them
    when they run and use the values they hold, unchanged: a section of
    one paragraph is chunked by the comparisons with [MIN_TOKENS] and
    [MAX_TOKENS] as they are, and a negative [SENTENCE_OVERLAP] is the
    overlap of every window. *)
Theorem init_never_validates :
  forall (g : Globals) (tokenizer_func : option Callable),
    let self := __init__ tokenizer_func in
    (forall f, tokenizer_func = Some f -> truth f = true ->
               tokenizer self = call f)
    /\ (forall f, tokenizer_func = Some f -> truth f = false ->
                  tokenizer self = _simple_tokenize)
    /\ (tokenizer_func = None -> tokenizer self = _simple_tokenize)
    /\ Spec.config_valid module_globals
    /\ (forall doc section p,
           content section = [p] ->
           _process_section_content g self doc section
           = if tokenizer self p <? MIN_TOKENS g
             then [emitted doc (path section) p (tokenizer self p) "merged"
                     0 None]
             else if tokenizer self p <=? MAX_TOKENS g
                  then [emitted doc (path section) p (tokenizer self p)
                          "paragraph" 0 None]
                  else _split_long_paragraph g self [] doc section p 0)
    /\ (SENTENCE_OVERLAP g < 0 ->
        forall window, overlap_of g window = SENTENCE_OVERLAP g).
Proof.
  intros g tokenizer_func self.
  split; [intros f -> Ht; cbn; now rewrite Ht|].
  split; [intros f -> Ht; cbn; now rewrite Ht|].
  split; [intros ->; reflexivity|].
  split; [unfold Spec.config_valid; cbn; lia|].
  split; [intros doc section p E; now apply single_paragraph_by_thresholds|].
  intros Hneg window. unfold overlap_of, PyStr.len.
  destruct (Z.geb_spec (SENTENCE_OVERLAP g) (Z.of_nat (List.length window)));
    [lia | reflexivity].
Qed.

Lemma init_never_validates_witness :
  let g := {| MIN_TOKENS := 1; TARGET_TOKENS := 2; MAX_TOKENS := 3;
              SENTENCE_OVERLAP := -1 |} in
  SENTENCE_OVERLAP g < 0
  /\ overlap_of g ["Aa bb."; "Cc dd."] = -1.
Proof.
  cbv zeta.
  assert (H : SENTENCE_OVERLAP
                {| MIN_TOKENS := 1; TARGET_TOKENS := 2; MAX_TOKENS := 3;
                   SENTENCE_OVERLAP := -1 |} < 0) by (cbn; lia).
  split; [exact H|].
  exact (proj2 (proj2 (proj2 (proj2 (proj2
           (init_never_validates _ None))))) H ["Aa bb."; "Cc dd."]).
Defined.

(** C8 fails as stated, on two configurations that violate the
    constraint: the body of [__init__] raises nothing, and the methods
    chunk with the values as they are.  With MIN above TARGET above MAX a
    paragraph of 100 tokens comes out as a [merged] chunk of 100 tokens,
    above the MAX of 80.  With an overlap of -1 the cursor moves forward
    by one more sentence after each window, so the second and the fourth
    sentence of the paragraph are in no chunk. *)
Lemma init_accepts_invalid_configuration :
  let g1 := {| MIN_TOKENS := 300; TARGET_TOKENS := 220; MAX_TOKENS := 80;
               SENTENCE_OVERLAP := 1 |} in
  let g2 := {| MIN_TOKENS := 1; TARGET_TOKENS := 2; MAX_TOKENS := 3;
               SENTENCE_OVERLAP := -1 |} in
  let self := __init__ None in
  ~ Spec.config_valid g1
  /\ map summary (chunk_article g1 self "doc" (words 100))
     = [("merged", 100, 0, None)]
  /\ ~ Spec.config_valid g2
  /\ _split_sentences "Aa bb. Cc dd. Ee ff. Gg hh."
     = ["Aa bb."; "Cc dd."; "Ee ff."; "Gg hh."]
  /\ map (fun c => (text c, summary c))
       (chunk_article g2 self "doc" "Aa bb. Cc dd. Ee ff. Gg hh.")
     = [("Aa bb.", ("split", 2, 0, Some 0));
        ("Ee ff.", ("split", 2, 0, Some 1))].
Proof.
  cbv zeta. split; [|split; [|split; [|split]]].
  - unfold Spec.config_valid. cbn. lia.
  - vm_compute. reflexivity.
  - unfold Spec.config_valid. cbn. lia.
  - vm_compute. reflexivity.
  - vm_compute. reflexivity.
Qed.

(** ** The sentence-window split *)

Section SplitFacts.

Variable g : Globals.
Variable self : UniversalChunker.

(** A window is a run of the remaining sentences, at least one when some
    remain, with the sum of their token counts. *)
Lemma build_window_spec (rest : list string) :
  forall window token_sum i,
  exists k,
    (k <= List.length rest)%nat
    /\ (rest <> [] -> (1 <= k)%nat)
    /\ build_window g self rest window token_sum i
       = ((window ++ firstn k rest)%list,
          fold_left (fun sum s => sum + tokenizer self s) (firstn k rest)
            token_sum,
          (i + k)%nat).
Proof.
  induction rest as [|s rest IH]; intros window token_sum i.
  - exists 0%nat. cbn. rewrite app_nil_r, Nat.add_0_r.
    repeat split; [lia | congruence].
  - cbn. destruct (token_sum + tokenizer self s >=? TARGET_TOKENS g).
    + exists 1%nat. cbn. rewrite Nat.add_1_r.
      repeat split; lia.
    + destruct (IH (window ++ [s])%list (token_sum + tokenizer self s) (S i))
        as (k & Hk & _ & E).
      exists (S k). rewrite E. cbn. rewrite <- app_assoc. cbn.
      replace (S (i + k)) with (i + S k)%nat by lia.
      repeat split; lia.
Qed.

Lemma window_at_spec (sentences : list string) (i : nat) :
  (i < List.length sentences)%nat ->
  exists k,
    (1 <= k <= List.length sentences - i)%nat
    /\ window_at g self sentences i
       = (firstn k (skipn i sentences),
          Spec.token_sum_of (tokenizer self) (firstn k (skipn i sentences)),
          (i + k)%nat).
Proof.
  intros Hi. unfold window_at.
  destruct (build_window_spec (skipn i sentences) [] 0 i) as (k & Hk & H1 & E).
  exists k. rewrite length_skipn in Hk. split; [split; [|exact Hk] | exact E].
  apply H1. intro N. apply (f_equal (@List.length _)) in N.
  rewrite length_skipn in N. cbn in N. lia.
Qed.

Lemma length_firstn_le {A : Type} (k : nat) (l : list A) :
  (k <= List.length l)%nat -> List.length (firstn k l) = k.
Proof. intros H. rewrite length_firstn. lia. Qed.

(** The overlap after the safety test is below the size of the window. *)
Lemma overlap_of_below (window : list string) :
  window <> [] -> overlap_of g window <= PyStr.len window - 1.
Proof.
  intros Hw. unfold overlap_of, PyStr.len.
  assert (0 < List.length window)%nat by (destruct window; cbn; [congruence | lia]).
  destruct (SENTENCE_OVERLAP g >=? _) eqn:C; lia.
Qed.

Lemma overlap_of_nonneg (window : list string) :
  0 <= SENTENCE_OVERLAP g -> 0 <= overlap_of g window.
Proof.
  intros H. unfold overlap_of. destruct (SENTENCE_OVERLAP g >=? _); lia.
Qed.

Lemma overlap_of_le_constant (window : list string) :
  0 <= SENTENCE_OVERLAP g -> overlap_of g window <= SENTENCE_OVERLAP g.
Proof.
  intros H. unfold overlap_of, PyStr.len.
  destruct (SENTENCE_OVERLAP g >=? _) eqn:C; lia.
Qed.

(** Each turn of the outer loop moves the cursor forward; the subtraction
    [i - overlap_count] never goes below zero. *)
Lemma next_cursor_spec (sentences : list string) (i : nat) :
  (i < List.length sentences)%nat ->
  exists k window,
    (1 <= k <= List.length sentences - i)%nat
    /\ window = firstn k (skipn i sentences)
    /\ List.length window = k
    /\ window_at g self sentences i
       = (window, Spec.token_sum_of (tokenizer self) window, (i + k)%nat)
    /\ next_cursor g self sentences i
       = backtrack g sentences window (i + k)
    /\ Z.of_nat (next_cursor g self sentences i)
       = (if (i + k <? List.length sentences)%nat
          then Z.of_nat (i + k) - overlap_of g window
          else Z.of_nat (i + k))
    /\ (i < next_cursor g self sentences i)%nat.
Proof.
  intros Hi. destruct (window_at_spec sentences i Hi) as (k & Hk & E).
  exists k, (firstn k (skipn i sentences)).
  assert (L : List.length (firstn k (skipn i sentences)) = k)
    by (apply length_firstn_le; rewrite length_skipn; lia).
  assert (Hne : firstn k (skipn i sentences) <> [])
    by (intro N; rewrite N in L; cbn in L; lia).
  pose proof (overlap_of_below _ Hne) as Hov. unfold PyStr.len in Hov.
  rewrite L in Hov.
  unfold next_cursor. rewrite E. unfold backtrack, PyStr.len.
  repeat split; try lia; try reflexivity.
  - destruct (Z.ltb_spec (Z.of_nat (i + k)) (Z.of_nat (List.length sentences)));
      destruct (Nat.ltb_spec (i + k) (List.length sentences)); lia.
  - destruct (Z.ltb_spec (Z.of_nat (i + k)) (Z.of_nat (List.length sentences)));
      lia.
Qed.

Lemma next_cursor_progress (sentences : list string) (i : nat) :
  (i < List.length sentences)%nat -> (i < next_cursor g self sentences i)%nat.
Proof.
  intros Hi. destruct (next_cursor_spec sentences i Hi)
    as (k & w & _ & _ & _ & _ & _ & _ & P). exact P.
Qed.

(** Unfolding the outer loop. *)
Lemma split_loop_done chunks_list article_id section paragraph_index
    sentences i sub_idx :
  (List.length sentences <= i)%nat ->
  split_loop g self chunks_list article_id section paragraph_index sentences
    i sub_idx = chunks_list.
Proof.
  intros H. rewrite split_loop_equation_1.
  destruct (lt_dec i (List.length sentences)); [lia | reflexivity].
Qed.

Lemma split_loop_step chunks_list article_id section paragraph_index
    sentences i sub_idx :
  (i < List.length sentences)%nat ->
  split_loop g self chunks_list article_id section paragraph_index sentences
    i sub_idx
  = split_loop g self
      (chunks_list
       ++ [emitted article_id (path section)
             (PyStr.join " " (fst (fst (window_at g self sentences i))))
             (snd (fst (window_at g self sentences i))) "split"
             paragraph_index (Some sub_idx)])%list
      article_id section paragraph_index sentences
      (next_cursor g self sentences i) (sub_idx + 1).
Proof.
  intros H. rewrite split_loop_equation_1.
  destruct (lt_dec i (List.length sentences)); [reflexivity | lia].
Qed.

(** The loop appends to the list it is given: one chunk per window, each
    satisfying whatever the chunk of every window satisfies, and no more
    windows than sentences remain. *)
Lemma split_loop_emits (Q : Chunk -> Prop) article_id section
    paragraph_index sentences :
  (forall i sub_idx,
      (i < List.length sentences)%nat ->
      Q (emitted article_id (path section)
           (PyStr.join " " (fst (fst (window_at g self sentences i))))
           (snd (fst (window_at g self sentences i))) "split"
           paragraph_index (Some sub_idx))) ->
  forall n i chunks_list sub_idx,
    (List.length sentences - i <= n)%nat ->
    exists windows,
      split_loop g self chunks_list article_id section paragraph_index
        sentences i sub_idx = (chunks_list ++ windows)%list
      /\ Forall Q windows
      /\ (List.length windows <= List.length sentences - i)%nat.
Proof.
  intros HQ. induction n as [|n IH]; intros i chunks_list sub_idx Hn.
  - exists []. rewrite split_loop_done by lia. rewrite app_nil_r.
    repeat split; [constructor | cbn; lia].
  - destruct (lt_dec i (List.length sentences)) as [Hi|Hi].
    + rewrite split_loop_step by exact Hi.
      pose proof (next_cursor_progress sentences i Hi) as P.
      match goal with
      | |- context [split_loop _ _ ?c _ _ _ _ ?j ?s] =>
          destruct (IH j c s) as (ws & E & F & L); [lia | rewrite E]
      end.
      eexists (_ :: ws). rewrite <- app_assoc. cbn.
      repeat split; [constructor; [apply HQ; exact Hi | exact F] | cbn; lia].
    + exists []. rewrite split_loop_done by lia. rewrite app_nil_r.
      repeat split; [constructor | cbn; lia].
Qed.

End SplitFacts.

(** C5: with a sentence overlap that is not negative, a turn of the outer
    loop from a cursor inside the sentence sequence takes a window of at
    least one sentence; the overlap used is between 0 and the size of the
    window minus one, and at most [SENTENCE_OVERLAP]; the cursor is moved
    back by it only when sentences remain after the window, and lands
    strictly after the cursor the turn started from, so the loop ends:
    it adds at most one window per remaining sentence, and none once the
    cursor has reached the end. *)
Theorem split_loop_terminates :
  forall (g : Globals) (self : UniversalChunker) (sentences : list string)
         (i : nat),
    0 <= SENTENCE_OVERLAP g ->
    (i < List.length sentences)%nat ->
    (exists window token_sum,
        window_at g self sentences i
        = (window, token_sum, (i + List.length window)%nat)
        /\ (1 <= List.length window)%nat
        /\ (i + List.length window <= List.length sentences)%nat
        /\ 0 <= overlap_of g window <= PyStr.len window - 1
        /\ overlap_of g window <= SENTENCE_OVERLAP g
        /\ Z.of_nat (next_cursor g self sentences i)
           = (if (i + List.length window <? List.length sentences)%nat
              then Z.of_nat (i + List.length window) - overlap_of g window
              else Z.of_nat (i + List.length window))
        /\ (i < next_cursor g self sentences i <= List.length sentences)%nat)
    /\ (forall chunks_list article_id section paragraph_index j sub_idx,
           (List.length sentences <= j)%nat ->
           split_loop g self chunks_list article_id section paragraph_index
             sentences j sub_idx = chunks_list)
    /\ (forall chunks_list article_id section paragraph_index j sub_idx,
           exists windows,
             split_loop g self chunks_list article_id section paragraph_index
               sentences j sub_idx = (chunks_list ++ windows)%list
             /\ (List.length windows <= List.length sentences - j)%nat).
Proof.
  intros g self sentences i Hov Hi. split; [|split].
  - destruct (next_cursor_spec g self sentences i Hi)
      as (k & window & Hk & Ew & L & E & _ & C & P).
    exists window, (Spec.token_sum_of (tokenizer self) window).
    assert (Hne : window <> []) by (intro N; rewrite N in L; cbn in L; lia).
    pose proof (overlap_of_below g window Hne) as B.
    pose proof (overlap_of_nonneg g window Hov) as N.
    pose proof (overlap_of_le_constant g window Hov) as M.
    rewrite L. repeat split; try assumption; try lia.
    destruct (Nat.ltb_spec (i + k) (List.length sentences)); lia.
  - intros. now apply split_loop_done.
  - intros chunks_list article_id section paragraph_index j sub_idx.
    destruct (split_loop_emits g self (fun _ => True) article_id section
                paragraph_index sentences (fun _ _ _ => I)
                (List.length sentences - j)%nat j chunks_list sub_idx
                (Nat.le_refl _))
      as (ws & E & _ & L).
    exists ws. split; assumption.
Qed.

Lemma split_loop_terminates_witness :
  let sentences := ["One."; "Two."; "Three."] in
  let self := {| tokenizer := _simple_tokenize |} in
  0 <= SENTENCE_OVERLAP module_globals
  /\ (0 < List.length sentences)%nat
  /\ (0 < next_cursor module_globals self sentences 0
      <= List.length sentences)%nat.
Proof.
  cbv zeta.
  assert (H0 : 0 <= SENTENCE_OVERLAP module_globals) by (cbn; lia).
  assert (H1 : (0 < List.length ["One."; "Two."; "Three."])%nat) by (cbn; lia).
  split; [exact H0 | split; [exact H1|]].
  destruct (split_loop_terminates module_globals
              {| tokenizer := _simple_tokenize |}
              ["One."; "Two."; "Three."] 0%nat H0 H1)
    as ((window & token_sum & _ & _ & _ & _ & _ & _ & P) & _).
  exact P.
Defined.

(** ** The merge buffer *)

Section SectionFacts.

Variable g : Globals.
Variable self : UniversalChunker.
Variable article_id : string.
Variable section : SectionT.

Lemma _split_long_paragraph_emits (Q : Chunk -> Prop) chunks_list text
    paragraph_index :
  (forall i sub_idx,
      (i < List.length (_split_sentences text))%nat ->
      Q (emitted article_id (path section)
           (PyStr.join " "
              (fst (fst (window_at g self (_split_sentences text) i))))
           (snd (fst (window_at g self (_split_sentences text) i))) "split"
           paragraph_index (Some sub_idx))) ->
  exists windows,
    _split_long_paragraph g self chunks_list article_id section text
      paragraph_index = (chunks_list ++ windows)%list
    /\ Forall Q windows
    /\ (List.length windows <= List.length (_split_sentences text))%nat.
Proof.
  intros HQ. unfold _split_long_paragraph. cbv zeta.
  destruct (_split_sentences text) as [|s sentences] eqn:E.
  - exists []. rewrite app_nil_r. repeat split; [constructor | cbn; lia].
  - destruct (split_loop_emits g self Q article_id section paragraph_index
                (s :: sentences) HQ (List.length (s :: sentences)) 0%nat
                chunks_list 0) as (ws & Ews & F & L); [lia|].
    exists ws. repeat split; [exact Ews | exact F | lia].
Qed.

(** A rule for properties of every chunk of a section: [P] holds of each
    chunk emitted as soon as it holds of the chunk of each of the three
    kinds, [B] being a property the buffered text keeps. *)
Section Rule.

Variable P : Chunk -> Prop.
Variable B : string -> Prop.
Variable items : list (Z * string).

Hypothesis B_start :
  forall i p, In (i, p) items -> tokenizer self p < MIN_TOKENS g -> B p.

Hypothesis B_merge :
  forall b i p,
    In (i, p) items -> B b -> tokenizer self p < MIN_TOKENS g ->
    tokenizer self (b ++ blank_line ++ p) <= MAX_TOKENS g ->
    B (b ++ blank_line ++ p).

Hypothesis P_merged :
  forall b idx,
    B b ->
    P (emitted article_id (path section) b (tokenizer self b) "merged" idx
         None).

Hypothesis P_paragraph :
  forall i p,
    In (i, p) items ->
    MIN_TOKENS g <= tokenizer self p <= MAX_TOKENS g ->
    P (emitted article_id (path section) p (tokenizer self p) "paragraph" i
         None).

Hypothesis P_split :
  forall i p j sub_idx,
    In (i, p) items ->
    MAX_TOKENS g < tokenizer self p ->
    (j < List.length (_split_sentences p))%nat ->
    P (emitted article_id (path section)
         (PyStr.join " "
            (fst (fst (window_at g self (_split_sentences p) j))))
         (snd (fst (window_at g self (_split_sentences p) j))) "split" i
         (Some sub_idx)).

Lemma process_paragraph_rule st ip :
  In ip items -> rule_inv P B st ->
  rule_inv P B (process_paragraph g self article_id section st ip).
Proof.
  intros Hin [HP HB]. destruct ip as [i p]. unfold process_paragraph.
  destruct (Z.ltb_spec (tokenizer self p) (MIN_TOKENS g)) as [Hsmall|Hbig].
  - destruct (buffer_text st) as [b|] eqn:Eb.
    + destruct (Z.leb_spec (tokenizer self (b ++ blank_line ++ p))
                  (MAX_TOKENS g)) as [Hfit|Hover].
      * split; cbn; [exact HP|]. intros b' Eb'. injection Eb' as <-.
        eapply B_merge; eauto.
      * split; cbn.
        -- rewrite _emit_chunk_eq. apply Forall_app. split; [exact HP|].
           constructor; [|constructor]. apply P_merged. auto.
        -- intros b' Eb'. injection Eb' as <-. eapply B_start; eauto.
    + split; cbn; [exact HP|]. intros b' Eb'. injection Eb' as <-.
      eapply B_start; eauto.
  - set (st1 := match buffer_text st with
                | Some buffered => _
                | None => st
                end).
    assert (I1 : Forall P (chunks st1) /\ buffer_text st1 = None).
    { subst st1. destruct (buffer_text st) as [b|] eqn:Eb; cbn.
      - split; [|reflexivity]. rewrite _emit_chunk_eq. apply Forall_app.
        split; [exact HP|]. constructor; [|constructor]. apply P_merged. auto.
      - split; [exact HP | exact Eb]. }
    destruct I1 as [HP1 HB1].
    destruct (Z.leb_spec (tokenizer self p) (MAX_TOKENS g)) as [Hfit|Hover].
    + split; cbn.
      * rewrite _emit_chunk_eq. apply Forall_app. split; [exact HP1|].
        constructor; [|constructor]. apply P_paragraph; [exact Hin | lia].
      * rewrite HB1. discriminate.
    + split; cbn.
      * destruct (_split_long_paragraph_emits P (chunks st1) p i)
          as (ws & E & F & _).
        { intros j sub_idx Hj. eapply P_split; eauto. }
        rewrite E. apply Forall_app. split; assumption.
      * rewrite HB1. discriminate.
Qed.

Lemma fold_process_paragraph_rule (l : list (Z * string)) :
  incl l items ->
  forall st,
    rule_inv P B st ->
    rule_inv P B (fold_left (process_paragraph g self article_id section) l st).
Proof.
  induction l as [|ip l IH]; intros Hl st Hst; cbn; [exact Hst|].
  apply IH.
  - intros x Hx. apply Hl. now right.
  - apply process_paragraph_rule; [apply Hl; now left | exact Hst].
Qed.

Lemma final_flush_rule st :
  rule_inv P B st -> Forall P (final_flush self article_id section st).
Proof.
  intros [HP HB]. unfold final_flush.
  destruct (buffer_text st) as [b|]; [|exact HP].
  rewrite _emit_chunk_eq. apply Forall_app. split; [exact HP|].
  constructor; [|constructor]. apply P_merged. auto.
Qed.

End Rule.

(** The pairs [enumerate] yields. *)
Lemma in_enumerate_from {A : Type} (l : list A) :
  forall start i x,
    In (i, x) (enumerate_from start l) ->
    start <= i /\ nth_error l (Z.to_nat (i - start)) = Some x.
Proof.
  induction l as [|y l IH]; intros start i x H; cbn in H; [contradiction|].
  destruct H as [H|H].
  - injection H as <- <-. rewrite Z.sub_diag. split; [lia | reflexivity].
  - apply IH in H as [H1 H2]. split; [lia|].
    replace (Z.to_nat (i - start)) with (S (Z.to_nat (i - (start + 1)))) by lia.
    exact H2.
Qed.

Lemma _process_section_content_rule (P : Chunk -> Prop) (B : string -> Prop) :
  (forall p, In p (content section) -> tokenizer self p < MIN_TOKENS g ->
             B p) ->
  (forall b p,
      In p (content section) -> B b -> tokenizer self p < MIN_TOKENS g ->
      tokenizer self (b ++ blank_line ++ p) <= MAX_TOKENS g ->
      B (b ++ blank_line ++ p)) ->
  (forall b idx,
      B b ->
      P (emitted article_id (path section) b (tokenizer self b) "merged" idx
           None)) ->
  (forall i p,
      0 <= i -> nth_error (content section) (Z.to_nat i) = Some p ->
      MIN_TOKENS g <= tokenizer self p <= MAX_TOKENS g ->
      P (emitted article_id (path section) p (tokenizer self p) "paragraph"
           i None)) ->
  (forall i p j sub_idx,
      0 <= i -> nth_error (content section) (Z.to_nat i) = Some p ->
      MAX_TOKENS g < tokenizer self p ->
      (j < List.length (_split_sentences p))%nat ->
      P (emitted article_id (path section)
           (PyStr.join " "
              (fst (fst (window_at g self (_split_sentences p) j))))
           (snd (fst (window_at g self (_split_sentences p) j))) "split" i
           (Some sub_idx))) ->
  Forall P (_process_section_content g self article_id section).
Proof.
  intros H1 H2 H3 H4 H5. unfold _process_section_content.
  assert (K : forall i p,
             In (i, p) (enumerate_from 0 (content section)) ->
             0 <= i /\ nth_error (content section) (Z.to_nat i) = Some p).
  { intros i p H. apply in_enumerate_from in H. now rewrite Z.sub_0_r in H. }
  apply (final_flush_rule P B); [exact H3|].
  apply (fold_process_paragraph_rule P B (enumerate_from 0 (content section))).
  - intros i p H. apply K in H as [_ H]. apply nth_error_In in H. auto.
  - intros b i p H. apply K in H as [_ H]. apply nth_error_In in H. auto.
  - exact H3.
  - intros i p H. apply K in H as [? ?]. auto.
  - intros i p j sub_idx H. apply K in H as [? ?]. auto.
  - apply incl_refl.
  - split; cbn; [constructor | discriminate].
Qed.

End SectionFacts.

(** The buffered text is within the maximum whenever the minimum is not
    above the maximum plus one. *)
Lemma merged_within_max (g : Globals) (self : UniversalChunker) article_id
    section :
  MIN_TOKENS g <= MAX_TOKENS g + 1 ->
  Forall (fun c => chunk_type c = "merged" ->
                   token_count c = tokenizer self (text c)
                   /\ tokenizer self (text c) <= MAX_TOKENS g)
    (_process_section_content g self article_id section).
Proof.
  intros Hg.
  apply (_process_section_content_rule g self article_id section _
           (fun b => tokenizer self b <= MAX_TOKENS g)).
  - intros p _ H. lia.
  - intros b p _ _ _ H. exact H.
  - intros b idx H _. cbn. split; [reflexivity | exact H].
  - intros i p _ _ _ H. discriminate H.
  - intros i p j sub_idx _ _ _ _ H. discriminate H.
Qed.

(** C2: with the constants of the module, every chunk of type [merged] a
    section yields has the token count of its text, and it is at most
    [MAX_TOKENS], for every tokenizer; an undersized paragraph that
    meets a buffer is folded in when the candidate has at most
    [MAX_TOKENS] tokens, and otherwise the buffer is flushed as a
    [merged] chunk and a new buffer starts with the paragraph. *)
Theorem merged_chunks_within_max :
  forall (self : UniversalChunker) (article_id : string) (section : SectionT)
         (c : Chunk),
    In c (_process_section_content module_globals self article_id section) ->
    chunk_type c = "merged" ->
    (token_count c = tokenizer self (text c)
     /\ token_count c <= MAX_TOKENS module_globals)
    /\ (forall st i p buffered,
           buffer_text st = Some buffered ->
           tokenizer self p < MIN_TOKENS module_globals ->
           process_paragraph module_globals self article_id section st (i, p)
           = if tokenizer self (buffered ++ blank_line ++ p)
                <=? MAX_TOKENS module_globals
             then {| chunks := chunks st;
                     buffer_text := Some (buffered ++ blank_line ++ p);
                     buffer_idx := buffer_idx st |}
             else {| chunks :=
                       (chunks st
                        ++ [emitted article_id (path section) buffered
                              (tokenizer self buffered) "merged"
                              (buffer_idx st) None])%list;
                     buffer_text := Some p;
                     buffer_idx := i |}).
Proof.
  intros self article_id section c Hin Hmerged. split.
  - pose proof (merged_within_max module_globals self article_id section)
      as F.
    rewrite Forall_forall in F.
    destruct (F ltac:(cbn; lia) c Hin Hmerged) as [E L].
    split; [exact E | rewrite E; exact L].
  - intros st i p buffered Hb Hsmall. unfold process_paragraph.
    apply Z.ltb_lt in Hsmall. rewrite Hsmall, Hb.
    destruct (_ <=? _); [reflexivity|]. now rewrite _emit_chunk_eq.
Qed.

Lemma merged_chunks_within_max_witness :
  let self := {| tokenizer := _simple_tokenize |} in
  let section :=
    {| title := "Root"; level := 0; path := ["Root"];
       content := ["alpha beta"; "gamma"]; subsections := [] |} in
  let c := emitted "doc" ["Root"] ("alpha beta" ++ blank_line ++ "gamma") 3
             "merged" 0 None in
  In c (_process_section_content module_globals self "doc" section)
  /\ chunk_type c = "merged"
  /\ token_count c <= MAX_TOKENS module_globals.
Proof.
  cbv zeta.
  assert (Hin : In (emitted "doc" ["Root"]
                      ("alpha beta" ++ blank_line ++ "gamma") 3 "merged" 0
                      None)
                  (_process_section_content module_globals
                     {| tokenizer := _simple_tokenize |} "doc"
                     {| title := "Root"; level := 0; path := ["Root"];
                        content := ["alpha beta"; "gamma"];
                        subsections := [] |}))
    by (vm_compute; left; reflexivity).
  split; [exact Hin | split; [reflexivity|]].
  exact (proj2 (proj1 (merged_chunks_within_max _ _ _ _ Hin eq_refl))).
Defined.

(** C9, as the code has it: a [paragraph] or [merged] chunk has the token
    count of its text; a [split] chunk has the sum of the token counts of
    the sentences of its window, a run of the sentences of the paragraph
    it comes from, and its text is these sentences joined by single
    spaces. *)
Theorem token_count_by_chunk_type :
  forall (g : Globals) (self : UniversalChunker) (article_id : string)
         (section : SectionT) (c : Chunk),
    In c (_process_section_content g self article_id section) ->
    ((chunk_type c = "paragraph" \/ chunk_type c = "merged")
     /\ token_count c = tokenizer self (text c))
    \/ (chunk_type c = "split"
        /\ exists p j k,
            nth_error (content section) (Z.to_nat (paragraph_index c))
            = Some p
            /\ (1 <= k)%nat
            /\ (j + k <= List.length (_split_sentences p))%nat
            /\ text c
               = PyStr.join " " (firstn k (skipn j (_split_sentences p)))
            /\ token_count c
               = Spec.token_sum_of (tokenizer self)
                   (firstn k (skipn j (_split_sentences p)))).
Proof.
  intros g self article_id section c Hin. revert c Hin.
  apply Forall_forall.
  apply (_process_section_content_rule g self article_id section _
           (fun _ => True)).
  - trivial.
  - trivial.
  - intros b idx _. left. cbn. auto.
  - intros i p _ _ _. left. cbn. auto.
  - intros i p j sub_idx Hi Hp _ Hj. right. cbn. split; [reflexivity|].
    destruct (window_at_spec g self (_split_sentences p) j Hj)
      as (k & Hk & E).
    exists p, j, k. rewrite E. cbn. repeat split; try assumption; lia.
Qed.

Lemma token_count_by_chunk_type_witness :
  let self := {| tokenizer := _simple_tokenize |} in
  let section :=
    {| title := "Root"; level := 0; path := ["Root"];
       content := ["alpha beta"; "gamma"]; subsections := [] |} in
  let c := emitted "doc" ["Root"] ("alpha beta" ++ blank_line ++ "gamma") 3
             "merged" 0 None in
  In c (_process_section_content module_globals self "doc" section)
  /\ token_count c = tokenizer self (text c).
Proof.
  cbv zeta.
  assert (Hin : In (emitted "doc" ["Root"]
                      ("alpha beta" ++ blank_line ++ "gamma") 3 "merged" 0
                      None)
                  (_process_section_content module_globals
                     {| tokenizer := _simple_tokenize |} "doc"
                     {| title := "Root"; level := 0; path := ["Root"];
                        content := ["alpha beta"; "gamma"];
                        subsections := [] |}))
    by (vm_compute; left; reflexivity).
  split; [exact Hin|].
  destruct (token_count_by_chunk_type _ _ _ _ _ Hin) as [[_ E]|[E _]].
  - exact E.
  - discriminate E.
Defined.

(** C9 fails as stated for [split] chunks.  With the tokenizer that counts
    characters, a paragraph of two sentences of 160 characters is split
    into one window of both: its token count is 320, the sum of the two,
    and its text, the two sentences and the space between them, has 321
    characters. *)
Lemma split_token_count_is_not_tokenizer_of_text :
  let self := {| tokenizer := PyStr.slen |} in
  let sentence_a := String.concat EmptyString (repeat "a" 159) ++ "." in
  let sentence_b := String.concat EmptyString (repeat "b" 159) ++ "." in
  let paragraph := sentence_a ++ " " ++ sentence_b in
  exists c,
    chunk_article module_globals self "doc" paragraph = [c]
    /\ chunk_type c = "split"
    /\ text c = PyStr.join " " [sentence_a; sentence_b]
    /\ token_count c = 320
    /\ tokenizer self (text c) = 321
    /\ token_count c <> tokenizer self (text c).
Proof.
  cbv zeta. eexists. split; [vm_compute; reflexivity|].
  repeat split; vm_compute; try reflexivity. discriminate.
Qed.

(** C4: a paragraph with at least [MIN_TOKENS] tokens never enters the
    buffer.  The buffer, when there is one, is flushed first as a
    [merged] chunk of the buffered text alone, whatever the token count
    of the two together; then the paragraph is emitted verbatim as a
    [paragraph] chunk when it has at most [MAX_TOKENS] tokens, and is
    otherwise handed to [_split_long_paragraph], which appends [split]
    chunks of this paragraph.  The buffer is empty afterwards. *)
Theorem paragraph_at_minimum_flushes_buffer :
  forall (g : Globals) (self : UniversalChunker) (article_id : string)
         (section : SectionT) (st : loop_state) (i : Z) (p : string),
    MIN_TOKENS g <= tokenizer self p ->
    let flushed :=
      match buffer_text st with
      | Some buffered =>
          [emitted article_id (path section) buffered
             (tokenizer self buffered) "merged" (buffer_idx st) None]
      | None => []
      end in
    let st' := process_paragraph g self article_id section st (i, p) in
    buffer_text st' = None
    /\ chunks st'
       = (if tokenizer self p <=? MAX_TOKENS g
          then (chunks st ++ flushed
                ++ [emitted article_id (path section) p (tokenizer self p)
                      "paragraph" i None])%list
          else _split_long_paragraph g self (chunks st ++ flushed)%list
                 article_id section p i)
    /\ exists windows,
        _split_long_paragraph g self (chunks st ++ flushed)%list article_id
          section p i = (chunks st ++ flushed ++ windows)%list
        /\ Forall (fun c => chunk_type c = "split" /\ paragraph_index c = i)
             windows.
Proof.
  intros g self article_id section st i p Hbig flushed st'.
  subst st' flushed. unfold process_paragraph.
  destruct (Z.ltb_spec (tokenizer self p) (MIN_TOKENS g)) as [H|_]; [lia|].
  split; [|split].
  - destruct (buffer_text st) eqn:Eb; destruct (_ <=? _); cbn;
      try reflexivity; exact Eb.
  - destruct (buffer_text st) eqn:Eb; destruct (_ <=? _); cbn;
      rewrite ?_emit_chunk_eq, ?app_nil_r, <- ?app_assoc; reflexivity.
  - destruct (_split_long_paragraph_emits g self article_id section
                (fun c => chunk_type c = "split" /\ paragraph_index c = i)
                (chunks st ++ match buffer_text st with
                              | Some buffered =>
                                  [emitted article_id (path section) buffered
                                     (tokenizer self buffered) "merged"
                                     (buffer_idx st) None]
                              | None => []
                              end)%list p i)
      as (ws & E & F & _).
    { intros j sub_idx _. cbn. split; reflexivity. }
    exists ws. rewrite E, <- app_assoc. split; [reflexivity | exact F].
Qed.

Lemma paragraph_at_minimum_flushes_buffer_witness :
  let self := {| tokenizer := _simple_tokenize |} in
  let section :=
    {| title := "Root"; level := 0; path := ["Root"]; content := [];
       subsections := [] |} in
  let st := {| chunks := []; buffer_text := Some "short"; buffer_idx := 0 |} in
  let p := String.concat " " (repeat "word" 80) in
  MIN_TOKENS module_globals <= tokenizer self p
  /\ buffer_text (process_paragraph module_globals self "doc" section st (1, p))
     = None.
Proof.
  cbv zeta.
  assert (H : MIN_TOKENS module_globals
              <= tokenizer {| tokenizer := _simple_tokenize |}
                   (String.concat " " (repeat "word" 80)))
    by (apply Z.leb_le; vm_compute; reflexivity).
  split; [exact H|].
  exact (proj1 (paragraph_at_minimum_flushes_buffer module_globals
                  {| tokenizer := _simple_tokenize |} "doc"
                  {| title := "Root"; level := 0; path := ["Root"];
                     content := []; subsections := [] |}
                  {| chunks := []; buffer_text := Some "short";
                     buffer_idx := 0 |} 1 _ H)).
Defined.

(** ** Chunk identity *)

(** What holds of the chunks of every section holds of the chunks of a
    tree of sections. *)
Lemma _recursive_chunk_process_Forall (P : Chunk -> Prop) g self doc :
  (forall section, Forall P (_process_section_content g self doc section)) ->
  forall section, Forall P (_recursive_chunk_process g self doc section).
Proof.
  intros H section.
  induction section as [t l p c subs IH] using SectionT_ind'.
  cbn [_recursive_chunk_process].
  generalize (H (mkSection t l p c subs)).
  generalize (_process_section_content g self doc (mkSection t l p c subs)).
  induction IH as [|s subs Hs _ IHsubs]; intros acc Hacc; cbn; [exact Hacc|].
  apply IHsubs, Forall_app. split; assumption.
Qed.

(** C1: the identifier [_emit_chunk] gives a chunk is [derive_id] of the
    document id, the section path, the paragraph index and the optional
    sub-chunk index, whatever the list, the text, the token count and the
    type are; so every chunk [chunk_article] returns has the identifier
    [derive_id] gives for its own four fields.  The identifier is 16 hex
    characters, the start of the MD5 digest of the canonical string, and
    the canonical strings of an absent sub-chunk index and of a present
    one, zero included, differ. *)
Theorem chunk_id_pure_function :
  forall (doc : string) (section_path' : list string) (p_idx : Z)
         (sub_idx : option Z),
    (forall chunks_list text tokens c_type,
        exists c,
          _emit_chunk chunks_list doc section_path' text tokens c_type
            p_idx sub_idx = (chunks_list ++ [c])%list
          /\ chunk_id c = Spec.derive_id doc section_path' p_idx sub_idx)
    /\ (forall g self markdown_content,
           Forall (fun c => chunk_id c
                            = Spec.derive_id (article_id c) (section_path c)
                                (paragraph_index c) (subchunk_index c))
             (chunk_article g self doc markdown_content))
    /\ Spec.derive_id doc section_path' p_idx sub_idx
       = substring 0 16
           (MD5.hexdigest
              (PyStr.encode_utf8
                 (Spec.canonical_string doc section_path' p_idx sub_idx)))
    /\ String.length (Spec.derive_id doc section_path' p_idx sub_idx)
       = 16%nat
    /\ Spec.all_chars Spec.is_hex_char
         (Spec.derive_id doc section_path' p_idx sub_idx) = true
    /\ (forall k,
           Spec.canonical_string doc section_path' p_idx None
           <> Spec.canonical_string doc section_path' p_idx (Some k)).
Proof.
  intros doc section_path' p_idx sub_idx.
  split; [|split; [|split; [|split; [|split]]]].
  - intros chunks_list text tokens c_type.
    eexists. split; [apply _emit_chunk_eq | reflexivity].
  - intros g self markdown_content. unfold chunk_article. cbv zeta.
    apply _recursive_chunk_process_Forall. intros section.
    apply (_process_section_content_rule g self doc section _
             (fun _ => True)); try trivial; intros; reflexivity.
  - reflexivity.
  - unfold Spec.derive_id, MD5.hexdigest. apply length_prefix.
    rewrite length_hex, length_digest. cbn. lia.
  - unfold Spec.derive_id, MD5.hexdigest.
    apply all_chars_prefix, hex_all_hex, digest_range.
  - intros k E. unfold Spec.canonical_string in E.
    repeat apply append_cancel_l in E.
    symmetry in E. exact (str_of_int_nonempty k E).
Qed.

(** The identifiers of an absent sub-chunk index and of the sub-chunk
    index 0 differ on an example. *)
Example chunk_id_absent_vs_zero :
  Spec.derive_id "doc" ["Root"] 0 None = "280e6f7129cad18d"
  /\ Spec.derive_id "doc" ["Root"] 0 (Some 0) = "e1bf71d49f64ecbd".
Proof. split; vm_compute; reflexivity. Qed.

(** ** Paragraph order *)

Lemma nondecreasing_cons (x : Z) (l : list Z) :
  Forall (fun y => x <= y) l -> Spec.nondecreasing l ->
  Spec.nondecreasing (x :: l).
Proof.
  intros F N. destruct l as [|y l]; cbn; [exact I|].
  inversion F; subst. split; assumption.
Qed.

Lemma nondecreasing_tail (x : Z) (l : list Z) :
  Spec.nondecreasing (x :: l) -> Spec.nondecreasing l.
Proof. destruct l as [|y l]; cbn; [trivial | intros [_ N]; exact N]. Qed.

Lemma nondecreasing_head (x : Z) (l : list Z) :
  Spec.nondecreasing (x :: l) -> Forall (fun y => x <= y) l.
Proof.
  revert x. induction l as [|y l IH]; intros x N; [constructor|].
  destruct N as [Hxy N]. constructor; [exact Hxy|].
  eapply Forall_impl; [|exact (IH y N)]. cbn. intros; lia.
Qed.

(** A sequence followed by values that are all equal and not below any
    value of the sequence. *)
Lemma nondecreasing_app_constant (l : list Z) (x : Z) (tail : list Z) :
  Spec.nondecreasing l -> Forall (fun y => y <= x) l ->
  Forall (fun y => y = x) tail ->
  Spec.nondecreasing (l ++ tail).
Proof.
  intros N B T. induction l as [|y l IH]; cbn.
  - induction T as [|z tail Hz T IHT]; [exact I|].
    apply nondecreasing_cons; [|exact IHT].
    subst z. eapply Forall_impl; [|exact T]. cbn. intros; lia.
  - inversion B; subst. apply nondecreasing_cons.
    + apply Forall_app. split; [now apply nondecreasing_head|].
      eapply Forall_impl; [|exact T]. cbn. intros; lia.
    + apply IH; [now apply nondecreasing_tail in N | assumption].
Qed.

Section Order.

Variable g : Globals.
Variable self : UniversalChunker.
Variable article_id : string.
Variable section : SectionT.

Lemma order_append (n x : Z) (l tail : list Z) :
  Spec.nondecreasing l -> Forall (fun y => y <= x) l -> x < n ->
  Forall (fun y => y = x) tail ->
  Spec.nondecreasing (l ++ tail)
  /\ Forall (fun y => y < n) (l ++ tail)
  /\ Forall (fun y => y <= x) (l ++ tail).
Proof.
  intros N B Hx T. split; [now apply nondecreasing_app_constant with x|].
  split; apply Forall_app; split;
    try (eapply Forall_impl; [|exact B]; cbn; intros; lia);
    eapply Forall_impl; try exact T; cbn; intros; lia.
Qed.

Lemma process_paragraph_order (n : Z) (st : loop_state) (p : string) :
  order_inv n st ->
  order_inv (n + 1) (process_paragraph g self article_id section st (n, p)).
Proof.
  intros (N & L & Hb). unfold process_paragraph.
  assert (Lw : forall m, n <= m ->
                 Forall (fun y => y <= m) (map paragraph_index (chunks st)))
    by (intros m Hm; eapply Forall_impl; [|exact L]; cbn; intros; lia).
  assert (L1 : Forall (fun y => y < n + 1) (map paragraph_index (chunks st)))
    by (eapply Forall_impl; [|exact L]; cbn; intros; lia).
  destruct (tokenizer self p <? MIN_TOKENS g).
  - destruct (buffer_text st) as [b|] eqn:Eb.
    + destruct (Hb b eq_refl) as [Hidx Hle].
      destruct (_ <=? _); unfold order_inv; cbn.
      * split; [exact N|]. split; [exact L1|].
        intros _ _. split; [lia | exact Hle].
      * rewrite _emit_chunk_eq, map_app. cbn.
        destruct (order_append n (buffer_idx st)
                    (map paragraph_index (chunks st)) [buffer_idx st])
          as (A1 & A2 & A3); auto.
        split; [exact A1|]. split.
        -- eapply Forall_impl; [|exact A2]. cbn. intros; lia.
        -- intros _ _. split; [lia|].
           eapply Forall_impl; [|exact A2]. cbn. intros; lia.
    + unfold order_inv; cbn. split; [exact N|]. split; [exact L1|].
      intros _ _. split; [lia | apply Lw; lia].
  - set (st1 := match buffer_text st with
                | Some buffered => _
                | None => st
                end).
    assert (I1 : Spec.nondecreasing (map paragraph_index (chunks st1))
                 /\ Forall (fun y => y < n)
                      (map paragraph_index (chunks st1))
                 /\ buffer_text st1 = None).
    { subst st1. destruct (buffer_text st) as [b|] eqn:Eb; cbn.
      - destruct (Hb b eq_refl) as [Hidx Hle].
        rewrite _emit_chunk_eq, map_app. cbn.
        destruct (order_append n (buffer_idx st)
                    (map paragraph_index (chunks st)) [buffer_idx st])
          as (A1 & A2 & A3); auto.
      - auto. }
    destruct I1 as (N1 & B1 & E1).
    assert (Bn : Forall (fun y => y <= n) (map paragraph_index (chunks st1)))
      by (eapply Forall_impl; [|exact B1]; cbn; intros; lia).
    destruct (_ <=? _); unfold order_inv; cbn.
    + rewrite _emit_chunk_eq, map_app. cbn.
      destruct (order_append (n + 1) n (map paragraph_index (chunks st1)) [n])
        as (A1 & A2 & A3); auto; try lia.
      split; [exact A1|]. split; [exact A2|].
      intros b Eb. rewrite E1 in Eb. discriminate Eb.
    + destruct (_split_long_paragraph_emits g self article_id section
                  (fun c => paragraph_index c = n) (chunks st1) p n)
        as (ws & E & F & _); [reflexivity|].
      rewrite E, map_app.
      destruct (order_append (n + 1) n (map paragraph_index (chunks st1))
                  (map paragraph_index ws))
        as (A1 & A2 & A3); auto; try lia.
      { apply Forall_map. exact F. }
      split; [exact A1|]. split; [exact A2|].
      intros b Eb. rewrite E1 in Eb. discriminate Eb.
Qed.

Lemma fold_process_paragraph_order (l : list string) :
  forall n st,
    order_inv n st ->
    order_inv (n + PyStr.len l)
      (fold_left (process_paragraph g self article_id section)
         (enumerate_from n l) st).
Proof.
  induction l as [|p l IH]; intros n st H; cbn [enumerate_from fold_left].
  - unfold PyStr.len. cbn [List.length Z.of_nat]. now rewrite Z.add_0_r.
  - replace (n + PyStr.len (p :: l)) with ((n + 1) + PyStr.len l)
      by (unfold PyStr.len; cbn [List.length]; lia).
    apply IH, process_paragraph_order, H.
Qed.

End Order.

(** C10: the paragraph indices of the chunks of a section, in the order
    they are emitted, never decrease. *)
Theorem paragraph_index_nondecreasing :
  forall (g : Globals) (self : UniversalChunker) (article_id : string)
         (section : SectionT),
    Spec.nondecreasing
      (map paragraph_index
         (_process_section_content g self article_id section)).
Proof.
  intros g self article_id section. unfold _process_section_content.
  pose proof (fold_process_paragraph_order g self article_id section
                (content section) 0 (initial_state)) as H.
  destruct H as (N & L & Hb).
  { unfold order_inv, initial_state; cbn.
    split; [exact I|]. split; [constructor | discriminate]. }
  unfold final_flush.
  destruct (buffer_text _) as [b|] eqn:Eb; [|exact N].
  destruct (Hb b eq_refl) as [_ Hle].
  rewrite _emit_chunk_eq, map_app. cbn.
  apply nondecreasing_app_constant with (x := buffer_idx
      (fold_left (process_paragraph g self article_id section)
         (enumerate_from 0 (content section)) initial_state));
    auto.
Qed.

(** ** Determinism *)

Section Simulation.

Variable T : Type.
Variable g : Globals.
Variable tokenizer_func : string -> T -> Z * T.
Variable count : string -> Z.

(** The count the callable returns for a text is the same in every state
    of the callable. *)
Hypothesis answers : forall x s, fst (tokenizer_func x s) = count x.

Let self : UniversalChunker := {| tokenizer := count |}.

Lemma call_answers (x : string) (s : T) (n : Z) (s' : T) :
  tokenizer_func x s = (n, s') -> n = count x.
Proof. intros E. rewrite <- (answers x s), E. reflexivity. Qed.

Lemma build_window_pure (rest : list string) :
  forall window token_sum i s,
    fst (Stateful.build_window T g tokenizer_func rest window token_sum i s)
    = build_window g self rest window token_sum i.
Proof.
  induction rest as [|x rest IH]; intros window token_sum i s;
    cbn [Stateful.build_window build_window]; [reflexivity|].
  destruct (tokenizer_func x s) as [n s1] eqn:E.
  apply call_answers in E. subst n. cbn [tokenizer self].
  destruct (_ >=? _); [reflexivity | apply IH].
Qed.

Lemma stateful_split_loop_done chunks_list article_id section
    paragraph_index sentences i sub_idx s :
  (List.length sentences <= i)%nat ->
  Stateful.split_loop T g tokenizer_func chunks_list article_id section
    paragraph_index sentences i sub_idx s
  = (chunks_list, s).
Proof.
  intros H. rewrite Stateful.split_loop_equation_1.
  destruct (lt_dec i (List.length sentences)); [lia | reflexivity].
Qed.

Lemma stateful_split_loop_step chunks_list article_id section
    paragraph_index sentences i sub_idx s :
  (i < List.length sentences)%nat ->
  Stateful.split_loop T g tokenizer_func chunks_list article_id section
    paragraph_index sentences i sub_idx s
  = let w := Stateful.window_at T g tokenizer_func sentences i s in
    Stateful.split_loop T g tokenizer_func
      (chunks_list
       ++ [emitted article_id (path section)
             (PyStr.join " " (fst (fst (fst w)))) (snd (fst (fst w)))
             "split" paragraph_index (Some sub_idx)])%list
      article_id section paragraph_index sentences
      (Stateful.next_cursor T g tokenizer_func sentences i s) (sub_idx + 1)
      (snd w).
Proof.
  intros H. rewrite Stateful.split_loop_equation_1.
  destruct (lt_dec i (List.length sentences)); [reflexivity | lia].
Qed.

Lemma window_at_pure sentences i s :
  fst (Stateful.window_at T g tokenizer_func sentences i s)
  = window_at g self sentences i.
Proof. apply build_window_pure. Qed.

Lemma next_cursor_pure sentences i s :
  Stateful.next_cursor T g tokenizer_func sentences i s
  = next_cursor g self sentences i.
Proof.
  unfold Stateful.next_cursor, next_cursor.
  rewrite <- (window_at_pure sentences i s).
  now destruct (Stateful.window_at T g tokenizer_func sentences i s)
    as [[[window token_sum] i'] s'].
Qed.

Lemma split_loop_pure article_id section paragraph_index sentences :
  forall n i chunks_list sub_idx s,
    (List.length sentences - i <= n)%nat ->
    fst (Stateful.split_loop T g tokenizer_func chunks_list article_id section
           paragraph_index sentences i sub_idx s)
    = split_loop g self chunks_list article_id section paragraph_index
        sentences i sub_idx.
Proof.
  induction n as [|n IH]; intros i chunks_list sub_idx s Hn.
  - rewrite stateful_split_loop_done, split_loop_done by lia. reflexivity.
  - destruct (lt_dec i (List.length sentences)) as [Hi|Hi].
    + rewrite stateful_split_loop_step, (split_loop_step g self)
        by exact Hi.
      cbv zeta.
      pose proof (next_cursor_progress g self sentences i Hi) as P.
      rewrite <- (window_at_pure sentences i s).
      rewrite <- (next_cursor_pure sentences i s) in P |- *.
      apply IH. lia.
    + rewrite stateful_split_loop_done, split_loop_done by lia. reflexivity.
Qed.

Lemma _split_long_paragraph_pure chunks_list article_id section text
    paragraph_index s :
  fst (Stateful._split_long_paragraph T g tokenizer_func chunks_list
         article_id section text paragraph_index s)
  = _split_long_paragraph g self chunks_list article_id section text
      paragraph_index.
Proof.
  unfold Stateful._split_long_paragraph, _split_long_paragraph. cbv zeta.
  destruct (_split_sentences text) as [|x l]; [reflexivity|].
  now apply split_loop_pure with (n := List.length (x :: l)).
Qed.

Lemma process_paragraph_pure article_id section st s ip :
  fst (Stateful.process_paragraph T g tokenizer_func article_id section
         (st, s) ip)
  = process_paragraph g self article_id section st ip.
Proof.
  destruct ip as [i p]. unfold Stateful.process_paragraph, process_paragraph.
  destruct (tokenizer_func p s) as [tokens s1] eqn:E1.
  apply call_answers in E1. subst tokens. cbn [tokenizer self].
  destruct (count p <? MIN_TOKENS g).
  - destruct (buffer_text st) as [buffered|]; [|reflexivity].
    destruct (tokenizer_func _ s1) as [merged_tokens s2] eqn:E2.
    apply call_answers in E2. subst merged_tokens.
    destruct (_ <=? MAX_TOKENS g); [reflexivity|].
    destruct (tokenizer_func buffered s2) as [buffer_tokens s3] eqn:E3.
    apply call_answers in E3. subst buffer_tokens. reflexivity.
  - destruct (buffer_text st) as [buffered|].
    + destruct (tokenizer_func buffered s1) as [buffer_tokens s2] eqn:E2.
      apply call_answers in E2. subst buffer_tokens.
      destruct (count p <=? MAX_TOKENS g); [reflexivity|].
      cbn [chunks buffer_text buffer_idx].
      rewrite <- (_split_long_paragraph_pure _ article_id section p i s2).
      now destruct (Stateful._split_long_paragraph _ _ _ _ _ _ _ _ _).
    + destruct (count p <=? MAX_TOKENS g); [reflexivity|].
      rewrite <- (_split_long_paragraph_pure _ article_id section p i s1).
      now destruct (Stateful._split_long_paragraph _ _ _ _ _ _ _ _ _).
Qed.

Lemma _process_section_content_pure article_id section s :
  fst (Stateful._process_section_content T g tokenizer_func article_id
         section s)
  = _process_section_content g self article_id section.
Proof.
  unfold Stateful._process_section_content, _process_section_content.
  assert (F : forall l st s0,
             fst (fold_left
                    (Stateful.process_paragraph T g tokenizer_func article_id
                       section) l (st, s0))
             = fold_left (process_paragraph g self article_id section) l st).
  { induction l as [|ip l IH]; intros st s0; cbn [fold_left];
      [reflexivity|].
    rewrite <- (process_paragraph_pure article_id section st s0 ip).
    destruct (Stateful.process_paragraph _ _ _ _ _ _ _) as [st' s'].
    apply IH. }
  specialize (F (enumerate_from 0 (content section)) initial_state s).
  destruct (fold_left _ _ (initial_state, s)) as [st' s'].
  cbn [fst] in F. rewrite <- F.
  unfold Stateful.final_flush, final_flush.
  destruct (buffer_text st') as [buffered|]; [|reflexivity].
  destruct (tokenizer_func buffered s') as [buffer_tokens s2] eqn:E.
  apply call_answers in E. subst buffer_tokens. reflexivity.
Qed.

Lemma _recursive_chunk_process_pure article_id section :
  forall s,
    fst (Stateful._recursive_chunk_process T g tokenizer_func article_id
           section s)
    = _recursive_chunk_process g self article_id section.
Proof.
  induction section as [t l p c subs IH] using SectionT_ind'. intros s.
  cbn [Stateful._recursive_chunk_process _recursive_chunk_process].
  rewrite <- (_process_section_content_pure article_id
                (mkSection t l p c subs) s).
  destruct (Stateful._process_section_content _ _ _ _ _ _)
    as [acc s0].
  cbn [fst]. revert acc s0.
  induction IH as [|sub subs Hs _ IHsubs]; intros acc s0; cbn [fold_left];
    [reflexivity|].
  rewrite <- (Hs s0).
  destruct (Stateful._recursive_chunk_process _ _ _ _ sub s0) as [more s1].
  apply IHsubs.
Qed.

Lemma chunk_article_pure article_id markdown_content s :
  fst (Stateful.chunk_article T g tokenizer_func article_id markdown_content
         s)
  = chunk_article g self article_id markdown_content.
Proof. apply _recursive_chunk_process_pure. Qed.

End Simulation.

(** C6: two calls of [chunk_article] in a row, on the same instance, with
    the same document id and the same text, return the same sequence of
    chunks, identifiers included, when the tokenizer is deterministic:
    the count it returns for a text is the same in every state the
    callable can be in.  The second call starts in the state the first
    call has left the callable in; apart from it the first call leaves
    nothing behind.  The sequence is the one the methods compute from the
    counts alone. *)
Theorem chunk_article_deterministic :
  forall (T : Type) (g : Globals) (tokenizer_func : string -> T -> Z * T)
         (article_id markdown_content : string) (s : T),
    (forall x s1 s2, fst (tokenizer_func x s1) = fst (tokenizer_func x s2)) ->
    let first :=
      Stateful.chunk_article T g tokenizer_func article_id markdown_content
        s in
    let second :=
      Stateful.chunk_article T g tokenizer_func article_id markdown_content
        (snd first) in
    fst second = fst first
    /\ map chunk_id (fst second) = map chunk_id (fst first)
    /\ fst first
       = chunk_article g {| tokenizer := fun x => fst (tokenizer_func x s) |}
           article_id markdown_content.
Proof.
  intros T g tokenizer_func article_id markdown_content s H first second.
  assert (A : forall x s', fst (tokenizer_func x s')
                           = (fun x => fst (tokenizer_func x s)) x)
    by (intros x s'; apply H).
  assert (E1 : fst first
               = chunk_article g
                   {| tokenizer := fun x => fst (tokenizer_func x s) |}
                   article_id markdown_content)
    by (apply (chunk_article_pure T g tokenizer_func _ A)).
  assert (E2 : fst second = fst first).
  { rewrite E1.
    apply (chunk_article_pure T g tokenizer_func _ A). }
  split; [exact E2|]. split; [now rewrite E2 | exact E1].
Qed.

(** A tokenizer that counts its calls and answers like the whitespace
    tokenizer; the thresholds are small, so that the document below has a
    chunk of each type. *)
Lemma chunk_article_deterministic_witness :
  let g := {| MIN_TOKENS := 2; TARGET_TOKENS := 3; MAX_TOKENS := 4;
              SENTENCE_OVERLAP := 1 |} in
  let tokenizer_func := fun (x : string) (calls : nat) =>
                          (_simple_tokenize x, S calls) in
  let newline := String PyStr.newline EmptyString in
  let markdown :=
    "# A" ++ newline ++ "one" ++ newline ++ newline
    ++ "two three four" ++ newline ++ newline
    ++ "Aa bb cc. Dd ee ff. Gg hh ii." in
  let first := Stateful.chunk_article nat g tokenizer_func "doc" markdown
                 O in
  let second := Stateful.chunk_article nat g tokenizer_func "doc" markdown
                  (snd first) in
  (forall x s1 s2, fst (tokenizer_func x s1) = fst (tokenizer_func x s2))
  /\ map summary (fst first)
     = [("merged", 1, 0, None); ("paragraph", 3, 1, None);
        ("split", 3, 2, Some 0); ("split", 3, 2, Some 1);
        ("split", 3, 2, Some 2)]
  /\ snd first = 7%nat
  /\ snd second = 14%nat
  /\ fst second = fst first.
Proof.
  cbv zeta.
  assert (H : forall (x : string) (s1 s2 : nat),
             fst (_simple_tokenize x, S s1) = fst (_simple_tokenize x, S s2))
    by reflexivity.
  split; [exact H|].
  split; [vm_compute; reflexivity|].
  split; [vm_compute; reflexivity|].
  split; [vm_compute; reflexivity|].
  exact (proj1 (chunk_article_deterministic nat _
                  (fun (x : string) (calls : nat) =>
                     (_simple_tokenize x, S calls))
                  "doc" _ O H)).
Defined.

(** The hypothesis on the tokenizer is needed: with a callable whose
    answer is the number of calls made so far, the second call returns
    other token counts than the first. *)
Example counting_tokenizer_changes_the_chunks :
  let tokenizer_func := fun (x : string) (calls : nat) =>
                          (Z.of_nat calls, S calls) in
  let first := Stateful.chunk_article nat module_globals tokenizer_func
                 "doc" "alpha" O in
  let second := Stateful.chunk_article nat module_globals tokenizer_func
                  "doc" "alpha" (snd first) in
  map summary (fst first) = [("merged", 1, 0, None)]
  /\ map summary (fst second) = [("merged", 3, 0, None)]
  /\ fst second <> fst first.
Proof.
  cbv zeta. split; [vm_compute; reflexivity|].
  split; [vm_compute; reflexivity|].
  intros E. apply (f_equal (map token_count)) in E. vm_compute in E.
  discriminate E.
Qed.

(** ** Documents without headers *)

Lemma lstrip_head (s : string) :
  PyStr.lstrip s = EmptyString \/ good_line (PyStr.lstrip s).
Proof.
  induction s as [|c s IH]; cbn; [now left|].
  destruct (PyStr.isspace c) eqn:E; [exact IH|].
  right. exists c, s. split; [reflexivity | exact E].
Qed.

Lemma rstrip_good (s : string) : good_line s -> good_line (PyStr.rstrip s).
Proof.
  intros (c & r & -> & Hc). cbn.
  destruct (PyStr.rstrip r); [rewrite Hc|]; eexists _, _; split; eauto.
Qed.

Lemma strip_good (s : string) :
  PyStr.truthy (PyStr.strip s) = true -> good_line (PyStr.strip s).
Proof.
  unfold PyStr.strip. intros H.
  destruct (lstrip_head s) as [E|G]; [rewrite E in H; discriminate H|].
  now apply rstrip_good.
Qed.

Lemma good_truthy (s : string) : good_line s -> PyStr.truthy s = true.
Proof. intros (c & r & -> & _). reflexivity. Qed.

Lemma lstrip_good (s : string) : good_line s -> PyStr.lstrip s = s.
Proof. intros (c & r & -> & Hc). cbn. now rewrite Hc. Qed.

Lemma join_good (sep : string) (l : list string) :
  l <> [] -> Forall good_line l -> good_line (PyStr.join sep l).
Proof.
  intros Hne F. destruct F as [|s l Hs _]; [congruence|].
  destruct Hs as (c & r & -> & Hc). unfold PyStr.join. cbn.
  destruct l; eexists _, _; split; eauto.
Qed.

Lemma paragraph_truthy (pending : list string) :
  pending <> [] -> Forall good_line pending ->
  PyStr.truthy (PyStr.strip (PyStr.join " " pending)) = true.
Proof.
  intros Hne F. apply good_truthy. unfold PyStr.strip.
  pose proof (join_good " " pending Hne F) as G.
  rewrite (lstrip_good _ G). now apply rstrip_good.
Qed.

Lemma flush_root_only (paragraphs pending : list string) :
  Forall good_line pending ->
  flush_paragraph (root_only paragraphs pending)
  = root_only
      (paragraphs ++ match pending with
                     | [] => []
                     | _ => [paragraph_of pending]
                     end)%list [].
Proof.
  intros F. destruct pending as [|s pending].
  - rewrite app_nil_r. reflexivity.
  - unfold flush_paragraph, root_only.
    cbn [current_paragraph_lines heap current_section section_stack].
    rewrite paragraph_truthy by (congruence || assumption). reflexivity.
Qed.

Lemma parse_line_root_only (paragraphs pending : list string) (line : string) :
  Forall good_line pending ->
  Spec.is_header_line line = false ->
  parse_line (root_only paragraphs pending) line
  = if Spec.is_blank line
    then flush_paragraph (root_only paragraphs pending)
    else root_only paragraphs (pending ++ [PyStr.strip line])%list.
Proof.
  intros F H. unfold parse_line, Spec.is_blank. cbv zeta.
  destruct (negb (PyStr.truthy (PyStr.strip line))); [reflexivity|].
  unfold Spec.is_header_line in H.
  destruct (header_match (PyStr.strip line)); [discriminate H | reflexivity].
Qed.

Lemma parse_lines_root_only (lines : list string) :
  forall paragraphs pending,
    Forall good_line pending ->
    (forall line, In line lines -> Spec.is_header_line line = false) ->
    flush_paragraph (fold_left parse_line lines (root_only paragraphs pending))
    = root_only
        (paragraphs
         ++ map paragraph_of (Spec.paragraph_groups pending lines))%list [].
Proof.
  induction lines as [|line lines IH]; intros paragraphs pending F H.
  - cbn [fold_left Spec.paragraph_groups]. rewrite flush_root_only by exact F.
    destruct pending; reflexivity.
  - cbn [fold_left Spec.paragraph_groups].
    rewrite parse_line_root_only; [|exact F | apply H; now left].
    assert (H' : forall l, In l lines -> Spec.is_header_line l = false)
      by (intros l Hl; apply H; now right).
    destruct (Spec.is_blank line) eqn:Eb.
    + rewrite flush_root_only by exact F.
      rewrite IH; [|constructor | exact H'].
      destruct pending; cbn [map]; rewrite <- ?app_assoc; reflexivity.
    + apply IH; [|exact H'].
      apply Forall_app. split; [exact F|]. constructor; [|constructor].
      apply strip_good. unfold Spec.is_blank in Eb.
      now destruct (PyStr.truthy (PyStr.strip line)).
Qed.

(** Every chunk of a section carries the path of the section. *)
Lemma section_path_of_chunks g self article_id section :
  Forall (fun c => section_path c = path section)
    (_process_section_content g self article_id section).
Proof.
  apply (_process_section_content_rule g self article_id section _
           (fun _ => True)); try trivial; intros; reflexivity.
Qed.

(** C7, as the code has it: a document with no header line is parsed into
    the root section alone, without children, whose content is the
    paragraphs of the document; the path of the root is the one-element
    list of its title, ["Root"], and every chunk of the document carries
    it as its section path. *)
Theorem headerless_document_single_root :
  forall (markdown_content : string),
    Spec.no_header_lines markdown_content ->
    _parse_markdown_structure markdown_content
    = {| title := "Root"; level := 0; path := ["Root"];
         content := Spec.document_paragraphs markdown_content;
         subsections := [] |}
    /\ (forall g self article_id,
           chunk_article g self article_id markdown_content
           = _process_section_content g self article_id
               (_parse_markdown_structure markdown_content)
           /\ Forall (fun c => section_path c = ["Root"])
                (chunk_article g self article_id markdown_content)).
Proof.
  intros markdown_content H.
  assert (E : _parse_markdown_structure markdown_content
              = {| title := "Root"; level := 0; path := ["Root"];
                   content := Spec.document_paragraphs markdown_content;
                   subsections := [] |}).
  { unfold _parse_markdown_structure. cbv zeta.
    change parse_start with (root_only [] []).
    rewrite parse_lines_root_only; [reflexivity | constructor | exact H]. }
  split; [exact E|].
  intros g self article_id. unfold chunk_article. cbv zeta. rewrite E.
  split; [reflexivity|].
  cbn [_recursive_chunk_process fold_left].
  apply (section_path_of_chunks g self article_id
           {| title := "Root"; level := 0; path := ["Root"];
              content := Spec.document_paragraphs markdown_content;
              subsections := [] |}).
Qed.

Lemma headerless_document_single_root_witness :
  Spec.no_header_lines "Hello world"
  /\ subsections (_parse_markdown_structure "Hello world") = [].
Proof.
  assert (H : Spec.no_header_lines "Hello world").
  { intros line Hin. vm_compute in Hin.
    destruct Hin as [<-|[]]. reflexivity. }
  split; [exact H|].
  rewrite (proj1 (headerless_document_single_root "Hello world" H)).
  reflexivity.
Defined.

(** C7 fails as stated: the one chunk of the document ["Hello world"],
    which has no header line, carries the section path [["Root"]], the
    path of the root, not the empty path. *)
Lemma headerless_chunk_path_is_not_empty :
  (forall line, In line (PyStr.split_char PyStr.newline "Hello world") ->
                Spec.is_header_line line = false)
  /\ path (_parse_markdown_structure "Hello world") = ["Root"]
  /\ exists c,
      chunk_article module_globals {| tokenizer := _simple_tokenize |} "doc"
        "Hello world" = [c]
      /\ section_path c = ["Root"]
      /\ section_path c <> [].
Proof.
  split; [|split].
  - intros line Hin. vm_compute in Hin. destruct Hin as [<-|[]]. reflexivity.
  - vm_compute. reflexivity.
  - eexists. split; [vm_compute; reflexivity|].
    split; [reflexivity | discriminate].
Qed.

(** ** The store of the parser *)

Lemma length_modify {A : Type} (f : A -> A) (l : list A) :
  forall i, List.length (modify i f l) = List.length l.
Proof.
  induction l as [|x l IH]; intros [|i]; cbn; try reflexivity.
  now rewrite IH.
Qed.

Lemma nth_error_modify {A : Type} (f : A -> A) (l : list A) :
  forall i j,
    nth_error (modify i f l) j
    = if Nat.eqb j i then option_map f (nth_error l j) else nth_error l j.
Proof.
  induction l as [|x l IH]; intros [|i] [|j]; cbn; try reflexivity.
  - now destruct (Nat.eqb j i).
  - apply IH.
Qed.

Lemma flush_paragraph_keeps_store (st : parse_state) :
  parse_ok st -> parse_ok (flush_paragraph st).
Proof.
  intros (S & K & N & C). unfold flush_paragraph.
  destruct (current_paragraph_lines st) as [|l ls]; [repeat split; assumption|].
  destruct (PyStr.truthy _); unfold parse_ok; cbn;
    [|repeat split; assumption].
  rewrite length_modify. repeat split; try assumption.
  intros ref o H. rewrite nth_error_modify in H.
  rewrite length_modify.
  destruct (Nat.eqb ref (current_section st)); [|now apply S].
  destruct (nth_error (heap st) ref) as [o'|] eqn:E; [|discriminate H].
  injection H as <-. cbn. now apply S.
Qed.

Lemma pop_to_parent_keeps (heap : list SectionObj) (level : Z)
    (stack : list nat) (Q : nat -> Prop) :
  Forall Q stack -> stack <> [] ->
  Forall Q (pop_to_parent heap level stack)
  /\ pop_to_parent heap level stack <> [].
Proof.
  induction stack as [|top below IH]; intros F N; [congruence|].
  cbn. destruct below as [|next below]; [split; assumption|].
  destruct (_ >=? _); [|split; assumption].
  apply IH; [now inversion F | congruence].
Qed.

Lemma parse_line_keeps_store (st : parse_state) (line : string) :
  parse_ok st -> parse_ok (parse_line st line).
Proof.
  intros H. unfold parse_line. cbv zeta.
  destruct (negb _); [now apply flush_paragraph_keeps_store|].
  destruct (header_match _) as [[level group2]|].
  - apply flush_paragraph_keeps_store in H. destruct H as (S & K & N & C).
    destruct (pop_to_parent_keeps (heap (flush_paragraph st)) level
                (section_stack (flush_paragraph st))
                (fun ref => (ref < List.length (heap (flush_paragraph st)))%nat)
                K N) as [K' N'].
    set (stack := pop_to_parent _ _ _) in *.
    set (h := heap (flush_paragraph st)) in *.
    assert (P : (hd O stack < List.length h)%nat)
      by (destruct stack; [congruence | now inversion K']).
    unfold parse_ok, store_ok. cbn. rewrite !length_app, !length_modify.
    cbn [List.length]. repeat split; try congruence; try lia.
    + intros ref o E.
      destruct (Nat.lt_ge_cases ref (List.length h)) as [Hr|Hr].
      * rewrite nth_error_app1 in E by (rewrite length_modify; exact Hr).
        rewrite nth_error_modify in E.
        destruct (Nat.eqb_spec ref (hd O stack)) as [->|_].
        -- destruct (nth_error h (hd O stack)) as [o'|] eqn:E';
             [|discriminate E].
           injection E as <-. cbn. apply Forall_app. split.
           ++ eapply Forall_impl; [|exact (S _ _ E')]. cbn. intros; lia.
           ++ constructor; [lia | constructor].
        -- eapply Forall_impl; [|exact (S _ _ E)]. cbn. intros; lia.
      * rewrite nth_error_app2 in E by (rewrite length_modify; exact Hr).
        rewrite length_modify in E.
        destruct (ref - List.length h)%nat as [|d] eqn:D; cbn in E.
        -- injection E as <-. constructor.
        -- destruct d; discriminate E.
    + constructor; [lia|].
      eapply Forall_impl; [|exact K']. cbn. intros; lia.
  - destruct H as (S & K & N & C). repeat split; assumption.
Qed.

Lemma parse_lines_keep_store (lines : list string) :
  forall st, parse_ok st -> parse_ok (fold_left parse_line lines st).
Proof.
  induction lines as [|line lines IH]; intros st H; cbn; [exact H|].
  now apply IH, parse_line_keeps_store.
Qed.

Lemma reify_succ (fuel : nat) (heap : list SectionObj) (ref : nat) :
  reify (S fuel) heap ref
  = match nth_error heap ref with
    | Some o =>
        {| title := o_title o; level := o_level o; path := o_path o;
           content := o_content o;
           subsections := map (reify fuel heap) (o_subsections o) |}
    | None =>
        {| title := EmptyString; level := 0; path := []; content := [];
           subsections := [] |}
    end.
Proof. reflexivity. Qed.

(** More fuel than the size of the store changes nothing. *)
Lemma reify_fuel_step (heap : list SectionObj) :
  store_ok heap ->
  forall fuel ref,
    (List.length heap - ref <= fuel)%nat ->
    reify (S fuel) heap ref = reify fuel heap ref.
Proof.
  intros S. induction fuel as [|fuel IH]; intros ref H.
  - cbn. destruct (nth_error heap ref) as [o|] eqn:E; [|reflexivity].
    assert (ref < List.length heap)%nat
      by (apply nth_error_Some; congruence).
    lia.
  - rewrite (reify_succ (Datatypes.S fuel)), (reify_succ fuel).
    destruct (nth_error heap ref) as [o|] eqn:E; [|reflexivity].
    f_equal. apply map_ext_in. intros child Hc. apply IH.
    pose proof (S ref o E) as F. rewrite Forall_forall in F.
    specialize (F child Hc). lia.
Qed.

Lemma reify_fuel_enough (heap : list SectionObj) :
  store_ok heap ->
  forall extra,
    reify (List.length heap + extra) heap O = reify (List.length heap) heap O.
Proof.
  intros S. induction extra as [|extra IH].
  - now rewrite Nat.add_0_r.
  - rewrite Nat.add_succ_r, reify_fuel_step; [exact IH | exact S | lia].
Qed.

(** The store [_parse_markdown_structure] ends with is well formed, so
    the tree read from it does not depend on the fuel. *)
Lemma parse_store_well_formed (text : string) :
  let st := flush_paragraph
              (fold_left parse_line (PyStr.split_char PyStr.newline text)
                 parse_start) in
  parse_ok st
  /\ forall extra,
      reify (List.length (heap st) + extra) (heap st) O
      = _parse_markdown_structure text.
Proof.
  cbv zeta.
  assert (H : parse_ok
                (flush_paragraph
                   (fold_left parse_line
                      (PyStr.split_char PyStr.newline text) parse_start))).
  { apply flush_paragraph_keeps_store, parse_lines_keep_store.
    unfold parse_ok, parse_start, store_ok. cbn.
    repeat split; try congruence; try lia.
    - intros [|ref] o E; cbn in E.
      + injection E as <-. constructor.
      + destruct ref; discriminate E.
    - constructor; [lia | constructor]. }
  split; [exact H|]. intros extra. apply reify_fuel_enough, H.
Qed.

(** ** The scenarios of the specification *)

(** Paragraphs of 30, 40 and 250 tokens: the first two are merged into a
    chunk of 70 tokens and the third is a chunk of its own. *)
Example scenario_merge_then_paragraph :
  map summary
    (_process_section_content module_globals
       {| tokenizer := _simple_tokenize |} "doc"
       {| title := "T"; level := 1; path := ["T"];
          content := [words 30; words 40; words 250]; subsections := [] |})
  = [("merged", 70, 0, None); ("paragraph", 250, 2, None)].
Proof. vm_compute. reflexivity. Qed.

(** A paragraph of ten sentences of 70 tokens: windows of four sentences
    and 280 tokens, each starting with the last sentence of the one
    before. *)
Example scenario_split_windows :
  let sentence := words 69 ++ " end." in
  let paragraph := String.concat " " (repeat sentence 10) in
  _simple_tokenize paragraph = 700
  /\ List.length (_split_sentences paragraph) = 10%nat
  /\ map summary
       (_process_section_content module_globals
          {| tokenizer := _simple_tokenize |} "doc"
          {| title := "T"; level := 1; path := ["T"];
             content := [paragraph]; subsections := [] |})
     = [("split", 280, 0, Some 0); ("split", 280, 0, Some 1);
        ("split", 280, 0, Some 2)]
  /\ map (next_cursor module_globals {| tokenizer := _simple_tokenize |}
            (_split_sentences paragraph)) [0; 3; 6]%nat
     = [3; 6; 10]%nat.
Proof. cbv zeta. repeat split; vm_compute; reflexivity. Qed.

(** The tree of a document with nested and skipped levels. *)
Example scenario_parse_tree :
  let newline := String PyStr.newline EmptyString in
  _parse_markdown_structure
    ("intro" ++ newline ++ "more" ++ newline ++ newline
     ++ "# A" ++ newline ++ "text a" ++ newline
     ++ "### C" ++ newline
     ++ "## B" ++ newline ++ "#nothing" ++ newline
     ++ "# D  ")
  = {| title := "Root"; level := 0; path := ["Root"];
       content := ["intro more"];
       subsections :=
         [ {| title := "A"; level := 1; path := ["A"]; content := ["text a"];
              subsections :=
                [ {| title := "C"; level := 3; path := ["A"; "C"];
                     content := []; subsections := [] |};
                  {| title := "B"; level := 2; path := ["A"; "B"];
                     content := ["#nothing"]; subsections := [] |} ] |};
           {| title := "D"; level := 1; path := ["D"]; content := [];
              subsections := [] |} ] |}.
Proof. vm_compute. reflexivity. Qed.

(** * Further properties of the code *)

(** ** Windows of the sentence split *)

Section WindowFacts.

Variable g : Globals.
Variable self : UniversalChunker.

Lemma token_sum_of_from (window : list string) (start : Z) :
  fold_left (fun sum s => sum + tokenizer self s) window start
  = start + Spec.token_sum_of (tokenizer self) window.
Proof.
  unfold Spec.token_sum_of. revert start.
  induction window as [|s window IH]; intros start; cbn; [lia|].
  rewrite IH, (IH (tokenizer self s)). lia.
Qed.

Lemma firstn_succ_snoc {A : Type} (l : list A) :
  forall m x, nth_error l m = Some x -> firstn (S m) l = (firstn m l ++ [x])%list.
Proof.
  induction l as [|y l IH]; intros [|m] x H; cbn in *; try discriminate.
  - now injection H as <-.
  - now rewrite (IH m x H).
Qed.

(** The inner loop stops at the first sentence with which the running sum
    reaches the target, or at the end of the sentences. *)
Lemma build_window_target (rest : list string) :
  forall window token_sum i,
  exists k,
    (k <= List.length rest)%nat
    /\ (rest <> [] -> (1 <= k)%nat)
    /\ build_window g self rest window token_sum i
       = ((window ++ firstn k rest)%list,
          token_sum + Spec.token_sum_of (tokenizer self) (firstn k rest),
          (i + k)%nat)
    /\ (TARGET_TOKENS g
        <= token_sum + Spec.token_sum_of (tokenizer self) (firstn k rest)
        \/ k = List.length rest)
    /\ (forall m, (1 <= m < k)%nat ->
                  token_sum + Spec.token_sum_of (tokenizer self) (firstn m rest)
                  < TARGET_TOKENS g).
Proof.
  induction rest as [|s rest IH]; intros window token_sum i.
  - exists 0%nat. cbn. rewrite app_nil_r, Nat.add_0_r.
    split; [lia|]. split; [congruence|].
    split; [now rewrite Z.add_0_r|].
    split; [now right | intros m Hm; lia].
  - cbn [build_window]. cbv zeta.
    destruct (Z.geb_spec (token_sum + tokenizer self s) (TARGET_TOKENS g))
      as [Hge|Hlt].
    + exists 1%nat. cbn [firstn List.length]. rewrite Nat.add_1_r.
      unfold Spec.token_sum_of. cbn.
      split; [lia|]. split; [lia|]. split; [reflexivity|].
      split; [left; lia | intros m Hm; lia].
    + destruct (IH (window ++ [s])%list (token_sum + tokenizer self s) (S i))
        as (k & Hk & _ & E & T & M).
      exists (S k). rewrite E. cbn [firstn List.length].
      rewrite <- app_assoc. cbn [app].
      replace (S i + k)%nat with (i + S k)%nat by lia.
      assert (C : forall l, Spec.token_sum_of (tokenizer self) (s :: l)
                            = tokenizer self s
                              + Spec.token_sum_of (tokenizer self) l).
      { intros l. unfold Spec.token_sum_of. cbn.
        rewrite token_sum_of_from. unfold Spec.token_sum_of. lia. }
      rewrite C. split; [lia|]. split; [lia|]. split; [|split].
      * now rewrite Z.add_assoc.
      * destruct T as [T|T]; [left; lia | right; lia].
      * intros m Hm. destruct m as [|m]; [lia|]. cbn [firstn]. rewrite C.
        destruct m as [|m].
        -- unfold Spec.token_sum_of. cbn. lia.
        -- specialize (M (S m) ltac:(lia)). lia.
Qed.

End WindowFacts.

(** X1: a window of the split is the shortest run of sentences from the
    cursor whose token counts add up to [TARGET_TOKENS] or more, or the
    run of all remaining sentences when they do not reach it. *)
Theorem window_reaches_target_or_end :
  forall (g : Globals) (self : UniversalChunker) (sentences : list string)
         (i : nat),
    (i < List.length sentences)%nat ->
    exists k,
      (1 <= k <= List.length sentences - i)%nat
      /\ window_at g self sentences i
         = (firstn k (skipn i sentences),
            Spec.token_sum_of (tokenizer self) (firstn k (skipn i sentences)),
            (i + k)%nat)
      /\ (TARGET_TOKENS g
          <= Spec.token_sum_of (tokenizer self)
               (firstn k (skipn i sentences))
          \/ (i + k)%nat = List.length sentences)
      /\ (forall m, (1 <= m < k)%nat ->
                    Spec.token_sum_of (tokenizer self)
                      (firstn m (skipn i sentences))
                    < TARGET_TOKENS g).
Proof.
  intros g self sentences i Hi. unfold window_at.
  destruct (build_window_target g self (skipn i sentences) [] 0 i)
    as (k & Hk & H1 & E & T & M).
  rewrite length_skipn in Hk, T.
  exists k. split; [split|split; [|split]].
  - apply H1. intro N. apply (f_equal (@List.length _)) in N.
    rewrite length_skipn in N. cbn in N. lia.
  - exact Hk.
  - rewrite E. cbn. reflexivity.
  - destruct T as [T|T]; [left; lia | right; lia].
  - intros m Hm. specialize (M m Hm). lia.
Qed.

Lemma window_reaches_target_or_end_witness :
  let self := {| tokenizer := _simple_tokenize |} in
  let sentences := [words 200; words 30; words 5] in
  (0 < List.length sentences)%nat
  /\ exists k, window_at module_globals self sentences 0
               = (firstn k sentences,
                  Spec.token_sum_of (tokenizer self) (firstn k sentences),
                  k).
Proof.
  cbv zeta.
  assert (H : (0 < List.length [words 200; words 30; words 5])%nat)
    by (cbn; lia).
  split; [exact H|].
  destruct (window_reaches_target_or_end module_globals
              {| tokenizer := _simple_tokenize |}
              [words 200; words 30; words 5] 0%nat H)
    as (k & _ & E & _).
  exists k. exact E.
Defined.

Section SplitTrace.

Variable g : Globals.
Variable self : UniversalChunker.
Variable doc : string.
Variable section : SectionT.
Variable p_idx : Z.
Variable sentences : list string.

Lemma split_loop_keeps chunks_list i sub_idx c :
  In c chunks_list ->
  In c (split_loop g self chunks_list doc section p_idx sentences i sub_idx).
Proof.
  intros H.
  destruct (split_loop_emits g self (fun _ => True) doc section p_idx
              sentences (fun _ _ _ => I) (List.length sentences - i)%nat i
              chunks_list sub_idx (Nat.le_refl _)) as (ws & E & _).
  rewrite E. apply in_or_app. now left.
Qed.

Lemma split_loop_covers :
  0 <= SENTENCE_OVERLAP g ->
  forall n i chunks_list sub_idx,
    (List.length sentences - i <= n)%nat ->
    forall j,
      (i <= j < List.length sentences)%nat ->
      exists i' k sub_idx',
        (i' <= j < i' + k)%nat
        /\ (i' + k <= List.length sentences)%nat
        /\ In (window_chunk self doc section p_idx sentences i' k sub_idx')
             (split_loop g self chunks_list doc section p_idx sentences i
                sub_idx).
Proof.
  intros Hov. induction n as [|n IH]; intros i chunks_list sub_idx Hn j Hj;
    [lia|].
  assert (Hi : (i < List.length sentences)%nat) by lia.
  rewrite split_loop_step by exact Hi.
  destruct (next_cursor_spec g self sentences i Hi)
    as (k & window & Hk & Ew & L & E & _ & C & P).
  rewrite E. cbn [fst snd].
  destruct (Nat.lt_ge_cases j (i + k)) as [Hin|Hout].
  - exists i, k, sub_idx. split; [lia|]. split; [lia|].
    apply split_loop_keeps, in_or_app. right. left.
    unfold window_chunk. now rewrite Ew.
  - assert (Hw : window <> [])
      by (intro N; rewrite N in L; cbn in L; lia).
    pose proof (overlap_of_nonneg g window Hov) as O.
    destruct (Nat.ltb_spec (i + k) (List.length sentences)); [|lia].
    apply IH; lia.
Qed.

Lemma seq_succ_map {A : Type} (f : nat -> A) (n : nat) :
  map f (seq 0 (S n)) = f 0%nat :: map (fun m => f (S m)) (seq 0 n).
Proof. cbn. f_equal. now rewrite <- seq_shift, map_map. Qed.

Lemma split_loop_numbers :
  forall n i chunks_list sub_idx,
    (List.length sentences - i <= n)%nat ->
    exists windows,
      split_loop g self chunks_list doc section p_idx sentences i sub_idx
      = (chunks_list ++ windows)%list
      /\ map subchunk_index windows
         = map (fun m => Some (sub_idx + Z.of_nat m))
             (seq 0 (List.length windows))
      /\ ((i < List.length sentences)%nat -> (1 <= List.length windows)%nat)
      /\ (List.length windows <= List.length sentences - i)%nat.
Proof.
  induction n as [|n IH]; intros i chunks_list sub_idx Hn.
  - exists []. rewrite split_loop_done by lia. rewrite app_nil_r.
    cbn. repeat split; lia.
  - destruct (lt_dec i (List.length sentences)) as [Hi|Hi].
    + rewrite split_loop_step by exact Hi.
      pose proof (next_cursor_progress g self sentences i Hi) as P.
      match goal with
      | |- context [split_loop _ _ ?c _ _ _ _ ?j ?s] =>
          destruct (IH j c s) as (ws & E & N & _ & L); [lia | rewrite E]
      end.
      eexists (_ :: ws). rewrite <- app_assoc. cbn [app].
      split; [reflexivity|]. cbn [List.length]. rewrite seq_succ_map.
      cbn [map subchunk_index emitted]. rewrite N.
      split; [|split; [intros _; lia | lia]].
      f_equal; [f_equal; lia|]. apply map_ext. intros m. f_equal. lia.
    + exists []. rewrite split_loop_done by lia. rewrite app_nil_r.
      cbn. repeat split; lia.
Qed.

End SplitTrace.

(** X2: with a sentence overlap that is not negative the split loses no
    sentence: every sentence of the sequence lies in the window of one of
    the chunks the loop emits, whose text is a run of consecutive
    sentences joined by single spaces. *)
Theorem split_covers_every_sentence :
  forall (g : Globals) (self : UniversalChunker) (doc : string)
         (section : SectionT) (p_idx : Z) (sentences : list string) (j : nat),
    0 <= SENTENCE_OVERLAP g ->
    (j < List.length sentences)%nat ->
    exists i k sub_idx,
      (i <= j < i + k)%nat
      /\ (i + k <= List.length sentences)%nat
      /\ In (emitted doc (path section)
               (PyStr.join " " (firstn k (skipn i sentences)))
               (Spec.token_sum_of (tokenizer self)
                  (firstn k (skipn i sentences)))
               "split" p_idx (Some sub_idx))
           (split_loop g self [] doc section p_idx sentences 0 0).
Proof.
  intros g self doc section p_idx sentences j Hov Hj.
  apply (split_loop_covers g self doc section p_idx sentences Hov
           (List.length sentences) 0%nat [] 0); lia.
Qed.

Lemma split_covers_every_sentence_witness :
  let self := {| tokenizer := _simple_tokenize |} in
  let section :=
    {| title := "T"; level := 1; path := ["T"]; content := [];
       subsections := [] |} in
  let sentences := ["One."; "Two."; "Three."] in
  0 <= SENTENCE_OVERLAP module_globals
  /\ (2 < List.length sentences)%nat
  /\ exists c,
      In c (split_loop module_globals self [] "doc" section 0 sentences 0 0)
      /\ chunk_type c = "split".
Proof.
  cbv zeta.
  assert (H0 : 0 <= SENTENCE_OVERLAP module_globals) by (cbn; lia).
  assert (H1 : (2 < List.length ["One."; "Two."; "Three."])%nat)
    by (cbn; lia).
  split; [exact H0 | split; [exact H1|]].
  destruct (split_covers_every_sentence module_globals
              {| tokenizer := _simple_tokenize |} "doc"
              {| title := "T"; level := 1; path := ["T"]; content := [];
                 subsections := [] |} 0 ["One."; "Two."; "Three."] 2%nat
              H0 H1)
    as (i & k & sub_idx & _ & _ & Hin).
  eexists. split; [exact Hin | reflexivity].
Defined.

(** X3: the split of a paragraph appends one chunk per window, none when
    the text has no sentence and otherwise between one and the number of
    sentences; the chunks carry the sub-chunk indices 0, 1, 2, ... in the
    order they are emitted. *)
Theorem split_chunks_are_numbered :
  forall (g : Globals) (self : UniversalChunker) (chunks_list : list Chunk)
         (doc : string) (section : SectionT) (text' : string) (p_idx : Z),
    exists windows,
      _split_long_paragraph g self chunks_list doc section text' p_idx
      = (chunks_list ++ windows)%list
      /\ map subchunk_index windows
         = map (fun m => Some (Z.of_nat m)) (seq 0 (List.length windows))
      /\ (List.length windows <= List.length (_split_sentences text'))%nat
      /\ (windows = [] <-> _split_sentences text' = []).
Proof.
  intros g self chunks_list doc section text' p_idx.
  unfold _split_long_paragraph. cbv zeta.
  destruct (_split_sentences text') as [|s l] eqn:E.
  - exists []. rewrite app_nil_r. cbn. repeat split; auto.
  - destruct (split_loop_numbers g self doc section p_idx (s :: l)
                (List.length (s :: l)) 0%nat chunks_list 0)
      as (ws & Ews & N & P & L); [lia|].
    exists ws. split; [exact Ews|]. split; [exact N|]. split; [lia|].
    split; intros H; [|discriminate H].
    subst ws. cbn in P. lia.
Qed.

(** ** Whitespace *)

Lemma drop_spaces_app (a b : string) :
  drop_spaces (a ++ b) = drop_spaces a ++ drop_spaces b.
Proof.
  induction a as [|c a IH]; cbn; [reflexivity|].
  destruct (PyStr.isspace c); cbn; now rewrite IH.
Qed.

Lemma drop_spaces_lstrip (s : string) :
  drop_spaces (PyStr.lstrip s) = drop_spaces s.
Proof.
  induction s as [|c s IH]; cbn; [reflexivity|].
  destruct (PyStr.isspace c) eqn:E; [exact IH|]. cbn. now rewrite E.
Qed.

Lemma drop_spaces_rstrip (s : string) :
  drop_spaces (PyStr.rstrip s) = drop_spaces s.
Proof.
  induction s as [|c s IH]; cbn; [reflexivity|].
  destruct (PyStr.rstrip s) as [|d r].
  - cbn in IH. rewrite <- IH.
    destruct (PyStr.isspace c) eqn:E; cbn; [reflexivity | now rewrite E].
  - cbn [drop_spaces]. cbn [drop_spaces] in IH. now rewrite IH.
Qed.

Lemma drop_spaces_strip (s : string) :
  drop_spaces (PyStr.strip s) = drop_spaces s.
Proof.
  unfold PyStr.strip. now rewrite drop_spaces_rstrip, drop_spaces_lstrip.
Qed.

Lemma rstrip_idempotent (s : string) :
  PyStr.rstrip (PyStr.rstrip s) = PyStr.rstrip s.
Proof.
  induction s as [|c s IH]; cbn; [reflexivity|].
  destruct (PyStr.rstrip s) as [|d r] eqn:E.
  - destruct (PyStr.isspace c) eqn:Ec; cbn; [reflexivity | now rewrite Ec].
  - change (PyStr.rstrip (String c (String d r)))
      with (match PyStr.rstrip (String d r) with
            | EmptyString =>
                if PyStr.isspace c then EmptyString else String c EmptyString
            | r' => String c r'
            end).
    now rewrite IH.
Qed.

Lemma strip_idempotent (s : string) :
  PyStr.strip (PyStr.strip s) = PyStr.strip s.
Proof.
  unfold PyStr.strip.
  destruct (lstrip_head s) as [E|G].
  - rewrite E. reflexivity.
  - rewrite (lstrip_good _ (rstrip_good _ G)). apply rstrip_idempotent.
Qed.

Lemma lstrip_all_space (s : string) :
  PyStr.lstrip s = EmptyString <-> Spec.all_chars PyStr.isspace s = true.
Proof.
  induction s as [|c s IH]; cbn; [tauto|].
  destruct (PyStr.isspace c); cbn; [exact IH|]. split; discriminate.
Qed.

Lemma rstrip_all_space (s : string) :
  PyStr.rstrip s = EmptyString <-> Spec.all_chars PyStr.isspace s = true.
Proof.
  induction s as [|c s IH]; cbn; [tauto|].
  destruct (PyStr.rstrip s) as [|d r].
  - destruct (PyStr.isspace c); cbn; [tauto|]. split; discriminate.
  - split; [discriminate|]. intros H. apply andb_true_iff in H as [_ H].
    apply IH in H. discriminate H.
Qed.

Lemma all_space_lstrip (s : string) :
  Spec.all_chars PyStr.isspace (PyStr.lstrip s)
  = Spec.all_chars PyStr.isspace s.
Proof.
  induction s as [|c s IH]; cbn; [reflexivity|].
  destruct (PyStr.isspace c) eqn:E; cbn; [exact IH | now rewrite E].
Qed.

Lemma strip_all_space (s : string) :
  PyStr.strip s = EmptyString <-> Spec.all_chars PyStr.isspace s = true.
Proof.
  unfold PyStr.strip. rewrite rstrip_all_space, all_space_lstrip. tauto.
Qed.

(** ** The whitespace tokenizer *)

Lemma count_words_nonneg (s : string) : forall b, 0 <= PyStr.count_words b s.
Proof.
  induction s as [|c s IH]; intros b; cbn; [lia|].
  destruct (PyStr.isspace c); [apply IH|].
  specialize (IH true). destruct b; lia.
Qed.

Lemma count_words_all_space (s : string) :
  forall b, Spec.all_chars PyStr.isspace s = true -> PyStr.count_words b s = 0.
Proof.
  induction s as [|c s IH]; intros b H; cbn in *; [reflexivity|].
  apply andb_true_iff in H as [Hc Hs]. rewrite Hc. now apply IH.
Qed.

Lemma count_words_some_word (s : string) :
  Spec.all_chars PyStr.isspace s = false -> 1 <= PyStr.count_words false s.
Proof.
  induction s as [|c s IH]; intros H;
    cbn [PyStr.count_words Spec.all_chars] in *; [discriminate H|].
  destruct (PyStr.isspace c); cbn [andb] in H; [now apply IH|].
  pose proof (count_words_nonneg s true). lia.
Qed.

Lemma count_words_space_join (a r : string) :
  forall b,
    PyStr.count_words b (a ++ String " " r)
    = PyStr.count_words b a + PyStr.count_words false r.
Proof.
  induction a as [|c a IH]; intros b; cbn [append PyStr.count_words].
  - reflexivity.
  - destruct (PyStr.isspace c); rewrite IH; lia.
Qed.

Lemma count_words_lstrip (s : string) :
  PyStr.count_words false (PyStr.lstrip s) = PyStr.count_words false s.
Proof.
  induction s as [|c s IH]; cbn; [reflexivity|].
  destruct (PyStr.isspace c) eqn:E; [exact IH|]. cbn. now rewrite E.
Qed.

Lemma count_words_rstrip (s : string) :
  forall b, PyStr.count_words b (PyStr.rstrip s) = PyStr.count_words b s.
Proof.
  induction s as [|c s IH]; intros b; cbn; [reflexivity|].
  destruct (PyStr.rstrip s) as [|d r] eqn:E.
  - assert (A : Spec.all_chars PyStr.isspace s = true)
      by (apply rstrip_all_space; exact E).
    destruct (PyStr.isspace c) eqn:Ec; cbn; rewrite ?Ec.
    + now rewrite count_words_all_space.
    + now rewrite count_words_all_space.
  - cbn [PyStr.count_words]. destruct (PyStr.isspace c); now rewrite <- IH.
Qed.

Lemma fold_sum_shift (f : string -> Z) (l : list string) :
  forall a b,
    fold_left (fun sum s => sum + f s) l (a + b)
    = a + fold_left (fun sum s => sum + f s) l b.
Proof.
  induction l as [|y l IH]; intros a b; cbn [fold_left]; [reflexivity|].
  rewrite <- Z.add_assoc. apply IH.
Qed.

Lemma token_sum_of_cons (f : string -> Z) (x : string) (l : list string) :
  Spec.token_sum_of f (x :: l) = f x + Spec.token_sum_of f l.
Proof.
  unfold Spec.token_sum_of. cbn [fold_left].
  rewrite (Z.add_comm 0 (f x)). apply fold_sum_shift.
Qed.

Lemma simple_tokenize_join (l : list string) :
  _simple_tokenize (PyStr.join " " l) = Spec.token_sum_of _simple_tokenize l.
Proof.
  induction l as [|x l IH]; [reflexivity|].
  rewrite token_sum_of_cons, <- IH. unfold _simple_tokenize, PyStr.join.
  destruct l as [|y l]; [cbn; lia|].
  change (String.concat " " (x :: y :: l))
    with (x ++ String " " (String.concat " " (y :: l))).
  apply count_words_space_join.
Qed.

(** X4: the whitespace tokenizer meets the contract of a tokenizer and
    ignores how words are spaced: its count is never negative, it is zero
    exactly for a text that is blank, trimming the text does not change
    it, and the count of texts joined by single spaces is the sum of
    their counts. *)
Theorem simple_tokenizer_counts_words :
  forall (s : string) (l : list string),
    0 <= _simple_tokenize s
    /\ (_simple_tokenize s = 0 <-> PyStr.strip s = EmptyString)
    /\ _simple_tokenize (PyStr.strip s) = _simple_tokenize s
    /\ _simple_tokenize (PyStr.join " " l)
       = Spec.token_sum_of _simple_tokenize l.
Proof.
  intros s l. unfold _simple_tokenize at 1 2 3 4.
  split; [apply count_words_nonneg|]. split; [|split].
  - rewrite strip_all_space. split; intros H.
    + destruct (Spec.all_chars PyStr.isspace s) eqn:E; [reflexivity|].
      apply count_words_some_word in E. lia.
    + now apply count_words_all_space.
  - unfold PyStr.strip. now rewrite count_words_rstrip, count_words_lstrip.
  - apply simple_tokenize_join.
Qed.

(** X5: with the whitespace tokenizer the token count of every chunk of a
    section, of the three types, is the count of the chunk's text: the
    sum a split window accumulates is the count of its joined text. *)
Theorem default_tokenizer_counts_are_exact :
  forall (g : Globals) (doc : string) (section : SectionT),
    Forall (fun c => token_count c = _simple_tokenize (text c))
      (_process_section_content g {| tokenizer := _simple_tokenize |} doc
         section).
Proof.
  intros g doc section.
  apply (_process_section_content_rule g
           {| tokenizer := _simple_tokenize |} doc section _
           (fun _ => True)).
  - intros; exact I.
  - intros; exact I.
  - intros; reflexivity.
  - intros; reflexivity.
  - intros i p j sub_idx _ _ _ Hj. cbn [token_count text emitted].
    destruct (window_at_spec g {| tokenizer := _simple_tokenize |}
                (_split_sentences p) j Hj) as (k & _ & E).
    rewrite E. cbn [fst snd tokenizer]. symmetry. apply simple_tokenize_join.
Qed.

(** ** The sentence segmenter *)

Lemma sentence_break_is_space (before : list ascii) (c : ascii) :
  sentence_break before c = true -> PyStr.isspace c = true.
Proof.
  unfold sentence_break. intros H. now apply andb_true_iff in H as [_ H].
Qed.

Lemma re_split_drop_spaces (s : string) :
  forall before,
    drop_spaces (concat_all (re_split before s)) = drop_spaces s.
Proof.
  induction s as [|c s IH]; intros before; [reflexivity|].
  cbn [re_split]. destruct (sentence_break before c) eqn:E.
  - apply sentence_break_is_space in E.
    cbn [concat_all fold_right append drop_spaces]. rewrite E. apply IH.
  - specialize (IH (c :: before)).
    destruct (re_split (c :: before) s) as [|p ps].
    + cbn in IH |- *. now rewrite <- IH.
    + cbn [concat_all fold_right append drop_spaces] in IH |- *.
      now rewrite IH.
Qed.

Lemma strip_pieces_drop_spaces (pieces : list string) :
  drop_spaces
    (concat_all
       (map PyStr.strip
          (filter (fun s => PyStr.truthy (PyStr.strip s)) pieces)))
  = drop_spaces (concat_all pieces).
Proof.
  induction pieces as [|x pieces IH]; [reflexivity|].
  cbn [filter concat_all fold_right]. fold (concat_all pieces).
  rewrite drop_spaces_app, <- IH, <- (drop_spaces_strip x).
  destruct (PyStr.strip x) eqn:E; cbn [PyStr.truthy]; [reflexivity|].
  cbn [map concat_all fold_right]. rewrite E, drop_spaces_app. reflexivity.
Qed.

Lemma re_split_without_terminal (s : string) :
  forall before,
    lookbehind_final before = false ->
    Spec.all_chars (fun c => negb (is_terminal c)) s = true ->
    re_split before s = [s].
Proof.
  induction s as [|c s IH]; intros before Hb Hs; [reflexivity|].
  cbn [Spec.all_chars] in Hs. apply andb_true_iff in Hs as [Hc Hs].
  cbn [re_split]. unfold sentence_break. rewrite Hb, andb_false_r.
  cbn [andb]. rewrite IH; [reflexivity | | exact Hs].
  unfold lookbehind_final. unfold is_terminal in Hc.
  now apply negb_true_iff in Hc.
Qed.

(** X6: the sentences [_split_sentences] returns are not empty and have
    no whitespace at either end, and segmenting only discards whitespace:
    the characters of the sentences that are not whitespace are those of
    the text, in the same order. *)
Theorem split_sentences_only_drops_whitespace :
  forall (text' : string),
    Forall (fun s => s <> EmptyString /\ PyStr.strip s = s)
      (_split_sentences text')
    /\ drop_spaces (concat_all (_split_sentences text')) = drop_spaces text'.
Proof.
  intros text'. unfold _split_sentences. cbv zeta. split.
  - apply Forall_map, Forall_forall. intros s Hs.
    apply filter_In in Hs as [_ Hs]. split.
    + intro E. rewrite E in Hs. discriminate Hs.
    + apply strip_idempotent.
  - now rewrite strip_pieces_drop_spaces, re_split_drop_spaces.
Qed.

(** X7: a text without a full stop, a question mark or an exclamation
    mark is never cut: it is one sentence, the trimmed text, or no
    sentence when it is blank. *)
Theorem text_without_terminal_is_one_sentence :
  forall (text' : string),
    Spec.all_chars (fun c => negb (is_terminal c)) text' = true ->
    _split_sentences text'
    = if PyStr.truthy (PyStr.strip text') then [PyStr.strip text'] else [].
Proof.
  intros text' H. unfold _split_sentences. cbv zeta.
  rewrite re_split_without_terminal by (reflexivity || exact H).
  cbn [filter]. now destruct (PyStr.truthy (PyStr.strip text')).
Qed.

Lemma text_without_terminal_is_one_sentence_witness :
  Spec.all_chars (fun c => negb (is_terminal c)) "  no end mark here " = true
  /\ _split_sentences "  no end mark here " = ["no end mark here"].
Proof.
  assert (H : Spec.all_chars (fun c => negb (is_terminal c))
                "  no end mark here " = true) by reflexivity.
  split; [exact H|].
  rewrite (text_without_terminal_is_one_sentence "  no end mark here " H).
  reflexivity.
Defined.

(** ** The chunks of a section *)

Section Trace.

Variable g : Globals.
Variable self : UniversalChunker.
Variable doc : string.
Variable section : SectionT.

Lemma split_loop_from_empty p_idx sentences :
  forall n i chunks_list sub_idx,
    (List.length sentences - i <= n)%nat ->
    split_loop g self chunks_list doc section p_idx sentences i sub_idx
    = (chunks_list
       ++ split_loop g self [] doc section p_idx sentences i sub_idx)%list.
Proof.
  induction n as [|n IH]; intros i chunks_list sub_idx Hn.
  - rewrite !split_loop_done by lia. now rewrite app_nil_r.
  - destruct (lt_dec i (List.length sentences)) as [Hi|Hi].
    + rewrite (split_loop_step g self chunks_list),
        (split_loop_step g self []) by exact Hi.
      pose proof (next_cursor_progress g self sentences i Hi) as P.
      rewrite IH by lia. symmetry. rewrite IH by lia.
      now rewrite app_assoc.
    + rewrite !split_loop_done by lia. now rewrite app_nil_r.
Qed.

Lemma _split_long_paragraph_from_empty chunks_list p p_idx :
  _split_long_paragraph g self chunks_list doc section p p_idx
  = (chunks_list ++ _split_long_paragraph g self [] doc section p p_idx)%list.
Proof.
  unfold _split_long_paragraph. cbv zeta.
  destruct (_split_sentences p) as [|s l]; [now rewrite app_nil_r|].
  now apply split_loop_from_empty with (n := List.length (s :: l)).
Qed.

Lemma split_windows_shape (i : nat) (p : string) :
  nth_error (content section) i = Some p ->
  MIN_TOKENS g <= tokenizer self p ->
  MAX_TOKENS g < tokenizer self p ->
  Forall (section_chunk g self doc section)
    (_split_long_paragraph g self [] doc section p (Z.of_nat i)).
Proof.
  intros Hp Hmin Hmax.
  destruct (_split_long_paragraph_emits g self doc section
              (section_chunk g self doc section) [] p (Z.of_nat i))
    as (ws & E & F & _); [|now rewrite E].
  intros j sub_idx Hj.
  destruct (window_at_spec g self (_split_sentences p) j Hj) as (k & Hk & E).
  rewrite E. cbn [fst snd].
  apply (split_shape g self doc section i p j k sub_idx); auto; lia.
Qed.

Lemma string_app_assoc (a b c : string) : (a ++ b) ++ c = a ++ (b ++ c).
Proof. induction a as [|x a IH]; cbn; [reflexivity | now rewrite IH]. Qed.

Lemma join_snoc (sep : string) (l : list string) (x : string) :
  l <> [] ->
  PyStr.join sep (l ++ [x]) = PyStr.join sep l ++ sep ++ x.
Proof.
  unfold PyStr.join. induction l as [|y l IH]; intros H; [congruence|].
  destruct l as [|z l]; [reflexivity|].
  change (String.concat sep ((y :: z :: l) ++ [x]))
    with (y ++ sep ++ String.concat sep ((z :: l) ++ [x])).
  rewrite IH by congruence.
  change (String.concat sep (y :: z :: l))
    with (y ++ sep ++ String.concat sep (z :: l)).
  now rewrite !string_app_assoc.
Qed.

Lemma skipn_nth {A : Type} (l : list A) :
  forall n x, nth_error l n = Some x -> skipn n l = x :: skipn (S n) l.
Proof.
  induction l as [|y l IH]; intros [|n] x H; cbn in *; try discriminate.
  - now injection H as <-.
  - now apply IH.
Qed.

Lemma run_snoc (l : list string) (j k : nat) (x : string) :
  nth_error l (j + k) = Some x ->
  firstn (S k) (skipn j l) = (firstn k (skipn j l) ++ [x])%list.
Proof.
  intros H. apply firstn_succ_snoc. now rewrite nth_error_skipn.
Qed.

Lemma run_member (l : list string) (j k i : nat) (x : string) :
  (j <= i < j + k)%nat -> nth_error l i = Some x ->
  In x (firstn k (skipn j l)).
Proof.
  intros Hi H. apply nth_error_In with (n := (i - j)%nat).
  rewrite nth_error_firstn.
  destruct (Nat.ltb_spec (i - j) k); [|lia].
  rewrite nth_error_skipn. now replace (j + (i - j))%nat with i by lia.
Qed.

Lemma run_length (l : list string) (j k : nat) :
  (j + k <= List.length l)%nat -> List.length (firstn k (skipn j l)) = k.
Proof. intros H. rewrite length_firstn, length_skipn. lia. Qed.

Lemma covered_more i p out more :
  covered g self doc section i p out ->
  covered g self doc section i p (out ++ more).
Proof.
  intros (C1 & C2 & C3). split; [|split].
  - intros H. destruct (C1 H) as (j & k & Hj & Hin).
    exists j, k. split; [exact Hj | apply in_or_app; now left].
  - intros H. apply in_or_app. left. now apply C2.
  - intros H1 H2 c Hc. apply in_or_app. left. now apply C3.
Qed.

Lemma covered_upto_more m out more :
  covered_upto g self doc section m out ->
  covered_upto g self doc section m (out ++ more).
Proof. intros H i p Hi Hp. apply covered_more. now apply H. Qed.

(** Flushing the buffer: the chunk has the merged shape and covers the
    paragraphs of the run. *)
Lemma flush_trace (n : nat) (st : loop_state) (b : string) :
  (n <= List.length (content section))%nat ->
  trace_inv g self doc section n st ->
  buffer_text st = Some b ->
  let out := (chunks st
              ++ [emitted doc (path section) b (tokenizer self b) "merged"
                    (buffer_idx st) None])%list in
  Forall (section_chunk g self doc section) out
  /\ covered_upto g self doc section n out.
Proof.
  intros Hn [F Hb] Eb. rewrite Eb in Hb.
  destruct Hb as (k & Hk & Hidx & Hrun & Hsmall & Hcov).
  cbv zeta. rewrite Hidx, Hrun. split.
  - apply Forall_app. split; [exact F|]. constructor; [|constructor].
    apply merged_shape; [lia | lia | exact Hsmall].
  - intros i p Hi Hp.
    destruct (Nat.lt_ge_cases i (n - k)) as [Hold|Hrun'].
    + apply covered_more. now apply Hcov.
    + assert (S : tokenizer self p < MIN_TOKENS g).
      { rewrite Forall_forall in Hsmall. apply Hsmall.
        apply run_member with (i := i); [lia | exact Hp]. }
      split; [|split]; try (intros; lia).
      intros _. exists (n - k)%nat, k. split; [lia|].
      apply in_or_app. right. now left.
Qed.

Lemma start_buffer_trace (n : nat) (p : string) (out : list Chunk) :
  nth_error (content section) n = Some p ->
  tokenizer self p < MIN_TOKENS g ->
  Forall (section_chunk g self doc section) out ->
  covered_upto g self doc section n out ->
  trace_inv g self doc section (S n)
    {| chunks := out; buffer_text := Some p; buffer_idx := Z.of_nat n |}.
Proof.
  intros Hp Hsmall F C. split; [exact F|]. cbn [buffer_text buffer_idx chunks].
  exists 1%nat. replace (S n - 1)%nat with n by lia.
  assert (R : firstn 1 (skipn n (content section)) = [p])
    by (rewrite (skipn_nth _ _ _ Hp); reflexivity).
  split; [lia|]. split; [reflexivity|]. split; [|split].
  - unfold merged_run. now rewrite R.
  - rewrite R. constructor; [exact Hsmall | constructor].
  - exact C.
Qed.

Lemma process_paragraph_trace (n : nat) (p : string) (st : loop_state) :
  nth_error (content section) n = Some p ->
  trace_inv g self doc section n st ->
  trace_inv g self doc section (S n)
    (process_paragraph g self doc section st (Z.of_nat n, p)).
Proof.
  intros Hp Inv.
  assert (Hn : (n < List.length (content section))%nat)
    by (apply nth_error_Some; congruence).
  unfold process_paragraph.
  destruct (Z.ltb_spec (tokenizer self p) (MIN_TOKENS g)) as [Hsmall|Hbig].
  - destruct (buffer_text st) as [b|] eqn:Eb.
    + destruct (Z.leb_spec (tokenizer self (b ++ blank_line ++ p))
                  (MAX_TOKENS g)) as [Hfit|Hover].
      * destruct Inv as [F Hb]. rewrite Eb in Hb.
        destruct Hb as (k & Hk & Hidx & Hrun & Hs & Hcov).
        split; [exact F|]. cbn [buffer_text buffer_idx chunks].
        exists (S k). replace (S n - S k)%nat with (n - k)%nat by lia.
        assert (R : firstn (S k) (skipn (n - k) (content section))
                    = (firstn k (skipn (n - k) (content section)) ++ [p])%list).
        { apply run_snoc. now replace (n - k + k)%nat with n by lia. }
        split; [lia|]. split; [exact Hidx|]. split; [|split].
        -- unfold merged_run. rewrite R, join_snoc.
           ++ now rewrite Hrun.
           ++ intro N. apply (f_equal (@List.length _)) in N.
              rewrite run_length in N by lia. cbn in N. lia.
        -- rewrite R. apply Forall_app. split; [exact Hs|].
           constructor; [exact Hsmall | constructor].
        -- exact Hcov.
      * destruct (flush_trace n st b ltac:(lia) Inv Eb) as [F C].
        rewrite _emit_chunk_eq. now apply start_buffer_trace.
    + destruct Inv as [F C]. rewrite Eb in C. now apply start_buffer_trace.
  - set (st1 := match buffer_text st with
                | Some buffered => _
                | None => st
                end).
    assert (I1 : Forall (section_chunk g self doc section) (chunks st1)
                 /\ covered_upto g self doc section n (chunks st1)
                 /\ buffer_text st1 = None).
    { subst st1. destruct (buffer_text st) as [b|] eqn:Eb.
      - destruct (flush_trace n st b ltac:(lia) Inv Eb) as [F C].
        cbn [chunks buffer_text]. rewrite _emit_chunk_eq. auto.
      - destruct Inv as [F C]. rewrite Eb in C. auto. }
    destruct I1 as (F1 & C1 & E1).
    destruct (Z.leb_spec (tokenizer self p) (MAX_TOKENS g)) as [Hfit|Hover].
    + split; cbn [chunks buffer_text buffer_idx]; rewrite ?E1.
      * rewrite _emit_chunk_eq. apply Forall_app. split; [exact F1|].
        constructor; [|constructor]. apply paragraph_shape; [exact Hp | lia].
      * rewrite _emit_chunk_eq. intros i q Hi Hq.
        destruct (Nat.eq_dec i n) as [->|Hne].
        -- rewrite Hp in Hq. injection Hq as <-.
           split; [|split]; try (intros; lia).
           intros _. apply in_or_app. right. now left.
        -- apply covered_more, C1; [lia | exact Hq].
    + split; cbn [chunks buffer_text buffer_idx]; rewrite ?E1.
      * rewrite _split_long_paragraph_from_empty. apply Forall_app.
        split; [exact F1|]. apply split_windows_shape; [exact Hp | lia | lia].
      * rewrite _split_long_paragraph_from_empty. intros i q Hi Hq.
        destruct (Nat.eq_dec i n) as [->|Hne].
        -- rewrite Hp in Hq. injection Hq as <-.
           split; [|split]; try (intros; lia).
           intros _ _ c Hc. apply in_or_app. now right.
        -- apply covered_more, C1; [lia | exact Hq].
Qed.

Lemma fold_process_paragraph_trace (rest : list string) :
  forall n st,
    skipn n (content section) = rest ->
    trace_inv g self doc section n st ->
    trace_inv g self doc section (n + List.length rest)
      (fold_left (process_paragraph g self doc section)
         (enumerate_from (Z.of_nat n) rest) st).
Proof.
  induction rest as [|p rest IH]; intros n st Hs Inv;
    cbn [enumerate_from fold_left List.length].
  - now rewrite Nat.add_0_r.
  - assert (Hp : nth_error (content section) n = Some p).
    { rewrite <- (Nat.add_0_r n), <- nth_error_skipn, Hs. reflexivity. }
    replace (Z.of_nat n + 1) with (Z.of_nat (S n)) by lia.
    replace (n + S (List.length rest))%nat with (S n + List.length rest)%nat
      by lia.
    apply IH.
    + rewrite (skipn_nth _ _ _ Hp) in Hs. now injection Hs.
    + now apply process_paragraph_trace.
Qed.

Lemma _process_section_content_trace :
  Forall (section_chunk g self doc section)
    (_process_section_content g self doc section)
  /\ covered_upto g self doc section (List.length (content section))
       (_process_section_content g self doc section).
Proof.
  unfold _process_section_content.
  pose proof (fold_process_paragraph_trace (content section) 0%nat
                initial_state eq_refl) as Inv.
  cbn [Nat.add Z.of_nat] in Inv.
  match type of Inv with
  | ?A -> _ => assert (I0 : A)
  end.
  { split; [constructor|]. cbn. intros i p Hi. lia. }
  specialize (Inv I0). unfold final_flush.
  destruct (buffer_text _) as [b|] eqn:Eb.
  - rewrite _emit_chunk_eq. now apply flush_trace.
  - destruct Inv as [F C]. rewrite Eb in C. split; assumption.
Qed.

End Trace.

(** X8: every chunk of a section has one of three shapes.  A [paragraph]
    chunk is a paragraph of the section, verbatim, with between
    [MIN_TOKENS] and [MAX_TOKENS] tokens.  A [merged] chunk is a run of
    one or more consecutive paragraphs, each below [MIN_TOKENS], joined
    by blank lines, and carries the position of the first.  A [split]
    chunk is a window of consecutive sentences of a paragraph above
    [MAX_TOKENS], joined by single spaces, with the sum of their token
    counts. *)
Theorem section_chunk_shapes :
  forall (g : Globals) (self : UniversalChunker) (doc : string)
         (section : SectionT) (c : Chunk),
    In c (_process_section_content g self doc section) ->
    (exists i p,
        nth_error (content section) i = Some p
        /\ MIN_TOKENS g <= tokenizer self p <= MAX_TOKENS g
        /\ c = emitted doc (path section) p (tokenizer self p) "paragraph"
                 (Z.of_nat i) None)
    \/ (exists j k run,
           (1 <= k)%nat
           /\ (j + k <= List.length (content section))%nat
           /\ run = firstn k (skipn j (content section))
           /\ Forall (fun p => tokenizer self p < MIN_TOKENS g) run
           /\ c = emitted doc (path section) (PyStr.join blank_line run)
                    (tokenizer self (PyStr.join blank_line run)) "merged"
                    (Z.of_nat j) None)
    \/ (exists i p j k window sub_idx,
           nth_error (content section) i = Some p
           /\ MAX_TOKENS g < tokenizer self p
           /\ (1 <= k)%nat
           /\ (j + k <= List.length (_split_sentences p))%nat
           /\ window = firstn k (skipn j (_split_sentences p))
           /\ c = emitted doc (path section) (PyStr.join " " window)
                    (Spec.token_sum_of (tokenizer self) window) "split"
                    (Z.of_nat i) (Some sub_idx)).
Proof.
  intros g self doc section c Hin.
  destruct (_process_section_content_trace g self doc section) as [F _].
  rewrite Forall_forall in F. specialize (F c Hin).
  destruct F as [i p Hp Hb | j k Hk Hj Hs | i p j k sub_idx Hp Hmin Hmax Hk Hj].
  - left. exists i, p. auto.
  - right. left. exists j, k, (firstn k (skipn j (content section))). auto.
  - right. right.
    exists i, p, j, k, (firstn k (skipn j (_split_sentences p))), sub_idx.
    repeat split; auto.
Qed.

Lemma section_chunk_shapes_witness :
  let self := {| tokenizer := _simple_tokenize |} in
  let section :=
    {| title := "T"; level := 1; path := ["T"];
       content := ["alpha beta"; "gamma"]; subsections := [] |} in
  exists c,
    In c (_process_section_content module_globals self "doc" section)
    /\ chunk_type c = "merged".
Proof.
  cbv zeta.
  assert (Hin : In (emitted "doc" ["T"]
                      ("alpha beta" ++ blank_line ++ "gamma") 3 "merged" 0
                      None)
                  (_process_section_content module_globals
                     {| tokenizer := _simple_tokenize |} "doc"
                     {| title := "T"; level := 1; path := ["T"];
                        content := ["alpha beta"; "gamma"];
                        subsections := [] |}))
    by (vm_compute; left; reflexivity).
  eexists. split; [exact Hin|].
  destruct (section_chunk_shapes _ _ _ _ _ Hin)
    as [(i & p & _ & _ & E) | [(j & k & run & _ & _ & _ & _ & E)
                              | (i & p & j & k & w & s & _ & _ & _ & _ & _ & E)]];
    reflexivity.
Defined.

(** X9: no paragraph of a section is lost.  A paragraph below
    [MIN_TOKENS] lies in the run of a [merged] chunk of the section; a
    paragraph within the bounds is a [paragraph] chunk of its own; and
    every window the split of a paragraph above [MAX_TOKENS] yields is
    among the chunks of the section. *)
Theorem section_covers_every_paragraph :
  forall (g : Globals) (self : UniversalChunker) (doc : string)
         (section : SectionT) (i : nat) (p : string),
    nth_error (content section) i = Some p ->
    (tokenizer self p < MIN_TOKENS g ->
     exists j k,
       (j <= i < j + k)%nat
       /\ In (emitted doc (path section)
                (PyStr.join blank_line (firstn k (skipn j (content section))))
                (tokenizer self
                   (PyStr.join blank_line
                      (firstn k (skipn j (content section)))))
                "merged" (Z.of_nat j) None)
            (_process_section_content g self doc section))
    /\ (MIN_TOKENS g <= tokenizer self p <= MAX_TOKENS g ->
        In (emitted doc (path section) p (tokenizer self p) "paragraph"
              (Z.of_nat i) None)
          (_process_section_content g self doc section))
    /\ (MAX_TOKENS g < tokenizer self p ->
        MIN_TOKENS g <= tokenizer self p ->
        forall c,
          In c (_split_long_paragraph g self [] doc section p (Z.of_nat i)) ->
          In c (_process_section_content g self doc section)).
Proof.
  intros g self doc section i p Hp.
  destruct (_process_section_content_trace g self doc section) as [_ C].
  apply (C i p); [|exact Hp]. apply nth_error_Some. congruence.
Qed.

Lemma section_covers_every_paragraph_witness :
  let self := {| tokenizer := _simple_tokenize |} in
  let section :=
    {| title := "T"; level := 1; path := ["T"];
       content := ["alpha beta"; words 100]; subsections := [] |} in
  nth_error (content section) 1 = Some (words 100)
  /\ In (emitted "doc" ["T"] (words 100) 100 "paragraph" 1 None)
       (_process_section_content module_globals self "doc" section).
Proof.
  cbv zeta. split; [reflexivity|].
  apply (proj1 (proj2 (section_covers_every_paragraph module_globals
                         {| tokenizer := _simple_tokenize |} "doc"
                         {| title := "T"; level := 1; path := ["T"];
                            content := ["alpha beta"; words 100];
                            subsections := [] |} 1%nat (words 100)
                         eq_refl))).
  split; apply Z.leb_le; vm_compute; reflexivity.
Defined.

(** X10: the fields of the chunks of a section.  Every chunk carries the
    document id and the path of the section; its paragraph index is a
    position of the section's content; its type is one of the three; and
    it has a sub-chunk index exactly when it is a [split] chunk. *)
Theorem section_chunk_fields :
  forall (g : Globals) (self : UniversalChunker) (doc : string)
         (section : SectionT) (c : Chunk),
    In c (_process_section_content g self doc section) ->
    article_id c = doc
    /\ section_path c = path section
    /\ 0 <= paragraph_index c < PyStr.len (content section)
    /\ (chunk_type c = "paragraph" \/ chunk_type c = "merged"
        \/ chunk_type c = "split")
    /\ (subchunk_index c = None <-> chunk_type c <> "split").
Proof.
  intros g self doc section c Hin.
  destruct (_process_section_content_trace g self doc section) as [F _].
  rewrite Forall_forall in F. specialize (F c Hin). unfold PyStr.len.
  destruct F as [i p Hp Hb | j k Hk Hj Hs | i p j k sub_idx Hp Hmin Hmax Hk Hj];
    cbn [article_id section_path paragraph_index chunk_type subchunk_index
         emitted window_chunk].
  - assert (i < List.length (content section))%nat
      by (apply nth_error_Some; congruence).
    repeat split; try lia; try discriminate; auto.
  - repeat split; try lia; try discriminate; auto.
  - assert (i < List.length (content section))%nat
      by (apply nth_error_Some; congruence).
    repeat split; try lia; try discriminate; auto.
    intros N. now contradiction N.
Qed.

Lemma section_chunk_fields_witness :
  let self := {| tokenizer := _simple_tokenize |} in
  let section :=
    {| title := "T"; level := 1; path := ["T"];
       content := ["alpha beta"; "gamma"]; subsections := [] |} in
  let c := emitted "doc" ["T"] ("alpha beta" ++ blank_line ++ "gamma") 3
             "merged" 0 None in
  In c (_process_section_content module_globals self "doc" section)
  /\ 0 <= paragraph_index c < 2.
Proof.
  cbv zeta.
  assert (Hin : In (emitted "doc" ["T"]
                      ("alpha beta" ++ blank_line ++ "gamma") 3 "merged" 0
                      None)
                  (_process_section_content module_globals
                     {| tokenizer := _simple_tokenize |} "doc"
                     {| title := "T"; level := 1; path := ["T"];
                        content := ["alpha beta"; "gamma"];
                        subsections := [] |}))
    by (vm_compute; left; reflexivity).
  split; [exact Hin|].
  exact (proj1 (proj2 (proj2 (section_chunk_fields _ _ _ _ _ Hin)))).
Defined.

(** ** Identity inside a section *)

Lemma NoDup_map_injective {A B : Type} (f : A -> B) (l : list A) :
  (forall x y, In x l -> In y l -> f x = f y -> x = y) ->
  NoDup l -> NoDup (map f l).
Proof.
  intros Hinj N. induction N as [|x l Hx N IH]; cbn; constructor.
  - intros Hin. apply in_map_iff in Hin as (y & E & Hy).
    apply Hx. rewrite (Hinj x y); auto; [now left | now right].
  - apply IH. intros a b Ha Hb. apply Hinj; now right.
Qed.

Lemma keys_append (x : Z) (l ws : list Chunk) :
  NoDup (map identity_key l) ->
  NoDup (map identity_key ws) ->
  Forall (fun c => paragraph_index c < x) l ->
  Forall (fun c => paragraph_index c = x) ws ->
  NoDup (map identity_key (l ++ ws)).
Proof.
  intros Nl Nw Fl Fw. rewrite map_app. apply NoDup_app; auto.
  intros key Hl Hw.
  apply in_map_iff in Hl as (c & <- & Hc).
  apply in_map_iff in Hw as (w & E & Hw).
  rewrite Forall_forall in Fl, Fw. specialize (Fl c Hc). specialize (Fw w Hw).
  unfold identity_key in E. injection E as E _. lia.
Qed.

Section Keys.

Variable g : Globals.
Variable self : UniversalChunker.
Variable doc : string.
Variable section : SectionT.

Lemma split_windows_keys (p : string) (p_idx : Z) :
  NoDup (map identity_key
           (_split_long_paragraph g self [] doc section p p_idx))
  /\ Forall (fun c => paragraph_index c = p_idx)
       (_split_long_paragraph g self [] doc section p p_idx).
Proof.
  unfold _split_long_paragraph. cbv zeta.
  destruct (_split_sentences p) as [|s l]; [split; constructor|].
  destruct (split_loop_numbers g self doc section p_idx (s :: l)
              (List.length (s :: l)) 0%nat [] 0 (Nat.le_sub_l _ _))
    as (ws & E & N & _).
  destruct (split_loop_emits g self (fun c => paragraph_index c = p_idx) doc
              section p_idx (s :: l) (fun _ _ _ => eq_refl)
              (List.length (s :: l)) 0%nat [] 0 (Nat.le_sub_l _ _))
    as (ws' & E' & F & _).
  rewrite E in E' |- *. cbn [app] in E' |- *. subst ws'.
  split; [|exact F].
  apply (NoDup_map_inv snd). rewrite map_map. cbn [identity_key snd].
  change (map (fun c => subchunk_index c) ws) with (map subchunk_index ws).
  rewrite N. apply NoDup_map_injective; [|apply seq_NoDup].
  intros a b _ _ H. injection H as H. lia.
Qed.

Lemma process_paragraph_keys (n : Z) (st : loop_state) (p : string) :
  keys_inv n st ->
  keys_inv (n + 1) (process_paragraph g self doc section st (n, p)).
Proof.
  intros (N & L & Hb). unfold process_paragraph.
  assert (L1 : Forall (fun c => paragraph_index c < n + 1) (chunks st))
    by (eapply Forall_impl; [|exact L]; cbn; intros; lia).
  assert (Flush : forall b,
             buffer_text st = Some b ->
             let out := (chunks st
                         ++ [emitted doc (path section) b (tokenizer self b)
                               "merged" (buffer_idx st) None])%list in
             NoDup (map identity_key out)
             /\ Forall (fun c => paragraph_index c < n) out).
  { intros b Eb. destruct (Hb b Eb) as [Hidx Hlt]. cbv zeta. split.
    - apply keys_append with (x := buffer_idx st);
        [exact N | | exact Hlt | ].
      + cbn. constructor; [intros [] | constructor].
      + constructor; [reflexivity | constructor].
    - apply Forall_app. split; [exact L|].
      constructor; [exact Hidx | constructor]. }
  destruct (tokenizer self p <? MIN_TOKENS g).
  - destruct (buffer_text st) as [b|] eqn:Eb.
    + destruct (Hb b eq_refl) as [Hidx Hlt].
      destruct (_ <=? _); unfold keys_inv; cbn [chunks buffer_text buffer_idx].
      * split; [exact N|]. split; [exact L1|].
        intros _ _. split; [lia | exact Hlt].
      * rewrite _emit_chunk_eq. destruct (Flush b eq_refl) as [N' L'].
        split; [exact N'|]. split.
        -- eapply Forall_impl; [|exact L']. cbn. intros; lia.
        -- intros _ _. split; [lia | exact L'].
    + unfold keys_inv; cbn [chunks buffer_text buffer_idx].
      split; [exact N|]. split; [exact L1|].
      intros _ _. split; [lia | exact L].
  - set (st1 := match buffer_text st with
                | Some buffered => _
                | None => st
                end).
    assert (I1 : NoDup (map identity_key (chunks st1))
                 /\ Forall (fun c => paragraph_index c < n) (chunks st1)
                 /\ buffer_text st1 = None).
    { subst st1. destruct (buffer_text st) as [b|] eqn:Eb.
      - cbn [chunks buffer_text]. rewrite _emit_chunk_eq.
        destruct (Flush b eq_refl) as [N' L']. auto.
      - auto. }
    destruct I1 as (N1 & B1 & E1).
    destruct (_ <=? _); unfold keys_inv; cbn [chunks buffer_text buffer_idx];
      rewrite E1.
    + rewrite _emit_chunk_eq. split; [|split].
      * apply keys_append with (x := n); [exact N1 | | exact B1 | ].
        -- cbn. constructor; [intros [] | constructor].
        -- constructor; [reflexivity | constructor].
      * apply Forall_app. split.
        -- eapply Forall_impl; [|exact B1]. cbn. intros; lia.
        -- constructor; [cbn; lia | constructor].
      * intros b Eb. discriminate Eb.
    + rewrite (_split_long_paragraph_from_empty g self doc section).
      destruct (split_windows_keys p n) as [Nw Fw].
      split; [|split].
      * apply keys_append with (x := n); auto.
      * apply Forall_app. split.
        -- eapply Forall_impl; [|exact B1]. cbn. intros; lia.
        -- eapply Forall_impl; [|exact Fw]. cbn. intros; lia.
      * intros b Eb. discriminate Eb.
Qed.

Lemma fold_process_paragraph_keys (l : list string) :
  forall n st,
    keys_inv n st ->
    keys_inv (n + PyStr.len l)
      (fold_left (process_paragraph g self doc section)
         (enumerate_from n l) st).
Proof.
  induction l as [|p l IH]; intros n st H; cbn [enumerate_from fold_left].
  - unfold PyStr.len. cbn [List.length Z.of_nat]. now rewrite Z.add_0_r.
  - replace (n + PyStr.len (p :: l)) with ((n + 1) + PyStr.len l)
      by (unfold PyStr.len; cbn [List.length]; lia).
    apply IH, process_paragraph_keys, H.
Qed.

Lemma _process_section_content_keys :
  NoDup (map identity_key (_process_section_content g self doc section)).
Proof.
  unfold _process_section_content.
  pose proof (fold_process_paragraph_keys (content section) 0 initial_state)
    as H.
  destruct H as (N & L & Hb).
  { unfold keys_inv, initial_state; cbn.
    split; [constructor|]. split; [constructor | discriminate]. }
  unfold final_flush.
  destruct (buffer_text _) as [b|] eqn:Eb; [|exact N].
  destruct (Hb b eq_refl) as [_ Hlt]. rewrite _emit_chunk_eq.
  apply keys_append with (x := buffer_idx
      (fold_left (process_paragraph g self doc section)
         (enumerate_from 0 (content section)) initial_state));
    [exact N | | exact Hlt | ].
  - cbn. constructor; [intros [] | constructor].
  - constructor; [reflexivity | constructor].
Qed.

End Keys.

Lemma string_of_uint_no_bar (d : Decimal.uint) :
  Spec.all_chars no_bar (NilEmpty.string_of_uint d) = true.
Proof. induction d; cbn; auto. Qed.

Lemma str_of_int_no_bar (n : Z) :
  Spec.all_chars no_bar (PyStr.str_of_int n) = true.
Proof.
  unfold PyStr.str_of_int, NilZero.string_of_int, NilZero.string_of_uint.
  destruct (Z.to_int n) as [d|d]; destruct d; cbn;
    try reflexivity; apply string_of_uint_no_bar.
Qed.

Lemma to_int_not_nil (n : Z) :
  Z.to_int n <> Decimal.Pos Decimal.Nil
  /\ Z.to_int n <> Decimal.Neg Decimal.Nil.
Proof.
  destruct n as [|p|p]; cbn; split; try discriminate;
    intros E; injection E as E; exact (Unsigned.to_uint_nonnil p E).
Qed.

Lemma str_of_int_injective (a b : Z) :
  PyStr.str_of_int a = PyStr.str_of_int b -> a = b.
Proof.
  unfold PyStr.str_of_int. intros E.
  destruct (to_int_not_nil a) as [A1 A2].
  destruct (to_int_not_nil b) as [B1 B2].
  pose proof (NilZero.isi (Z.to_int a) A1 A2) as Ia.
  pose proof (NilZero.isi (Z.to_int b) B1 B2) as Ib.
  rewrite E, Ib in Ia. injection Ia as Ia. symmetry. now apply to_int_inj.
Qed.

Lemma split_at_bar (a a' r r' : string) :
  Spec.all_chars no_bar a = true -> Spec.all_chars no_bar a' = true ->
  a ++ "|" ++ r = a' ++ "|" ++ r' -> a = a' /\ r = r'.
Proof.
  revert a'. induction a as [|c a IH]; intros [|c' a'] Ha Ha' E;
    cbn in Ha, Ha', E.
  - injection E as E. auto.
  - injection E as <- _. cbn in Ha'. discriminate Ha'.
  - injection E as -> _. cbn in Ha. discriminate Ha.
  - injection E as <- E.
    apply andb_true_iff in Ha as [_ Ha]. apply andb_true_iff in Ha' as [_ Ha'].
    destruct (IH a' Ha Ha' E) as [-> ->]. auto.
Qed.

Lemma canonical_string_injective doc section_path' (i i' : Z)
    (s s' : option Z) :
  Spec.canonical_string doc section_path' i s
  = Spec.canonical_string doc section_path' i' s' ->
  i = i' /\ s = s'.
Proof.
  unfold Spec.canonical_string. intros E.
  do 4 apply append_cancel_l in E.
  apply split_at_bar in E as [Ei Es]; try apply str_of_int_no_bar.
  apply str_of_int_injective in Ei. split; [exact Ei|].
  destruct s as [k|], s' as [k'|].
  - apply str_of_int_injective in Es. now subst.
  - exfalso. exact (str_of_int_nonempty k Es).
  - exfalso. symmetry in Es. exact (str_of_int_nonempty k' Es).
  - reflexivity.
Qed.

(** X11: inside a section no two chunks share the pair of paragraph index
    and sub-chunk index, so the strings [_emit_chunk] hashes into the
    identifiers of the chunks of a section are all different. *)
Theorem section_raw_ids_are_distinct :
  forall (g : Globals) (self : UniversalChunker) (doc : string)
         (section : SectionT),
    NoDup (map identity_key (_process_section_content g self doc section))
    /\ NoDup (map raw_id (_process_section_content g self doc section))
    /\ Forall (fun c => chunk_id c
                        = substring 0 16
                            (MD5.hexdigest (PyStr.encode_utf8 (raw_id c))))
         (_process_section_content g self doc section).
Proof.
  intros g self doc section.
  pose proof (_process_section_content_keys g self doc section) as N.
  assert (F : Forall (fun c => article_id c = doc
                               /\ section_path c = path section
                               /\ chunk_id c
                                  = Spec.derive_id (article_id c)
                                      (section_path c) (paragraph_index c)
                                      (subchunk_index c))
                (_process_section_content g self doc section)).
  { apply (_process_section_content_rule g self doc section _
             (fun _ => True)).
    - intros; exact I.
    - intros; exact I.
    - intros; cbn; auto.
    - intros; cbn; auto.
    - intros; cbn; auto. }
  split; [exact N|]. split.
  - rewrite Forall_forall in F.
    apply (NoDup_map_inv identity_key) in N as N0.
    apply NoDup_map_injective; [|exact N0].
    intros x y Hx Hy E. unfold raw_id in E.
    destruct (F x Hx) as (Ax & Px & _). destruct (F y Hy) as (Ay & Py & _).
    rewrite Ax, Px, Ay, Py in E.
    apply canonical_string_injective in E as [Ei Es].
    assert (K : identity_key x = identity_key y)
      by (unfold identity_key; now rewrite Ei, Es).
    clear -N Hx Hy K. revert N Hx Hy K.
    generalize (_process_section_content g self doc section) as l.
    induction l as [|z l IH]; intros N Hx Hy K; [contradiction|].
    cbn in N. inversion N as [|? ? Hz N']; subst.
    destruct Hx as [->|Hx], Hy as [->|Hy]; auto.
    + exfalso. apply Hz. rewrite K. now apply in_map.
    + exfalso. apply Hz. rewrite <- K. now apply in_map.
  - eapply Forall_impl; [|exact F]. cbn. intros c (_ & _ & E). exact E.
Qed.

(** ** The traversal *)

Lemma fold_left_app_flat_map {A B : Type} (f : A -> list B) (l : list A) :
  forall init,
    fold_left (fun acc x => (acc ++ f x)%list) l init
    = (init ++ flat_map f l)%list.
Proof.
  induction l as [|x l IH]; intros init; cbn; [now rewrite app_nil_r|].
  now rewrite IH, app_assoc.
Qed.

Lemma flat_map_flat_map {A B C : Type} (f : B -> list C) (h : A -> list B)
    (l : list A) :
  flat_map f (flat_map h l) = flat_map (fun x => flat_map f (h x)) l.
Proof.
  induction l as [|x l IH]; cbn; [reflexivity|].
  now rewrite flat_map_app, IH.
Qed.

Lemma _recursive_chunk_process_preorder g self doc section :
  _recursive_chunk_process g self doc section
  = flat_map (_process_section_content g self doc) (preorder section).
Proof.
  induction section as [t l p c subs IH] using SectionT_ind'.
  cbn [_recursive_chunk_process preorder flat_map].
  rewrite fold_left_app_flat_map, flat_map_flat_map. f_equal.
  induction IH as [|s subs Hs _ IHsubs]; cbn; [reflexivity|].
  now rewrite Hs, IHsubs.
Qed.

(** X12: [chunk_article] returns the chunks of the sections of the parsed
    tree one section after the other, a section before its subsections
    and these in document order; so every chunk comes from one section of
    the tree, carries the path of that section and the id of the
    document, and no chunk spans two sections. *)
Theorem chunk_article_is_preorder_concatenation :
  forall (g : Globals) (self : UniversalChunker) (doc markdown : string),
    chunk_article g self doc markdown
    = flat_map (_process_section_content g self doc)
        (preorder (_parse_markdown_structure markdown))
    /\ Forall (fun c =>
                 article_id c = doc
                 /\ exists section,
                     In section (preorder (_parse_markdown_structure markdown))
                     /\ In c (_process_section_content g self doc section)
                     /\ section_path c = path section)
         (chunk_article g self doc markdown).
Proof.
  intros g self doc markdown.
  assert (E : chunk_article g self doc markdown
              = flat_map (_process_section_content g self doc)
                  (preorder (_parse_markdown_structure markdown)))
    by apply _recursive_chunk_process_preorder.
  split; [exact E|]. rewrite E. apply Forall_forall. intros c Hc.
  apply in_flat_map in Hc as (section & Hs & Hc).
  pose proof (_process_section_content_trace g self doc section) as [F _].
  rewrite Forall_forall in F. specialize (F c Hc).
  split.
  - destruct F; reflexivity.
  - exists section. split; [exact Hs|]. split; [exact Hc|].
    destruct F; reflexivity.
Qed.

(** ** The tree the parser builds *)

Lemma reify_preorder_Forall (Q : SectionT -> Prop) (heap : list SectionObj) :
  (forall fuel ref, Q (reify fuel heap ref)) ->
  forall fuel ref, Forall Q (preorder (reify fuel heap ref)).
Proof.
  intros HQ. induction fuel as [|fuel IH]; intros ref.
  - pose proof (HQ O ref) as H0. cbn in H0 |- *.
    destruct (nth_error heap ref); cbn; constructor; auto.
  - pose proof (HQ (S fuel) ref) as H0. rewrite reify_succ in H0 |- *.
    destruct (nth_error heap ref) as [o|]; cbn [preorder];
      [|constructor; [exact H0 | constructor]].
    constructor; [exact H0|].
    apply Forall_forall. intros s Hs.
    apply in_flat_map in Hs as (child & Hc & Hs).
    apply in_map_iff in Hc as (c & <- & _).
    specialize (IH c). rewrite Forall_forall in IH. now apply IH.
Qed.

Lemma modify_same_header (f : SectionObj -> SectionObj)
    (heap : list SectionObj) (i ref : nat) (o : SectionObj) :
  (forall x, same_header x (f x)) ->
  nth_error heap ref = Some o ->
  exists o', nth_error (modify i f heap) ref = Some o' /\ same_header o o'
             /\ (ref <> i -> o' = o) /\ (ref = i -> o' = f o).
Proof.
  intros Hf H. rewrite nth_error_modify, H.
  destruct (Nat.eqb_spec ref i) as [->|N]; cbn.
  - exists (f o). repeat split; try apply Hf; congruence.
  - exists o. repeat split; congruence.
Qed.

Lemma append_content_same_header p x : same_header x (append_content p x).
Proof. repeat split. Qed.

Lemma append_subsection_same_header c x :
  same_header x (append_subsection c x).
Proof. repeat split. Qed.

Lemma obj_child_ok_same heap heap' o o' c :
  same_header o o' ->
  (forall ref x, nth_error heap ref = Some x ->
                 exists x', nth_error heap' ref = Some x' /\ same_header x x') ->
  obj_child_ok heap o c -> obj_child_ok heap' o' c.
Proof.
  intros (_ & Hl & Hp) Hh (oc & Hc & H1 & H2 & H3).
  destruct (Hh c oc Hc) as (oc' & Hc' & Ht' & Hl' & Hp').
  exists oc'. rewrite <- Hl, <- Hp, <- Hl', <- Hp', <- Ht'. auto.
Qed.

Lemma flush_paragraph_nesting (st : parse_state) :
  nesting_ok st -> nesting_ok (flush_paragraph st).
Proof.
  intros (C & (root & Hroot & Rh) & L). unfold flush_paragraph.
  destruct (current_paragraph_lines st) as [|l ls];
    [split; [exact C | split; [eauto | exact L]]|].
  destruct (PyStr.truthy _);
    [|split; [exact C | split; [eauto | exact L]]].
  assert (K : forall ref x,
             nth_error (heap st) ref = Some x ->
             exists x',
               nth_error (modify (current_section st)
                            (append_content
                               (PyStr.strip (PyStr.join " " (l :: ls))))
                            (heap st)) ref = Some x'
               /\ same_header x x').
  { intros ref x Hx.
    destruct (modify_same_header
                (append_content (PyStr.strip (PyStr.join " " (l :: ls))))
                (heap st) (current_section st) ref x
                (append_content_same_header _) Hx) as (x' & E & S & _).
    eauto. }
  unfold nesting_ok. cbn [heap section_stack]. split; [|split].
  - intros ref o Ho. rewrite nth_error_modify in Ho.
    destruct (nth_error (heap st) ref) as [o0|] eqn:E0;
      [|destruct (Nat.eqb ref (current_section st)); discriminate Ho].
    assert (S : same_header o0 o /\ o_subsections o = o_subsections o0).
    { destruct (Nat.eqb ref (current_section st)); cbn in Ho;
        injection Ho as <-; repeat split. }
    destruct S as [S ->].
    eapply Forall_impl; [|exact (C ref o0 E0)].
    intros c. now apply obj_child_ok_same.
  - destruct (K O root Hroot) as (root' & E & S).
    exists root'. split; [exact E|].
    destruct S as (S1 & S2 & S3), Rh as (R1 & R2 & R3).
    repeat split; congruence.
  - exact L.
Qed.

Lemma header_match_level (line : string) (lvl : Z) (group2 : string) :
  header_match line = Some (lvl, group2) -> 1 <= lvl.
Proof.
  unfold header_match. destruct (leading_hashes line) as [[|n] rest];
    [discriminate|].
  destruct rest as [|c rest]; [discriminate|].
  destruct (PyStr.isspace c); [|discriminate].
  intros H. injection H as <- _. lia.
Qed.

Lemma pop_to_parent_head (heap : list SectionObj) (lvl : Z)
    (stack : list nat) :
  stack <> [] ->
  last stack O = O -> level_of heap O = 0 -> 1 <= lvl ->
  let popped := pop_to_parent heap lvl stack in
  popped <> [] /\ last popped O = O /\ level_of heap (hd O popped) < lvl.
Proof.
  intros N L R H. induction stack as [|top below IH]; [congruence|].
  cbn [pop_to_parent]. destruct below as [|next below].
  - cbn in L. subst top. cbv zeta. cbn. repeat split; [congruence | lia].
  - destruct (Z.geb_spec (level_of heap top) lvl) as [Hge|Hlt].
    + apply IH; [congruence | exact L].
    + cbv zeta. repeat split; [congruence | exact L | cbn; lia].
Qed.

Lemma last_cons_nonempty {A : Type} (x : A) (l : list A) (d : A) :
  l <> [] -> last (x :: l) d = last l d.
Proof. destruct l; [congruence | reflexivity]. Qed.

Lemma parse_line_nesting (st : parse_state) (line : string) :
  parse_ok st -> nesting_ok st -> nesting_ok (parse_line st line).
Proof.
  intros Hok H. unfold parse_line. cbv zeta.
  destruct (negb _); [now apply flush_paragraph_nesting|].
  destruct (header_match _) as [[lvl group2]|] eqn:Em.
  - apply header_match_level in Em.
    apply flush_paragraph_keeps_store in Hok.
    apply flush_paragraph_nesting in H.
    destruct Hok as (S & K & N & Cur).
    destruct H as (C & (root & Hroot & Rh) & L).
    set (st' := flush_paragraph st) in *.
    assert (R0 : level_of (heap st') O = 0)
      by (unfold level_of; rewrite Hroot; apply Rh).
    destruct (pop_to_parent_head (heap st') lvl (section_stack st') N L R0 Em)
      as (Np & Lp & Hp).
    destruct (pop_to_parent_keeps (heap st') lvl (section_stack st')
                (fun ref => (ref < List.length (heap st'))%nat) K N)
      as [Kp _].
    set (stack := pop_to_parent _ _ _) in *.
    set (parent := hd O stack) in *.
    assert (Pv : (parent < List.length (heap st'))%nat)
      by (subst parent; destruct stack; [congruence | now inversion Kp]).
    destruct (nth_error (heap st') parent) as [po|] eqn:Epo;
      [|apply nth_error_None in Epo; lia].
    assert (Pl : o_level po < lvl)
      by (unfold level_of in Hp; now rewrite Epo in Hp).
    set (title' := PyStr.strip group2).
    set (new := {| o_title := title'; o_level := lvl;
                   o_path := (child_base (o_path po) ++ [title'])%list;
                   o_content := []; o_subsections := [] |}).
    assert (Epath : path_of (heap st') parent = o_path po)
      by (unfold path_of; now rewrite Epo).
    rewrite Epath. fold (child_base (o_path po)). fold title'. fold new.
    set (heap' := (modify parent (append_subsection (List.length (heap st')))
                     (heap st') ++ [new])%list).
    assert (Old : forall ref x,
               nth_error (heap st') ref = Some x ->
               exists x', nth_error heap' ref = Some x' /\ same_header x x'
                          /\ (ref <> parent -> x' = x)
                          /\ (ref = parent ->
                              x' = append_subsection
                                     (List.length (heap st')) x)).
    { intros ref x Hx.
      destruct (modify_same_header
                  (append_subsection (List.length (heap st'))) (heap st')
                  parent ref x (append_subsection_same_header _) Hx)
        as (x' & E & Sh & A & B).
      exists x'. split; [|auto]. subst heap'.
      rewrite nth_error_app1; [exact E|].
      rewrite length_modify. apply nth_error_Some. congruence. }
    assert (Old' : forall ref x,
               nth_error (heap st') ref = Some x ->
               exists x', nth_error heap' ref = Some x' /\ same_header x x')
      by (intros ref x Hx; destruct (Old ref x Hx) as (x' & E & Sh & _); eauto).
    assert (New : nth_error heap' (List.length (heap st')) = Some new).
    { subst heap'. rewrite nth_error_app2 by (rewrite length_modify; lia).
      rewrite length_modify, Nat.sub_diag. reflexivity. }
    unfold nesting_ok. cbn [heap section_stack]. split; [|split].
    + intros ref o Ho.
      destruct (Nat.lt_ge_cases ref (List.length (heap st'))) as [Hr|Hr].
      * destruct (nth_error (heap st') ref) as [o0|] eqn:E0;
          [|apply nth_error_None in E0; lia].
        destruct (Old ref o0 E0) as (o' & E' & Sh & A & B).
        rewrite Ho in E'. injection E' as <-.
        assert (F0 : Forall (obj_child_ok heap' o) (o_subsections o0)).
        { eapply Forall_impl; [|exact (C ref o0 E0)].
          intros c. now apply obj_child_ok_same. }
        destruct (Nat.eq_dec ref parent) as [->|Hne].
        -- rewrite (B eq_refl). rewrite (B eq_refl) in F0.
           cbn [o_subsections append_subsection]. apply Forall_app.
           split; [exact F0|]. constructor; [|constructor].
           exists new. rewrite Epo in E0. injection E0 as <-.
           cbn [o_level o_path o_title append_subsection new].
           repeat split; auto.
        -- now rewrite (A Hne) in F0 |- *.
      * subst heap'.
        rewrite nth_error_app2 in Ho by (rewrite length_modify; exact Hr).
        rewrite length_modify in Ho.
        destruct (ref - List.length (heap st'))%nat as [|d]; cbn in Ho.
        -- injection Ho as <-. constructor.
        -- destruct d; discriminate Ho.
    + destruct (Old' O root Hroot) as (root' & E & Sh).
      exists root'. split; [exact E|].
      destruct Sh as (S1 & S2 & S3), Rh as (R1 & R2 & R3).
      repeat split; congruence.
    + rewrite last_cons_nonempty by exact Np. exact Lp.
  - destruct H as (C & R & L). split; [exact C | split; [exact R | exact L]].
Qed.

Lemma parse_lines_nesting (lines : list string) :
  forall st,
    parse_ok st -> nesting_ok st ->
    nesting_ok (fold_left parse_line lines st).
Proof.
  induction lines as [|line lines IH]; intros st Hok H; cbn; [exact H|].
  apply IH; [now apply parse_line_keeps_store | now apply parse_line_nesting].
Qed.

Lemma reify_header (fuel : nat) (heap : list SectionObj) (ref : nat)
    (o : SectionObj) :
  nth_error heap ref = Some o ->
  title (reify fuel heap ref) = o_title o
  /\ level (reify fuel heap ref) = o_level o
  /\ path (reify fuel heap ref) = o_path o
  /\ content (reify fuel heap ref) = o_content o.
Proof. intros H. destruct fuel; cbn; rewrite H; cbn; auto. Qed.

Lemma parse_final_state (markdown : string) :
  let st := flush_paragraph
              (fold_left parse_line
                 (PyStr.split_char PyStr.newline markdown) parse_start) in
  parse_ok st /\ nesting_ok st
  /\ _parse_markdown_structure markdown
     = reify (List.length (heap st)) (heap st) O.
Proof.
  cbv zeta.
  assert (P0 : parse_ok parse_start).
  { unfold parse_ok, parse_start, store_ok. cbn.
    repeat split; try congruence; try lia.
    - intros [|ref] o E; cbn in E.
      + injection E as <-. constructor.
      + destruct ref; discriminate E.
    - constructor; [lia | constructor]. }
  assert (N0 : nesting_ok parse_start).
  { unfold nesting_ok, parse_start. cbn. split; [|split].
    - intros [|ref] o E; cbn in E.
      + injection E as <-. constructor.
      + destruct ref; discriminate E.
    - exists root_obj. repeat split.
    - reflexivity. }
  split; [|split].
  - now apply flush_paragraph_keeps_store, parse_lines_keep_store.
  - now apply flush_paragraph_nesting, parse_lines_nesting.
  - reflexivity.
Qed.

(** X13: the tree the parser returns is well nested, whatever the order
    and the levels of the header lines.  The root has the title and the
    path ["Root"] and the level 0; every other section has a level from 1
    on that is above the level of its parent, and its path is the path of
    its parent, or the empty path when that is [["Root"]], followed by
    its own title. *)
Theorem parsed_tree_is_well_nested :
  forall (markdown : string),
    title (_parse_markdown_structure markdown) = "Root"
    /\ level (_parse_markdown_structure markdown) = 0
    /\ path (_parse_markdown_structure markdown) = ["Root"]
    /\ Forall (fun s =>
                 Forall (fun child =>
                           level s < level child
                           /\ 1 <= level child
                           /\ path child
                              = (child_base (path s) ++ [title child])%list)
                   (subsections s))
         (preorder (_parse_markdown_structure markdown)).
Proof.
  intros markdown.
  destruct (parse_final_state markdown) as (Hok & (C & (root & Hr & Rh) & _) & E).
  rewrite E.
  set (st := flush_paragraph _) in *.
  destruct (reify_header (List.length (heap st)) (heap st) O root Hr)
    as (T & L & P & _).
  destruct Rh as (R1 & R2 & R3). cbn in R1, R2, R3.
  split; [congruence|]. split; [congruence|]. split; [congruence|].
  apply reify_preorder_Forall. intros fuel ref.
  destruct fuel as [|fuel].
  - cbn. destruct (nth_error (heap st) ref); constructor.
  - rewrite reify_succ.
    destruct (nth_error (heap st) ref) as [o|] eqn:Eo; cbn [subsections];
      [|constructor].
    apply Forall_map. eapply Forall_impl; [|exact (C ref o Eo)].
    intros c (oc & Hc & H1 & H2 & H3). cbn [level path].
    destruct (reify_header fuel (heap st) c oc Hc) as (T' & L' & P' & _).
    rewrite T', L', P'. auto.
Qed.

(** The path of the parent is emptied whenever it is [["Root"]]: under
    the root, and also under a section whose own path is [["Root"]], such
    as a section of level 1 with the title [Root]. *)
Example section_titled_Root_empties_the_base_path :
  let newline := String PyStr.newline EmptyString in
  map (fun s => (level s, title s, path s))
    (preorder
       (_parse_markdown_structure ("# Root" ++ newline ++ "## Child")))
  = [(0, "Root", ["Root"]); (1, "Root", ["Root"]); (2, "Child", ["Child"])].
Proof. vm_compute. reflexivity. Qed.

(** ** The paragraphs the parser stores *)

Lemma all_chars_app (P : ascii -> bool) (a b : string) :
  Spec.all_chars P (a ++ b) = Spec.all_chars P a && Spec.all_chars P b.
Proof.
  induction a as [|c a IH]; cbn; [reflexivity|].
  now rewrite IH, andb_assoc.
Qed.

Lemma all_chars_lstrip (P : ascii -> bool) (s : string) :
  Spec.all_chars P s = true -> Spec.all_chars P (PyStr.lstrip s) = true.
Proof.
  induction s as [|c s IH]; cbn; intros H; [reflexivity|].
  apply andb_true_iff in H as [Hc Hs].
  destruct (PyStr.isspace c); [now apply IH|]. cbn. now rewrite Hc, Hs.
Qed.

Lemma all_chars_rstrip (P : ascii -> bool) (s : string) :
  Spec.all_chars P s = true -> Spec.all_chars P (PyStr.rstrip s) = true.
Proof.
  induction s as [|c s IH]; cbn; intros H; [reflexivity|].
  apply andb_true_iff in H as [Hc Hs]. specialize (IH Hs).
  destruct (PyStr.rstrip s) as [|d r].
  - destruct (PyStr.isspace c); cbn; [reflexivity | now rewrite Hc].
  - cbn [Spec.all_chars] in IH |- *. now rewrite Hc, IH.
Qed.

Lemma all_chars_strip (P : ascii -> bool) (s : string) :
  Spec.all_chars P s = true -> Spec.all_chars P (PyStr.strip s) = true.
Proof. intros H. now apply all_chars_rstrip, all_chars_lstrip. Qed.

Lemma all_chars_join (P : ascii -> bool) (sep : string) (l : list string) :
  Spec.all_chars P sep = true ->
  Forall (fun s => Spec.all_chars P s = true) l ->
  Spec.all_chars P (PyStr.join sep l) = true.
Proof.
  intros Hsep F. unfold PyStr.join.
  induction F as [|x l Hx F IH]; [reflexivity|].
  destruct l as [|y l]; [exact Hx|].
  change (String.concat sep (x :: y :: l))
    with (x ++ sep ++ String.concat sep (y :: l)).
  now rewrite !all_chars_app, Hx, Hsep, IH.
Qed.

Lemma split_char_no_sep (sep : ascii) (s : string) :
  Forall (fun l => Spec.all_chars (fun c => negb (Ascii.eqb c sep)) l = true)
    (PyStr.split_char sep s).
Proof.
  induction s as [|c s IH]; cbn; [repeat constructor|].
  destruct (Ascii.eqb c sep) eqn:E; [constructor; [reflexivity | exact IH]|].
  destruct (PyStr.split_char sep s) as [|p ps]; [repeat constructor; cbn;
    now rewrite E|].
  inversion IH; subst. constructor; [|assumption].
  cbn. now rewrite E.
Qed.

Lemma Forall_modify {A : Type} (Q : A -> Prop) (f : A -> A) (l : list A) :
  (forall x, Q x -> Q (f x)) ->
  forall i, Forall Q l -> Forall Q (modify i f l).
Proof.
  intros Hf. induction l as [|x l IH]; intros [|i] F; cbn; auto;
    inversion F; subst; constructor; auto.
Qed.

Lemma flush_paragraph_text (st : parse_state) :
  text_ok st -> text_ok (flush_paragraph st).
Proof.
  intros [H P]. unfold flush_paragraph.
  destruct (current_paragraph_lines st) as [|l ls] eqn:E;
    [split; [exact H | now rewrite E]|].
  split; cbn [heap current_paragraph_lines]; [|constructor].
  destruct (PyStr.truthy _) eqn:T; [|exact H].
  apply Forall_modify; [|exact H].
  intros o Ho. cbn [o_content append_content]. apply Forall_app.
  split; [exact Ho|]. constructor; [|constructor]. split; [|split].
  - intro N. rewrite N in T. discriminate T.
  - apply strip_idempotent.
  - apply all_chars_strip, all_chars_join; [reflexivity | exact P].
Qed.

Lemma parse_line_text (st : parse_state) (line : string) :
  no_newline line = true -> text_ok st -> text_ok (parse_line st line).
Proof.
  intros Hl H. unfold parse_line. cbv zeta.
  destruct (negb _); [now apply flush_paragraph_text|].
  destruct (header_match _) as [[lvl group2]|].
  - apply flush_paragraph_text in H. destruct H as [H P].
    split; cbn [heap current_paragraph_lines]; [|exact P].
    apply Forall_app. split; [|repeat constructor].
    apply Forall_modify; [|exact H]. intros o Ho. exact Ho.
  - destruct H as [H P]. split; cbn [heap current_paragraph_lines];
      [exact H|].
    apply Forall_app. split; [exact P|]. constructor; [|constructor].
    now apply all_chars_strip.
Qed.

Lemma parse_lines_text (lines : list string) :
  Forall (fun l => no_newline l = true) lines ->
  forall st, text_ok st -> text_ok (fold_left parse_line lines st).
Proof.
  induction 1 as [|line lines Hl _ IH]; intros st H; cbn; [exact H|].
  now apply IH, parse_line_text.
Qed.

(** X14: every paragraph the parser stores, in whatever section, is not
    empty, has no whitespace at either end and holds no newline: the
    lines of a paragraph are joined by single spaces. *)
Theorem parsed_paragraphs_are_trimmed :
  forall (markdown : string),
    Forall (fun s =>
              Forall (fun p => p <> EmptyString /\ PyStr.strip p = p
                               /\ no_newline p = true)
                (content s))
      (preorder (_parse_markdown_structure markdown)).
Proof.
  intros markdown. unfold _parse_markdown_structure. cbv zeta.
  assert (T : text_ok
                (flush_paragraph
                   (fold_left parse_line
                      (PyStr.split_char PyStr.newline markdown) parse_start))).
  { apply flush_paragraph_text, parse_lines_text.
    - apply split_char_no_sep.
    - split; cbn; repeat constructor. }
  destruct T as [H _]. set (st := flush_paragraph _) in *.
  apply reify_preorder_Forall. intros fuel ref.
  destruct (nth_error (heap st) ref) as [o|] eqn:Eo.
  - destruct (reify_header fuel (heap st) ref o Eo) as (_ & _ & _ & ->).
    rewrite Forall_forall in H. apply H. eapply nth_error_In, Eo.
  - destruct fuel; cbn; rewrite Eo; constructor.
Qed.

(** ** [get_commons_url] *)

Lemma replace_char_idempotent (old new : ascii) (s : string) :
  old <> new ->
  MediaServer.replace_char old new (MediaServer.replace_char old new s)
  = MediaServer.replace_char old new s.
Proof.
  intros H. induction s as [|c s IH]; cbn; [reflexivity|]. rewrite IH.
  destruct (Ascii.eqb c old) eqn:E; [|now rewrite E].
  destruct (Ascii.eqb_spec new old) as [->|_]; [congruence | reflexivity].
Qed.

Lemma replace_char_removes (old new : ascii) (s : string) :
  old <> new ->
  Spec.all_chars (fun c => negb (Ascii.eqb c old))
    (MediaServer.replace_char old new s) = true.
Proof.
  intros H. induction s as [|c s IH]; cbn; [reflexivity|]. rewrite IH.
  destruct (Ascii.eqb c old) eqn:E; [|now rewrite E].
  destruct (Ascii.eqb_spec new old) as [->|_]; [congruence | reflexivity].
Qed.

Lemma hexdigest_shape (msg : list Z) :
  String.length (MD5.hexdigest msg) = 32%nat
  /\ Spec.all_chars Spec.is_hex_char (MD5.hexdigest msg) = true.
Proof.
  unfold MD5.hexdigest. rewrite length_hex, length_digest.
  split; [reflexivity | apply hex_all_hex, digest_range].
Qed.

(** X15: the Commons URL of a file name is the fixed prefix, the first hex
    digit of the MD5 of the name with its spaces replaced by underscores,
    a slash, the first two hex digits, a slash and that name; it holds no
    space, and a name and the name with underscores for its spaces have
    the same URL. *)
Theorem commons_url_shape :
  forall (filename : string),
    let name := MediaServer.replace_char " " "_" filename in
    (exists a b rest,
        MD5.hexdigest (PyStr.encode_utf8 name) = String a (String b rest)
        /\ Spec.is_hex_char a = true /\ Spec.is_hex_char b = true
        /\ MediaServer.get_commons_url filename
           = MediaServer.commons_prefix
             ++ String a (String "/" (String a (String b (String "/" name)))))
    /\ Spec.all_chars (fun c => negb (Ascii.eqb c " "))
         (MediaServer.get_commons_url filename) = true
    /\ MediaServer.get_commons_url name
       = MediaServer.get_commons_url filename.
Proof.
  intros filename name.
  assert (Hne : " "%char <> "_"%char) by discriminate.
  assert (S : exists a b rest,
             MD5.hexdigest (PyStr.encode_utf8 name) = String a (String b rest)
             /\ Spec.is_hex_char a = true /\ Spec.is_hex_char b = true
             /\ MediaServer.get_commons_url filename
                = MediaServer.commons_prefix
                  ++ String a
                       (String "/" (String a (String b (String "/" name))))).
  { destruct (hexdigest_shape (PyStr.encode_utf8 name)) as [L H].
    unfold MediaServer.get_commons_url. cbv zeta. fold name.
    destruct (MD5.hexdigest (PyStr.encode_utf8 name)) as [|a [|b rest]];
      cbn in L; try discriminate L.
    cbn [Spec.all_chars] in H.
    apply andb_true_iff in H as [Ha H]. apply andb_true_iff in H as [Hb _].
    exists a, b, rest. repeat split; try assumption.
    destruct rest; reflexivity. }
  split; [exact S|]. split.
  - destruct S as (a & b & rest & _ & Ha & Hb & ->).
    rewrite all_chars_app. cbn [Spec.all_chars].
    assert (Na : forall c, Spec.is_hex_char c = true ->
                           negb (Ascii.eqb c " ") = true).
    { intros c Hc. destruct (Ascii.eqb_spec c " ") as [->|_];
        [discriminate Hc | reflexivity]. }
    rewrite (Na a Ha), (Na b Hb). unfold name.
    rewrite (replace_char_removes " " "_" filename Hne). reflexivity.
  - unfold MediaServer.get_commons_url. cbv zeta. unfold name.
    now rewrite replace_char_idempotent.
Qed.

(** The URL of the example of the source. *)
Example commons_url_apollo :
  MediaServer.get_commons_url "Apollo 11.jpg"
  = "https://upload.wikimedia.org/wikipedia/commons/c/c7/Apollo_11.jpg".
Proof. vm_compute. reflexivity. Qed.

(** ** [_extract_abstract] *)

Lemma length_substring_le (n : nat) (s : string) :
  (String.length (substring 0 n s) <= n)%nat.
Proof.
  revert s. induction n as [|n IH]; intros [|c s]; cbn; try lia.
  specialize (IH s). lia.
Qed.

Lemma substring_empty_iff (n : nat) (s : string) :
  substring 0 (S n) s = EmptyString <-> s = EmptyString.
Proof. destruct s; cbn; split; congruence. Qed.

(** X16: the abstract has at most 2000 characters, and it is empty only
    when the document is empty. *)
Theorem abstract_is_bounded_and_not_empty :
  forall (markdown_text : string),
    (String.length (Shredder._extract_abstract markdown_text) <= 2000)%nat
    /\ (Shredder._extract_abstract markdown_text = EmptyString
        <-> markdown_text = EmptyString).
Proof.
  intros markdown_text. unfold Shredder._extract_abstract. cbv zeta.
  set (abstract := PyStr.strip _).
  destruct abstract as [|c r] eqn:E; cbn [PyStr.truthy negb].
  - split.
    + pose proof (length_substring_le 1000 markdown_text). lia.
    + apply substring_empty_iff.
  - split; [apply length_substring_le|].
    split; [discriminate|]. intros ->. subst abstract.
    vm_compute in E. discriminate E.
Qed.

Lemma split_char_first_line (s : string) :
  Shredder.startswith_hash s = true ->
  exists line lines,
    PyStr.split_char PyStr.newline s = line :: lines
    /\ Shredder.startswith_hash line = true.
Proof.
  destruct s as [|c s]; cbn; [discriminate|]. intros H.
  apply Ascii.eqb_eq in H. subst c. cbn.
  destruct (PyStr.split_char PyStr.newline s) as [|p ps];
    eexists _, _; split; reflexivity.
Qed.

(** X17: for a document whose first character is [#], no line comes
    before the first header, and the abstract falls back to the first
    1000 characters of the document, the header line included. *)
Theorem abstract_of_document_starting_with_header :
  forall (markdown_text : string),
    Shredder.startswith_hash markdown_text = true ->
    Shredder._extract_abstract markdown_text = substring 0 1000 markdown_text.
Proof.
  intros markdown_text H. unfold Shredder._extract_abstract. cbv zeta.
  destruct (split_char_first_line markdown_text H) as (l & ls & -> & Hl).
  cbn [Shredder.lines_before_header]. rewrite Hl. reflexivity.
Qed.

Lemma abstract_of_document_starting_with_header_witness :
  Shredder.startswith_hash "# Title" = true
  /\ Shredder._extract_abstract "# Title" = "# Title".
Proof.
  assert (H : Shredder.startswith_hash "# Title" = true) by reflexivity.
  split; [exact H|].
  rewrite (abstract_of_document_starting_with_header "# Title" H).
  reflexivity.
Defined.

(** ** The directory name of [save_article] *)

Lemma all_chars_impl (P Q : ascii -> bool) (s : string) :
  (forall c, P c = true -> Q c = true) ->
  Spec.all_chars P s = true -> Spec.all_chars Q s = true.
Proof.
  intros H. induction s as [|c s IH]; cbn; [reflexivity|]. intros A.
  apply andb_true_iff in A as [Hc Hs]. now rewrite (H c Hc), IH.
Qed.

Lemma keep_chars_all (p : ascii -> bool) (s : string) :
  Spec.all_chars p (FileStorage.keep_chars p s) = true.
Proof.
  induction s as [|c s IH]; cbn; [reflexivity|].
  destruct (p c) eqn:E; [cbn; now rewrite E, IH | exact IH].
Qed.

Lemma replace_space_name_chars (s : string) :
  Spec.all_chars FileStorage.kept s = true ->
  Spec.all_chars FileStorage.name_char
    (MediaServer.replace_char " " "_" s) = true.
Proof.
  induction s as [|c s IH]; cbn; [reflexivity|]. intros A.
  apply andb_true_iff in A as [Hc Hs]. rewrite (IH Hs), andb_true_r.
  unfold FileStorage.kept in Hc. unfold FileStorage.name_char.
  destruct (Ascii.eqb_spec c " ") as [->|N]; [reflexivity|].
  destruct (FileStorage.isalnum c), (Ascii.eqb c "-"), (Ascii.eqb c "_");
    cbn in *; congruence.
Qed.

Lemma hex_is_name_char (c : ascii) :
  Spec.is_hex_char c = true -> FileStorage.name_char c = true.
Proof.
  destruct c as [[] [] [] [] [] [] [] []]; intros H;
    vm_compute in H |- *; congruence.
Qed.

Lemma name_char_is_safe (c : ascii) :
  FileStorage.name_char c = true ->
  negb (Ascii.eqb c "/") && negb (Ascii.eqb c ".")
  && negb (Ascii.eqb c "092") && negb (PyStr.isspace c) = true.
Proof.
  destruct c as [[] [] [] [] [] [] [] []]; intros H;
    vm_compute in H |- *; congruence.
Qed.

(** X18: the directory [save_article] writes an article into has a name
    that is not empty and is made of letters, digits, hyphens and
    underscores only, whatever the title is: it holds no slash, no
    backslash, no dot and no whitespace, so it names a direct child of
    the articles directory. *)
Theorem article_directory_name_is_safe :
  forall (fresh title' : string),
    Spec.all_chars Spec.is_hex_char fresh = true ->
    FileStorage.safe_title fresh title' <> EmptyString
    /\ Spec.all_chars FileStorage.name_char
         (FileStorage.safe_title fresh title') = true
    /\ Spec.all_chars
         (fun c => negb (Ascii.eqb c "/") && negb (Ascii.eqb c ".")
                   && negb (Ascii.eqb c "092") && negb (PyStr.isspace c))
         (FileStorage.safe_title fresh title') = true.
Proof.
  intros fresh title' Hf.
  assert (N : FileStorage.safe_title fresh title' <> EmptyString
              /\ Spec.all_chars FileStorage.name_char
                   (FileStorage.safe_title fresh title') = true).
  { unfold FileStorage.safe_title. cbv zeta.
    set (cleaned := MediaServer.replace_char " " "_" _).
    assert (C : Spec.all_chars FileStorage.name_char cleaned = true).
    { subst cleaned. apply replace_space_name_chars, all_chars_strip,
        keep_chars_all. }
    destruct cleaned as [|c r]; cbn [PyStr.truthy negb].
    - split; [discriminate|].
      change ("untitled_" ++ fresh)
        with (String "u" (String "n" (String "t" (String "i" (String "t"
               (String "l" (String "e" (String "d" (String "_" fresh))))))))).
      cbn [Spec.all_chars].
      rewrite (all_chars_impl _ _ fresh hex_is_name_char Hf). reflexivity.
    - split; [discriminate | exact C]. }
  destruct N as [N1 N2]. split; [exact N1|]. split; [exact N2|].
  exact (all_chars_impl _ _ _ name_char_is_safe N2).
Qed.

Lemma article_directory_name_is_safe_witness :
  Spec.all_chars Spec.is_hex_char "0a1b2c3d" = true
  /\ FileStorage.safe_title "0a1b2c3d" "../etc: passwd" <> EmptyString
  /\ FileStorage.safe_title "0a1b2c3d" "../etc: passwd" = "etc_passwd".
Proof.
  assert (H : Spec.all_chars Spec.is_hex_char "0a1b2c3d" = true)
    by reflexivity.
  split; [exact H|]. split; [|reflexivity].
  exact (proj1 (article_directory_name_is_safe "0a1b2c3d" "../etc: passwd"
                  H)).
Defined.

(** ** The order of the sections *)

Lemma chain_ext (e e' : nat -> nat) (subs : list nat) :
  (forall c, In c subs -> e' c = e c) ->
  forall start stop, chain e start subs stop -> chain e' start subs stop.
Proof.
  induction subs as [|c subs IH]; intros H start stop C; cbn in *; [exact C|].
  destruct C as [-> C]. split; [reflexivity|].
  rewrite (H start (or_introl eq_refl)).
  apply IH; [|exact C]. intros x Hx. apply H. now right.
Qed.

Lemma chain_snoc (e : nat -> nat) (subs : list nat) (c : nat) :
  forall start stop,
    chain e start (subs ++ [c]) stop
    <-> exists mid, chain e start subs mid /\ c = mid /\ e c = stop.
Proof.
  induction subs as [|x subs IH]; intros start stop; cbn.
  - split.
    + intros [-> E]. exists start. auto.
    + intros (mid & <- & -> & E). auto.
  - rewrite IH. split.
    + intros (-> & mid & C & E1 & E2). exists mid. auto.
    + intros (mid & (-> & C) & E1 & E2). split; [reflexivity|]. eauto.
Qed.

Lemma chain_inner (e : nat -> nat) (bound : nat) (subs : list nat) (c : nat) :
  (forall x, In x (subs ++ [c]) -> (x < bound)%nat) ->
  forall start stop,
    chain e start (subs ++ [c]) stop ->
    forall x, In x subs -> (e x < bound)%nat.
Proof.
  induction subs as [|y subs IH]; intros B start stop C x Hx; [contradiction|].
  cbn in C. destruct C as [-> C].
  assert (B' : forall z, In z (subs ++ [c]) -> (z < bound)%nat)
    by (intros z Hz; apply B; now right).
  destruct Hx as [->|Hx]; [|now apply (IH B' _ _ C)].
  destruct subs as [|z subs]; cbn in C; destruct C as [E _];
    rewrite <- E; apply B'; now left.
Qed.

Lemma subs_of_modify_content (heap : list SectionObj) (i ref : nat) (p : string) :
  subs_of (modify i (append_content p) heap) ref = subs_of heap ref.
Proof.
  unfold subs_of. rewrite nth_error_modify.
  destruct (Nat.eqb ref i); [|reflexivity].
  destruct (nth_error heap ref); reflexivity.
Qed.

Lemma subs_of_new (heap : list SectionObj) (parent : nat) (new : SectionObj)
    (ref : nat) :
  (parent < List.length heap)%nat ->
  o_subsections new = [] ->
  subs_of (modify parent (append_subsection (List.length heap)) heap ++ [new])
    ref
  = if Nat.eqb ref parent
    then (subs_of heap ref ++ [List.length heap])%list
    else subs_of heap ref.
Proof.
  intros Hp Hn. unfold subs_of.
  destruct (Nat.lt_ge_cases ref (List.length heap)) as [Hr|Hr].
  - rewrite nth_error_app1 by (rewrite length_modify; exact Hr).
    rewrite nth_error_modify.
    destruct (nth_error heap ref) as [o|] eqn:E;
      [|apply nth_error_None in E; lia].
    destruct (Nat.eqb ref parent); reflexivity.
  - rewrite nth_error_app2 by (rewrite length_modify; exact Hr).
    rewrite length_modify.
    destruct (Nat.eqb_spec ref parent) as [->|_]; [lia|].
    assert (E : nth_error heap ref = None) by (apply nth_error_None; lia).
    rewrite E.
    destruct (ref - List.length heap)%nat as [|d]; cbn; [exact Hn|].
    now destruct d.
Qed.

Lemma pop_to_parent_suffix (heap : list SectionObj) (lvl : Z)
    (stack : list nat) :
  exists removed, stack = (removed ++ pop_to_parent heap lvl stack)%list.
Proof.
  induction stack as [|top below IH]; [now exists []|].
  cbn [pop_to_parent]. destruct below as [|next below]; [now exists []|].
  destruct (_ >=? _); [|now exists []].
  destruct IH as (removed & E). exists (top :: removed).
  cbn [app]. f_equal. exact E.
Qed.

Lemma decreasing_app (l1 l2 : list nat) :
  decreasing (l1 ++ l2) ->
  decreasing l2
  /\ (forall x y, In x l1 -> In y l2 -> (y < x)%nat).
Proof.
  induction l1 as [|a l1 IH]; cbn; intros D; [split; [exact D | contradiction]|].
  destruct D as [F D]. destruct (IH D) as [D2 O]. split; [exact D2|].
  intros x y [<-|Hx] Hy; [|now apply O].
  rewrite Forall_forall in F. apply F, in_or_app. now right.
Qed.

Lemma linked_app (heap : list SectionObj) (l1 l2 : list nat) :
  linked heap (l1 ++ l2) -> linked heap l2.
Proof.
  induction l1 as [|a l1 IH]; cbn [app]; intros L; [exact L|].
  apply IH. cbn [linked] in L.
  destruct (l1 ++ l2)%list; [exact I | exact (proj2 L)].
Qed.

Lemma linked_ext (heap heap' : list SectionObj) (stack : list nat) :
  (forall ref, In ref (tl stack) -> subs_of heap' ref = subs_of heap ref) ->
  linked heap stack -> linked heap' stack.
Proof.
  induction stack as [|top below IH]; intros H L; [exact I|].
  cbn [linked] in *. destruct below as [|parent below]; [exact I|].
  destruct L as [(init & E) L]. split.
  - exists init. rewrite H; [exact E | now left].
  - apply IH; [|exact L]. intros ref Hr. apply H. cbn. now right.
Qed.

Lemma linked_above (heap : list SectionObj) (stack : list nat) :
  linked heap stack ->
  forall ref,
    In ref (tl stack) ->
    exists a init,
      In a stack /\ subs_of heap ref = (init ++ [a])%list.
Proof.
  induction stack as [|top below IH]; intros L ref Hr; [contradiction|].
  cbn [tl] in Hr. cbn [linked] in L.
  destruct below as [|parent below]; [contradiction|].
  destruct L as [(init & E) L]. destruct Hr as [<-|Hr].
  - exists top, init. split; [now left | exact E].
  - destruct (IH L ref Hr) as (a & init' & Ha & E').
    exists a, init'. split; [now right | exact E'].
Qed.

Lemma on_stack_spec (stack : list nat) (ref : nat) :
  existsb (Nat.eqb ref) stack = true <-> In ref stack.
Proof.
  rewrite existsb_exists. split.
  - intros (x & Hx & E). apply Nat.eqb_eq in E. now subst.
  - intros H. exists ref. split; [exact H | apply Nat.eqb_refl].
Qed.

Lemma flush_paragraph_order (st : parse_state) (e : nat -> nat) :
  order_ok st e -> order_ok (flush_paragraph st) e.
Proof.
  intros H. unfold flush_paragraph.
  destruct (current_paragraph_lines st) as [|l ls]; [exact H|].
  destruct (PyStr.truthy _); [|exact H].
  destruct H as (J1 & J2 & J3 & J4 & J5 & J6).
  unfold order_ok. cbn [heap section_stack]. rewrite length_modify.
  repeat split.
  - intros ref Hr. rewrite subs_of_modify_content. now apply J1.
  - exact J2.
  - exact J3.
  - eapply linked_ext; [|exact J4]. intros ref _.
    apply subs_of_modify_content.
  - intros ref c Hc. rewrite subs_of_modify_content in Hc. now apply J5.
  - rewrite subs_of_modify_content in H. now apply (J6 ref c).
  - rewrite subs_of_modify_content in H. now apply (J6 ref c).
Qed.

Lemma header_order (st : parse_state) (e : nat -> nat) (lvl : Z)
    (new : SectionObj) :
  parse_ok st -> order_ok st e -> o_subsections new = [] ->
  let stack := pop_to_parent (heap st) lvl (section_stack st) in
  let n := List.length (heap st) in
  exists e',
    order_ok
      {| heap := (modify (hd O stack) (append_subsection n) (heap st)
                  ++ [new])%list;
         section_stack := n :: stack;
         current_section := n;
         current_paragraph_lines := current_paragraph_lines st |} e'.
Proof.
  intros (Sok & K & N & Cur) (J1 & J2 & J3 & J4 & J5 & J6) Hnew stack n.
  destruct (pop_to_parent_keeps (heap st) lvl (section_stack st)
              (fun ref => (ref < List.length (heap st))%nat) K N)
    as [Kp Np].
  destruct (pop_to_parent_suffix (heap st) lvl (section_stack st))
    as (removed & Es).
  fold stack in Kp, Np, Es.
  rewrite Es in J2, J4. apply decreasing_app in J2 as [D Above].
  apply linked_app in J4.
  assert (Sub : forall x, In x stack -> In x (section_stack st))
    by (intros x Hx; rewrite Es; apply in_or_app; now right).
  destruct stack as [|parent rest] eqn:Estack; [congruence|].
  cbn [hd]. destruct D as [Drest D].
  rewrite Forall_forall in Kp, J3, Drest.
  assert (Pn : (parent < n)%nat) by (apply Kp; now left).
  set (heap' := (modify parent (append_subsection n) (heap st) ++ [new])%list).
  assert (Subs : forall ref,
             subs_of heap' ref
             = if Nat.eqb ref parent
               then (subs_of (heap st) ref ++ [n])%list
               else subs_of (heap st) ref)
    by (intros ref; now apply subs_of_new).
  assert (Below : forall c, In c (parent :: rest) -> (c <= parent)%nat).
  { intros c [<-|Hc]; [lia|]. specialize (Drest c Hc). lia. }
  set (new_stack := n :: parent :: rest).
  set (e' := fun ref => if existsb (Nat.eqb ref) new_stack then S n else e ref).
  assert (In' : forall ref, In ref new_stack -> e' ref = S n).
  { intros ref H. unfold e'. apply on_stack_spec in H. now rewrite H. }
  assert (Out' : forall ref, ~ In ref new_stack -> e' ref = e ref).
  { intros ref H. unfold e'.
    destruct (existsb (Nat.eqb ref) new_stack) eqn:E; [|reflexivity].
    apply on_stack_spec in E. contradiction. }
  assert (Child : forall ref c,
             In c (subs_of (heap st) ref) -> In c new_stack ->
             In ref (parent :: rest)).
  { intros ref c Hc [<-|Hs].
    - specialize (J6 ref n Hc). unfold n in J6. lia.
    - pose proof (J5 ref c Hc (Sub c Hs)) as Hr. rewrite Es in Hr.
      apply in_app_or in Hr as [Hr|Hr]; [|exact Hr].
      specialize (Above ref c Hr Hs). specialize (J6 ref c Hc). lia. }
  exists e'. unfold order_ok. cbn [heap section_stack]. fold heap'.
  assert (Len : List.length heap' = S n)
    by (unfold heap'; rewrite length_app, length_modify; cbn; lia).
  rewrite Len. split; [|split; [|split; [|split; [|split]]]].
  - intros ref Hr. rewrite Subs.
    destruct (Nat.eq_dec ref n) as [->|Hn].
    + destruct (Nat.eqb_spec n parent) as [E|_]; [lia|].
      assert (E0 : subs_of (heap st) n = []).
      { unfold subs_of.
        assert (E1 : nth_error (heap st) n = None)
          by (apply nth_error_None; unfold n; lia).
        now rewrite E1. }
      rewrite E0. cbn. symmetry. apply In'. now left.
    + assert (Hr' : (ref < n)%nat) by lia.
      specialize (J1 ref Hr').
      destruct (Nat.eqb_spec ref parent) as [->|Hp].
      * rewrite (In' parent) by (right; now left).
        apply chain_snoc. exists n.
        split; [|split; [reflexivity | apply In'; now left]].
        rewrite (J3 parent (Sub parent (or_introl eq_refl))) in J1.
        apply (chain_ext e); [|exact J1].
        intros c Hc. apply Out'. intros Hs.
        pose proof (Child parent c Hc Hs) as _.
        specialize (J6 parent c Hc).
        destruct Hs as [<-|Hs]; [unfold n in J6; lia|].
        specialize (Below c Hs). lia.
      * destruct (in_dec Nat.eq_dec ref rest) as [Hin|Hout].
        -- destruct (linked_above (heap st) (parent :: rest) J4 ref Hin)
             as (a & init & Ha & Ea).
           rewrite Ea in J1 |- *.
           rewrite (J3 ref (Sub ref (or_intror Hin))) in J1.
           apply chain_snoc in J1 as (mid & C & -> & Emid).
           rewrite (In' ref) by (right; now right).
           apply chain_snoc. exists mid.
           split; [|split; [reflexivity | apply In'; now right]].
           apply (chain_ext e); [|exact C].
           intros c Hc. apply Out'. intros Hs.
           assert (Lt : (e c < n)%nat).
           { apply (chain_inner e n init mid) with (start := S ref)
                                                   (stop := n); auto.
             - intros x Hx. rewrite <- Ea in Hx.
               specialize (J6 ref x Hx). unfold n. lia.
             - apply chain_snoc. exists mid. auto. }
           destruct Hs as [<-|Hs].
           ++ assert (Hc' : In n (subs_of (heap st) ref))
                by (rewrite Ea; apply in_or_app; now left).
              specialize (J6 ref n Hc'). unfold n in J6. lia.
           ++ rewrite (J3 c (Sub c Hs)) in Lt. unfold n in Lt. lia.
        -- assert (Hns : ~ In ref new_stack).
           { intros [E|[E|E]]; [lia | congruence | contradiction]. }
           rewrite (Out' ref Hns).
           apply (chain_ext e); [|exact J1].
           intros c Hc. apply Out'. intros Hs.
           destruct (Child ref c Hc Hs) as [E|E]; [congruence | contradiction].
  - cbn [decreasing]. split; [|split; [|exact D]].
    + apply Forall_forall. intros x Hx. apply Kp. exact Hx.
    + apply Forall_forall. exact Drest.
  - apply Forall_forall. intros ref Hr. now apply In'.
  - cbn [linked]. split.
    + exists (subs_of (heap st) parent). rewrite Subs.
      now rewrite Nat.eqb_refl.
    + apply (linked_ext (heap st)); [|exact J4].
      intros ref Hr. cbn [tl] in Hr. rewrite Subs.
      destruct (Nat.eqb_spec ref parent) as [->|_]; [|reflexivity].
      specialize (Drest parent Hr). lia.
  - intros ref c Hc Hs. rewrite Subs in Hc.
    destruct (Nat.eqb_spec ref parent) as [->|Hp]; [right; now left|].
    right. exact (Child ref c Hc Hs).
  - intros ref c Hc. rewrite Subs in Hc.
    destruct (Nat.eqb_spec ref parent) as [->|Hp].
    + apply in_app_or in Hc as [Hc|[<-|[]]]; [|lia].
      specialize (J6 parent c Hc). unfold n. lia.
    + specialize (J6 ref c Hc). unfold n. lia.
Qed.

Lemma parse_line_order (st : parse_state) (line : string) :
  parse_ok st ->
  (exists e, order_ok st e) -> exists e, order_ok (parse_line st line) e.
Proof.
  intros Hok [e H]. unfold parse_line. cbv zeta.
  destruct (negb _); [exists e; now apply flush_paragraph_order|].
  destruct (header_match _) as [[lvl group2]|].
  - apply header_order with (e := e);
      [now apply flush_paragraph_keeps_store
      | now apply flush_paragraph_order | reflexivity].
  - exists e. exact H.
Qed.

Lemma parse_lines_order (lines : list string) :
  forall st,
    parse_ok st ->
    (exists e, order_ok st e) ->
    exists e, order_ok (fold_left parse_line lines st) e.
Proof.
  induction lines as [|line lines IH]; intros st Hok H; cbn [fold_left];
    [exact H|].
  apply IH; [now apply parse_line_keeps_store | now apply parse_line_order].
Qed.

Lemma parse_start_order : exists e, order_ok parse_start e.
Proof.
  exists (fun _ => 1%nat). unfold order_ok, parse_start, subs_of.
  cbn [heap section_stack List.length].
  assert (E : forall ref,
             match nth_error [root_obj] ref with
             | Some o => o_subsections o
             | None => []
             end = []).
  { intros [|[|ref]]; reflexivity. }
  split; [|split; [|split; [|split; [|split]]]].
  - intros ref Hr. rewrite E. cbn. lia.
  - cbn. auto.
  - constructor; [reflexivity | constructor].
  - exact I.
  - intros ref c Hc. rewrite E in Hc. contradiction.
  - intros ref c Hc. rewrite E in Hc. contradiction.
Qed.

Lemma chain_walk (e : nat -> nat) (w : nat -> list nat) (subs : list nat) :
  (forall c, In c subs -> w c = seq c (e c - c) /\ (c < e c)%nat) ->
  forall start stop,
    chain e start subs stop ->
    flat_map w subs = seq start (stop - start) /\ (start <= stop)%nat.
Proof.
  induction subs as [|c subs IH]; intros H start stop C.
  - cbn in C. subst stop. rewrite Nat.sub_diag. split; [reflexivity | lia].
  - cbn [chain] in C. destruct C as [Ec C]. subst c.
    destruct (H start (or_introl eq_refl)) as [Ew Lt].
    destruct (IH (fun x Hx => H x (or_intror Hx)) _ _ C) as [Ef Le].
    cbn [flat_map]. rewrite Ew, Ef. split; [|lia].
    replace (stop - start)%nat
      with ((e start - start) + (stop - e start))%nat by lia.
    rewrite seq_app. do 2 f_equal. lia.
Qed.

(** With the order invariant, walking the store from an object visits an
    interval of positions, in increasing order. *)
Lemma walk_interval (heap : list SectionObj) (e : nat -> nat) :
  (forall ref,
      (ref < List.length heap)%nat ->
      chain e (S ref) (subs_of heap ref) (e ref)) ->
  (forall ref c,
      In c (subs_of heap ref) -> (ref < c < List.length heap)%nat) ->
  forall fuel ref,
    (ref < List.length heap)%nat ->
    (List.length heap - ref <= fuel)%nat ->
    walk fuel heap ref = seq ref (e ref - ref) /\ (ref < e ref)%nat.
Proof.
  intros J1 J6. induction fuel as [|fuel IH]; intros ref Hr Hf; [lia|].
  cbn [walk].
  destruct (chain_walk e (walk fuel heap) (subs_of heap ref))
    with (start := S ref) (stop := e ref) as [Ef Le].
  - intros c Hc. specialize (J6 ref c Hc). apply IH; lia.
  - now apply J1.
  - rewrite Ef. split; [|lia].
    replace (e ref - ref)%nat with (S (e ref - S ref)) by lia. reflexivity.
Qed.

Lemma map_flat_map_comm {A B C : Type} (g : B -> C) (h : A -> list B)
    (l : list A) :
  map g (flat_map h l) = flat_map (fun x => map g (h x)) l.
Proof.
  induction l as [|x l IH]; [reflexivity|].
  cbn [flat_map]. now rewrite map_app, IH.
Qed.

Lemma flat_map_of_map {A B C : Type} (h : B -> list C) (g : A -> B)
    (l : list A) :
  flat_map h (map g l) = flat_map (fun x => h (g x)) l.
Proof.
  induction l as [|x l IH]; [reflexivity|].
  cbn [flat_map map]. now rewrite IH.
Qed.

(** The pre-order of the tree read from the store follows the walk of
    the store. *)
Lemma preorder_reify_walk (heap : list SectionObj) :
  forall fuel ref,
    map sec_triple (preorder (reify fuel heap ref))
    = map (obj_triple_at heap) (walk fuel heap ref).
Proof.
  induction fuel as [|fuel IH]; intros ref.
  - cbn [walk reify map]. unfold obj_triple_at.
    destruct (nth_error heap ref); reflexivity.
  - rewrite reify_succ. cbn [walk map]. unfold subs_of.
    unfold obj_triple_at at 1.
    destruct (nth_error heap ref) as [o|] eqn:E.
    + cbn [preorder map]. f_equal.
      rewrite flat_map_of_map, !map_flat_map_comm.
      apply flat_map_ext. intros c. apply IH.
    + reflexivity.
Qed.

Lemma map_obj_triple_at (heap : list SectionObj) :
  map (obj_triple_at heap) (seq 0 (List.length heap)) = map obj_triple heap.
Proof.
  induction heap as [|o heap IH]; [reflexivity|].
  cbn [List.length seq map]. f_equal.
  rewrite <- seq_shift, map_map, <- IH. apply map_ext. intros i. reflexivity.
Qed.

Lemma last_in_nonempty {A : Type} (l : list A) (d : A) :
  l <> [] -> In (last l d) l.
Proof.
  induction l as [|x l IH]; intros N; [congruence|].
  destruct l as [|y l]; [now left|].
  right. apply IH. congruence.
Qed.

(** The tree the parser returns, in pre-order, is the store in the order
    of its positions, which is the order the objects were created in. *)
Lemma parsed_preorder_is_store (markdown : string) :
  let st := flush_paragraph
              (fold_left parse_line
                 (PyStr.split_char PyStr.newline markdown) parse_start) in
  map sec_triple (preorder (_parse_markdown_structure markdown))
  = map obj_triple (heap st).
Proof.
  cbv zeta.
  destruct (parse_final_state markdown) as (Hok & Hn & ->).
  set (st := flush_paragraph _) in *.
  assert (P0 : parse_ok parse_start).
  { unfold parse_ok, parse_start, store_ok. cbn.
    repeat split; try congruence; try lia.
    - intros [|ref] o E; cbn in E.
      + injection E as <-. constructor.
      + destruct ref; discriminate E.
    - constructor; [lia | constructor]. }
  destruct (parse_lines_order (PyStr.split_char PyStr.newline markdown)
              parse_start P0 parse_start_order) as [e H].
  apply flush_paragraph_order in H. fold st in H.
  destruct H as (J1 & _ & J3 & _ & _ & J6).
  destruct Hok as (_ & _ & N & Cur). destruct Hn as (_ & _ & L).
  assert (In0 : In O (section_stack st)).
  { rewrite <- L. now apply last_in_nonempty. }
  rewrite Forall_forall in J3. specialize (J3 O In0).
  rewrite preorder_reify_walk.
  destruct (walk_interval (heap st) e J1 J6 (List.length (heap st)) O)
    as [Ew _]; [lia | lia |].
  rewrite Ew, J3, Nat.sub_0_r. apply map_obj_triple_at.
Qed.

(** ** The sections of the tree and the blocks of the document *)

Lemma modify_last {A : Type} (f : A -> A) (front : list A) (x : A) :
  modify (List.length front) f (front ++ [x])%list = (front ++ [f x])%list.
Proof.
  induction front as [|y front IH]; [reflexivity|].
  cbn [List.length app modify]. now rewrite IH.
Qed.

Lemma map_modify_same {A B : Type} (g : A -> B) (f : A -> A) (l : list A) :
  (forall x, g (f x) = g x) ->
  forall i, map g (modify i f l) = map g l.
Proof.
  intros H. induction l as [|x l IH]; intros [|i]; cbn; try reflexivity.
  - now rewrite H.
  - now rewrite IH.
Qed.

Lemma flush_paragraph_last (st : parse_state) (front : list SectionObj)
    (cur : SectionObj) :
  heap st = (front ++ [cur])%list ->
  current_section st = List.length front ->
  exists cur',
    heap (flush_paragraph st) = (front ++ [cur'])%list
    /\ obj_triple cur'
       = end_paragraph (obj_triple cur) (current_paragraph_lines st)
    /\ current_section (flush_paragraph st) = List.length front
    /\ current_paragraph_lines (flush_paragraph st) = [].
Proof.
  intros Hh Hc. unfold flush_paragraph, end_paragraph.
  destruct (current_paragraph_lines st) as [|l ls] eqn:E.
  - exists cur. auto.
  - cbn [heap current_section current_paragraph_lines].
    destruct (PyStr.truthy _).
    + exists (append_content (PyStr.strip (PyStr.join " " (l :: ls))) cur).
      rewrite Hh, Hc, modify_last. auto.
    + exists cur. auto.
Qed.

Lemma parse_line_last (st : parse_state) (line : string)
    (lines : list string) (front : list SectionObj) (cur : SectionObj) :
  heap st = (front ++ [cur])%list ->
  current_section st = List.length front ->
  exists front' cur',
    heap (parse_line st line) = (front' ++ [cur'])%list
    /\ current_section (parse_line st line) = List.length front'
    /\ (map obj_triple front
        ++ blocks_from (line :: lines) (current_paragraph_lines st)
             (obj_triple cur))%list
       = (map obj_triple front'
          ++ blocks_from lines
               (current_paragraph_lines (parse_line st line))
               (obj_triple cur'))%list.
Proof.
  intros Hh Hc.
  destruct (flush_paragraph_last st front cur Hh Hc)
    as (cur1 & Eh & Et & Ec & Ep).
  unfold parse_line. cbn [blocks_from]. cbv zeta.
  destruct (negb _).
  - exists front, cur1. rewrite Ep, Et. auto.
  - destruct (header_match _) as [[lvl group2]|].
    + cbn [heap current_section current_paragraph_lines].
      eexists. eexists. split; [reflexivity|].
      rewrite length_modify. split; [reflexivity|].
      rewrite map_modify_same by reflexivity.
      rewrite Ep, Eh, map_app, <- app_assoc. cbn [map app].
      rewrite Et. reflexivity.
    + exists front, cur. auto.
Qed.

Lemma parse_lines_blocks (lines : list string) :
  forall st front cur,
    heap st = (front ++ [cur])%list ->
    current_section st = List.length front ->
    map obj_triple (heap (flush_paragraph (fold_left parse_line lines st)))
    = (map obj_triple front
       ++ blocks_from lines (current_paragraph_lines st)
            (obj_triple cur))%list.
Proof.
  induction lines as [|line lines IH]; intros st front cur Hh Hc.
  - cbn [fold_left blocks_from].
    destruct (flush_paragraph_last st front cur Hh Hc)
      as (cur1 & Eh & Et & _ & _).
    rewrite Eh, map_app. cbn [map]. now rewrite Et.
  - cbn [fold_left].
    destruct (parse_line_last st line lines front cur Hh Hc)
      as (front' & cur' & Eh & Ec & ->).
    now apply IH.
Qed.

(** X19: the sections of the tree the parser returns, taken in pre-order
    (a section, then its subsections in their order), are the blocks of
    the document in the order of the text: the root block with the
    paragraphs before the first header line, then one section for every
    header line with the level and the title of the header and the
    paragraphs up to the next header line.  Nesting the sections under
    their parents loses no header, adds none and moves no paragraph to
    another section. *)
Theorem parsed_sections_follow_the_document (markdown : string) :
  map sec_triple (preorder (_parse_markdown_structure markdown))
  = header_blocks markdown.
Proof.
  rewrite parsed_preorder_is_store. unfold header_blocks.
  apply (parse_lines_blocks _ parse_start [] root_obj); reflexivity.
Qed.
